(** * sqlint: indentation tree, violations, the check driver and settings

    A shallow embedding of [sqlint/syntax_tree.py], [checker/violation.py],
    [checker/tree.py] and [sqlint/config/config_loader.py].  Python integers
    are [Z], strings are [string],
    [**kwargs] dictionaries are [gmap string value], and the mutable
    [SyntaxTree] objects live in a heap addressed by references, because
    [sqlptree] grows the tree through an aliased cursor.  The methods that
    change a [Node] work on a memory of list objects, because a [Node] keeps
    the list it is built from. *)

From Stdlib Require Import ZArith String Ascii List Lia Bool.
From Stdlib Require PrimFloat Uint63.
From stdpp Require Import base option list strings gmap pretty.

Local Open Scope string_scope.
Local Open Scope list_scope.
Local Open Scope Z_scope.

(** ** Outcomes of a call *)

(** The Python exceptions the embedded code raises. *)
Inductive exn : Type :=
  | ValueError
  | KeyError (key : string)
  | TypeError
  | AttributeError
  | AssertionError
  | NotImplementedError.

(** What can stop the model where Python would go on: recursion that is
    bounded by fuel, a reference outside the heap, and a format string
    outside the modelled fragment of [str.format]. *)
Inductive fault : Type :=
  | OutOfFuel
  | DanglingRef
  | Unmodelled.

Inductive result (A : Type) : Type :=
  | Ok (a : A)
  | Raise (e : exn)
  | Fault (f : fault).

Arguments Ok {A} a.
Arguments Raise {A} e.
Arguments Fault {A} f.

Definition bind {A B : Type} (r : result A) (k : A -> result B) : result B :=
  match r with
  | Ok a => k a
  | Raise e => Raise e
  | Fault f => Fault f
  end.

Notation "'let*' x ':=' r 'in' k" := (bind r (fun x => k))
  (at level 10, x pattern, r at level 100, k at level 200).

(** [for x in xs: acc = body(acc, x)], stopping at the first exception. *)
Fixpoint for_each {A S : Type} (body : S -> A -> result S) (xs : list A) (acc : S)
  : result S :=
  match xs with
  | [] => Ok acc
  | x :: rest => let* acc' := body acc x in for_each body rest acc'
  end.

(** [for x in xs: yield from body(x)], collected into one list. *)
Fixpoint yield_from {A B : Type} (body : A -> result (list B)) (xs : list A)
  : result (list B) :=
  match xs with
  | [] => Ok []
  | x :: rest =>
      let* ys := body x in
      let* more := yield_from body rest in
      Ok (ys ++ more)
  end.

(** Python's [enumerate], counting from [start]. *)
Fixpoint enumerate_from {A : Type} (start : Z) (xs : list A) : list (Z * A) :=
  match xs with
  | [] => []
  | x :: rest => (start, x) :: enumerate_from (start + 1) rest
  end.

Definition enumerate {A : Type} (xs : list A) : list (Z * A) := enumerate_from 0 xs.

(** [len(x)] of a list and of a string, as a Python integer. *)
Definition len {A : Type} (l : list A) : Z := Z.of_nat (length l).
Definition str_len (s : string) : Z := Z.of_nat (String.length s).

(** Python's [l[start:stop]] for a step of one: a negative index counts
    from the end, and both ends are clamped to the list. *)
Definition clamp_index (n i : Z) : Z :=
  if i <? 0 then Z.max (i + n) 0 else Z.min i n.

Definition slice {A : Type} (l : list A) (start stop : Z) : list A :=
  let lo := clamp_index (len l) start in
  let hi := clamp_index (len l) stop in
  take (Z.to_nat (hi - lo)) (drop (Z.to_nat lo) l).

(** [l[start:]]. *)
Definition slice_from {A : Type} (l : list A) (start : Z) : list A :=
  drop (Z.to_nat (clamp_index (len l) start)) l.

(** [sep.join(parts)]. *)
Fixpoint join (sep : string) (parts : list string) : string :=
  match parts with
  | [] => ""
  | [p] => p
  | p :: rest => p +:+ sep +:+ join sep rest
  end.

(** [s.split(c)] for a one-character separator: never empty, one more part
    than there are separators. *)
Fixpoint split_on (c : ascii) (s : string) : list string :=
  match s with
  | EmptyString => [""]
  | String a rest =>
      if Ascii.eqb a c then "" :: split_on c rest
      else match split_on c rest with
           | [] => [String a ""]
           | p :: ps => String a p :: ps
           end
  end.

Definition newline : string := String (ascii_of_nat 10) "".
Definition split_lines (s : string) : list string := split_on (ascii_of_nat 10) s.
Definition join_lines (lines : list string) : string := join newline lines.

(** [sum(xs)] over Python integers. *)
Definition sum (xs : list Z) : Z := foldr Z.add 0 xs.

(** ** Object references *)

(** Objects are kept in a list and addressed by their index; a new object
    goes to the end, so a reference never moves. *)
Abbreviation ref := nat (only parsing).

Definition deref {A : Type} (h : list A) (r : ref) : result A :=
  match h !! r with
  | Some a => Ok a
  | None => Fault DanglingRef
  end.

Definition alloc {A : Type} (h : list A) (obj : A) : list A * ref :=
  (h ++ [obj], length h).

(** ** Tokens *)

(** Modelled from the spec: the [Token] class lives in the parser module,
    which is not among the sources.  The spec gives a token a kind, its exact
    source text and a length; the kinds are the ones the spec lists, with
    [OTHER] for the ones it leaves open. *)
Inductive Kind : Type :=
  | WHITESPACE
  | COMMENT
  | KEYWORD
  | IDENTIFIER
  | LITERAL
  | OPERATOR
  | COMMA
  | BRACKET_LEFT
  | BRACKET_RIGHT
  | OTHER (name : string).

#[global] Instance Kind_eq_dec : EqDecision Kind.
Proof. solve_decision. Defined.

(** Modelled from the spec: how a kind constant prints is not in the
    sources; each prints as the name the spec gives it.  No template of the
    catalog prints one. *)
Definition Kind_str (k : Kind) : string :=
  match k with
  | WHITESPACE => "WHITESPACE"
  | COMMENT => "COMMENT"
  | KEYWORD => "KEYWORD"
  | IDENTIFIER => "IDENTIFIER"
  | LITERAL => "LITERAL"
  | OPERATOR => "OPERATOR"
  | COMMA => "COMMA"
  | BRACKET_LEFT => "BRACKET_LEFT"
  | BRACKET_RIGHT => "BRACKET_RIGHT"
  | OTHER name => name
  end.

Module Token.

Record t : Type := mk { word : string; kind : Kind }.

(** Modelled from the spec: [len(token)] is the length of its text. *)
Definition __len__ (self : t) : Z := str_len (word self).

End Token.

(** ** Node: the tokens of one line *)

Module Node.

Record t : Type := mk { _line_num : Z; tokens : list Token.t }.

(** The [line_num] setter: the value it stores, or the error it raises. *)
Definition line_num_setter (value : Z) : result Z :=
  if value <? 0 then Raise ValueError else Ok value.

Definition __init__ (line_num : Z) (tokens : option (list Token.t)) : result t :=
  let tokens := match tokens with None => [] | Some ts => ts end in
  let* stored := line_num_setter line_num in
  Ok {| _line_num := stored; tokens := tokens |}.

Definition line_num (self : t) : Z := _line_num self.

Definition text (self : t) : string := join "" (map Token.word (tokens self)).

Definition indent (self : t) : Z :=
  match tokens self with
  | [] => 0
  | head :: _ =>
      if bool_decide (Token.kind head = WHITESPACE) then Token.__len__ head else 0
  end.

Definition __len__ (self : t) : Z := len (tokens self).

Definition get_position (self : t) (index : Z) : Z :=
  let index := Z.max index 0 in
  sum (map Token.__len__ (slice (tokens self) 0 index)) + 1.

(** The loop of [ltrip_kind]: [cut] after walking [tokens] from the head
    until the first token whose kind is not in [args]. *)
Fixpoint ltrip_cut (args : list Kind) (tokens : list Token.t) (cut : Z) : Z :=
  match tokens with
  | [] => cut
  | token :: rest =>
      if bool_decide (Token.kind token ∈ args) then ltrip_cut args rest (cut + 1)
      else cut
  end.

(** The loop of [rtrip_kind], run over [reversed(self.tokens)]. *)
Fixpoint rtrip_cut (args : list Kind) (reversed : list Token.t) (cut : Z) : Z :=
  match reversed with
  | [] => cut
  | token :: rest =>
      if bool_decide (Token.kind token ∈ args) then rtrip_cut args rest (cut - 1)
      else cut
  end.

(** Node objects by reference: the trims below build a new object and
    change none. *)
Abbreviation store := (list t) (only parsing).

(** [Node(line_num=..., tokens=...)] as an allocation. *)
Definition new (s : store) (line_num : Z) (tokens : option (list Token.t))
  : result (store * ref) :=
  let* obj := __init__ line_num tokens in
  Ok (alloc s obj).

Definition ltrip_kind (s : store) (self : ref) (args : list Kind)
  : result (store * ref) :=
  let* me := deref s self in
  let cut := ltrip_cut args (tokens me) (-1) in
  new s (line_num me) (Some (slice_from (tokens me) (cut + 1))).

Definition rtrip_kind (s : store) (self : ref) (args : list Kind)
  : result (store * ref) :=
  let* me := deref s self in
  let cut := rtrip_cut args (reverse (tokens me)) (len (tokens me)) in
  new s (line_num me) (Some (slice (tokens me) 0 cut)).

Definition trip_kind (s : store) (self : ref) (args : list Kind)
  : result (store * ref) :=
  let* (s1, trimmed) := ltrip_kind s self args in
  rtrip_kind s1 trimmed args.

(** The methods that change a Node change the list object it holds, and
    [__init__] keeps the list it is handed ([self.tokens = tokens], no
    copy), so Nodes built from one list share it.  For these methods a Node
    object is its line number and a reference to a list object, and the
    memory holds both kinds of object. *)
Record object : Type := mk_object { object_line_num : Z; object_tokens : ref }.

Record memory : Type := mk_memory {
  nodes : list object;
  lists : list (list Token.t)
}.

(** The Node at a reference, with the tokens its list holds now. *)
Definition load (m : memory) (self : ref) : result t :=
  let* me := deref (nodes m) self in
  let* held := deref (lists m) (object_tokens me) in
  Ok {| _line_num := object_line_num me; tokens := held |}.

(** [Node(line_num, tokens)], where [tokens] is the caller's list object or
    [None]: a new, empty list is made only for [None]. *)
Definition construct (m : memory) (line_num : Z) (tokens : option ref)
  : result (memory * ref) :=
  let (lists', tokens) :=
    match tokens with
    | None => alloc (lists m) []
    | Some given => (lists m, given)
    end in
  let* stored := line_num_setter line_num in
  let (nodes', self) :=
    alloc (nodes m) {| object_line_num := stored; object_tokens := tokens |} in
  Ok ({| nodes := nodes'; lists := lists' |}, self).

(** [self.tokens.append(token)]. *)
Definition append (m : memory) (self : ref) (token : Token.t) : result memory :=
  let* me := deref (nodes m) self in
  let* held := deref (lists m) (object_tokens me) in
  Ok {| nodes := nodes m; lists := <[object_tokens me := held ++ [token]]> (lists m) |}.

(** [self.tokens.extend(token)], where [token] is a list of tokens. *)
Definition extend (m : memory) (self : ref) (token : list Token.t) : result memory :=
  let* me := deref (nodes m) self in
  let* held := deref (lists m) (object_tokens me) in
  Ok {| nodes := nodes m; lists := <[object_tokens me := held ++ token]> (lists m) |}.

(** [self.tokens.insert(index, token)]: the index is clamped as a slice
    bound is, and the token goes in before the element at that index. *)
Definition insert (m : memory) (self : ref) (index : Z) (token : Token.t)
  : result memory :=
  let* me := deref (nodes m) self in
  let* held := deref (lists m) (object_tokens me) in
  let at_ := Z.to_nat (clamp_index (len held) index) in
  Ok {| nodes := nodes m;
        lists := <[object_tokens me := take at_ held ++ token :: drop at_ held]> (lists m) |}.

End Node.

(** ** SyntaxTree: the indentation tree *)

Module SyntaxTree.

(** One tree object.  [parent] and [leaves] hold references into the heap
    the object lives in; the [Node] is owned by the object. *)
Record t : Type := mk {
  _depth : Z;
  leaves : list ref;
  parent : option ref;
  node : Node.t;
  is_abstract : bool
}.

Abbreviation heap := (list t) (only parsing).

Definition __init__ (depth line_num : Z) (tokens : option (list Token.t))
    (parent : option ref) (is_abstract : bool) : result t :=
  let* nd := Node.__init__ line_num tokens in
  Ok {| _depth := depth; leaves := []; parent := parent; node := nd;
        is_abstract := is_abstract |}.

Definition depth (self : t) : Z := _depth self.

(** The [depth] setter. *)
Definition depth_setter (self : t) (value : Z) : result t :=
  if value <? 0 then Raise ValueError
  else Ok {| _depth := value; leaves := leaves self; parent := parent self;
             node := node self; is_abstract := is_abstract self |}.

Definition line_num (self : t) : Z := Node.line_num (node self).
Definition tokens (self : t) : list Token.t := Node.tokens (node self).
Definition text (self : t) : string := Node.text (node self).
Definition indent (self : t) : Z := Node.indent (node self).
Definition get_position (self : t) (index : Z) : Z :=
  Node.get_position (node self) index.

(** [self.leaves.append(leaf)], on the object [self] of the heap. *)
Definition add_leaf (h : heap) (self leaf : ref) : result heap :=
  let* me := deref h self in
  Ok (<[self := {| _depth := _depth me; leaves := leaves me ++ [leaf];
                   parent := parent me; node := node me;
                   is_abstract := is_abstract me |}]> h).

Definition _ignore_token (tokens : list Token.t) : list Token.t :=
  if len tokens =? 0 then []
  else
    let ignore_kinds := [WHITESPACE] in
    filter (fun token => Token.kind token ∉ ignore_kinds) tokens.

(** The [while] loop of [sqlptree]: climb from [parent_vertex] while the
    line's indent does not exceed the vertex's and the vertex's depth is
    positive; the [assert] fails on a vertex without a parent.  Each round
    moves to a parent, so the number of objects bounds the rounds: that is
    the fuel [sqlptree_line] gives it. *)
Fixpoint pop_walk (fuel : nat) (h : heap) (indent : Z) (parent_vertex : ref)
  : result ref :=
  match fuel with
  | O => Fault OutOfFuel
  | S fuel' =>
      let* pv := deref h parent_vertex in
      if (indent <=? SyntaxTree.indent pv) && (0 <? depth pv) then
        match parent pv with
        | None => Raise AssertionError
        | Some up => pop_walk fuel' h indent up
        end
      else Ok parent_vertex
  end.

(** One round of the [for] loop of [sqlptree], on the heap and the
    cursor [parent_vertex]. *)
Definition sqlptree_line (is_abstract : bool) (st : heap * ref)
    (item : Z * list Token.t) : result (heap * ref) :=
  let '(h, parent_vertex) := st in
  let '(line_num, tokens) := item in
  let tokens := if is_abstract then _ignore_token tokens else tokens in
  if is_abstract && bool_decide (tokens = []) then Ok (h, parent_vertex)
  else
    let indent :=
      match tokens with
      | head :: _ =>
          if bool_decide (Token.kind head = WHITESPACE)
          then str_len (Token.word head) else 0
      | [] => 0
      end in
    let* parent_vertex := pop_walk (length h) h indent parent_vertex in
    let* pv := deref h parent_vertex in
    let* _tree := __init__ (depth pv + 1) (line_num + 1) (Some tokens)
                    (Some parent_vertex) is_abstract in
    let '(h, leaf) := alloc h _tree in
    let* h := add_leaf h parent_vertex leaf in
    Ok (h, leaf).

Section Parser.

(** The tokenizer [parse_sql] (the parser module's [parse]) is not among
    the sources: it is a parameter, one token list per line. *)
Variable parse_sql : string -> list (list Token.t).

(** Returns the heap that holds the tree and the reference of its root. *)
Definition sqlptree (sql : string) (is_abstract : bool) (sql_type : string)
  : result (heap * ref) :=
  if negb (String.eqb sql_type "StandardSQL") then Raise NotImplementedError
  else
    let token_list := parse_sql sql in
    let* guard := __init__ 0 0 None None is_abstract in
    let '(h, parent_vertex) := alloc [] guard in
    let result := parent_vertex in
    let* (h, _) :=
      for_each (sqlptree_line is_abstract) (enumerate token_list)
               (h, parent_vertex) in
    Ok (h, result).

End Parser.

(** [_sqlftree]: the texts the generator yields, in order.  The recursion
    follows references, so it is bounded by fuel; [sqlftree] gives it one
    unit per object of the heap. *)
Fixpoint _sqlftree (fuel : nat) (h : heap) (tree : ref) : result (list string) :=
  match fuel with
  | O => Fault OutOfFuel
  | S fuel' =>
      let* me := deref h tree in
      yield_from
        (fun leaf =>
           let* l := deref h leaf in
           let* below := _sqlftree fuel' h leaf in
           Ok (text l :: below))
        (leaves me)
  end.

Definition sqlftree (h : heap) (self : ref) : result string :=
  let* lines := _sqlftree (length h) h self in
  Ok (join newline lines).

End SyntaxTree.

(** ** Values passed as keyword arguments *)

(** What a [**kwargs] dictionary holds here: strings, integers and the
    token-kind constants. *)
Inductive value : Type :=
  | VStr (s : string)
  | VInt (z : Z)
  | VKind (k : Kind).

#[global] Instance value_eq_dec : EqDecision value.
Proof. solve_decision. Defined.

(** [str(v)], as [str.format] prints a value. *)
Definition str (v : value) : string :=
  match v with
  | VStr s => s
  | VInt z => pretty z
  | VKind k => Kind_str k
  end.

(** ** str.format with named fields *)

(** A format string is literal characters, the escapes for the two braces,
    and replacement fields.  Only fields that are a plain name are modelled;
    a conversion, a format spec, an attribute or index lookup or a
    positional field ends in [Fault Unmodelled].  No template of the code
    catalog uses one. *)
Inductive piece : Type :=
  | Lit (c : ascii)
  | Field (name : string).

Definition name_char (c : ascii) : bool :=
  let n := nat_of_ascii c in
  ((65 <=? n) && (n <=? 90) || (97 <=? n) && (n <=? 122)
   || (48 <=? n) && (n <=? 57) || (n =? 95))%nat.

Definition digit_char (c : ascii) : bool :=
  let n := nat_of_ascii c in ((48 <=? n) && (n <=? 57))%nat.

Fixpoint all_chars (p : ascii -> bool) (s : string) : bool :=
  match s with
  | EmptyString => true
  | String c rest => p c && all_chars p rest
  end.

Definition plain_name (s : string) : bool :=
  match s with
  | EmptyString => false
  | String c _ => negb (digit_char c) && all_chars name_char s
  end.

Definition open_brace : ascii := ascii_of_nat 123.
Definition close_brace : ascii := ascii_of_nat 125.

(** One pass over the format string; [field] is the name read so far when
    the scan is inside a replacement field. *)
Fixpoint parse_format (s : string) (field : option string) : result (list piece) :=
  match s, field with
  | EmptyString, None => Ok []
  | EmptyString, Some _ => Raise ValueError
  | String c rest, Some name =>
      if Ascii.eqb c close_brace then
        if plain_name name then
          let* pieces := parse_format rest None in Ok (Field name :: pieces)
        else Fault Unmodelled
      else parse_format rest (Some (name +:+ String c EmptyString))
  | String c rest, None =>
      if Ascii.eqb c open_brace then
        match rest with
        | String c' rest' =>
            if Ascii.eqb c' open_brace then
              let* pieces := parse_format rest' None in Ok (Lit open_brace :: pieces)
            else parse_format rest (Some EmptyString)
        | EmptyString => Raise ValueError
        end
      else if Ascii.eqb c close_brace then
        match rest with
        | String c' rest' =>
            if Ascii.eqb c' close_brace then
              let* pieces := parse_format rest' None in Ok (Lit close_brace :: pieces)
            else Raise ValueError
        | EmptyString => Raise ValueError
        end
      else let* pieces := parse_format rest None in Ok (Lit c :: pieces)
  end.

Fixpoint render (pieces : list piece) (kwargs : gmap string value) : result string :=
  match pieces with
  | [] => Ok EmptyString
  | Lit c :: rest => let* tail := render rest kwargs in Ok (String c tail)
  | Field name :: rest =>
      match kwargs !! name with
      | None => Raise (KeyError name)
      | Some v => let* tail := render rest kwargs in Ok (str v +:+ tail)
      end
  end.

(** [template.format] applied to the keyword arguments [kwargs]. *)
Definition format (template : string) (kwargs : gmap string value) : result string :=
  let* pieces := parse_format template None in
  render pieces kwargs.

(** The names of the replacement fields of a format string. *)
Definition field_names (template : string) : list string :=
  match parse_format template None with
  | Ok pieces =>
      omap (fun p => match p with Field name => Some name | Lit _ => None end) pieces
  | _ => []
  end.

(** ** The code catalog *)

Module Code.

Inductive t : Type :=
  | INDENT_STEPS
  | WHITESPACE_MULTIPLE
  | WHITESPACE_AFTER_COMMA
  | WHITESPACE_BEFORE_COMMA
  | WHITESPACE_AFTER_BRACKET
  | WHITESPACE_BEFORE_BRACKET
  | WHITESPACE_AFTER_OPERATOR
  | WHITESPACE_BEFORE_OPERATOR
  | COMMA_HEAD
  | COMMA_END
  | KEYWORD_UPPER
  | KEYWORD_UPPER_HEAD
  | KEYWORD_LOWER
  | JOIN_TABLE
  | JOIN_CONTEXT
  | LINE_BlANK_MULTIPLE
  | LINE_ONLY_WHITESPACE
  | LINE_BREAK_BEFORE
  | LINE_BREAK_AFTER.

Definition code (c : t) : string :=
  match c with
  | INDENT_STEPS => "E101"
  | WHITESPACE_MULTIPLE => "E201"
  | WHITESPACE_AFTER_COMMA => "E202"
  | WHITESPACE_BEFORE_COMMA => "E203"
  | WHITESPACE_AFTER_BRACKET => "E204"
  | WHITESPACE_BEFORE_BRACKET => "E205"
  | WHITESPACE_AFTER_OPERATOR => "E206"
  | WHITESPACE_BEFORE_OPERATOR => "E207"
  | COMMA_HEAD => "E301"
  | COMMA_END => "E302"
  | KEYWORD_UPPER => "E401"
  | KEYWORD_UPPER_HEAD => "E402"
  | KEYWORD_LOWER => "E403"
  | JOIN_TABLE => "E501"
  | JOIN_CONTEXT => "E502"
  | LINE_BlANK_MULTIPLE => "E601"
  | LINE_ONLY_WHITESPACE => "E602"
  | LINE_BREAK_BEFORE => "E603"
  | LINE_BREAK_AFTER => "E604"
  end.

Definition template (c : t) : string :=
  match c with
  | INDENT_STEPS => "indent steps must be {expected} multiples, but {actual} spaces"
  | WHITESPACE_MULTIPLE => "there are multiple whitespaces"
  | WHITESPACE_AFTER_COMMA => "whitespace must be after comma: {target}"
  | WHITESPACE_BEFORE_COMMA => "whitespace must not be before comma: ,"
  | WHITESPACE_AFTER_BRACKET => "whitespace must not be after bracket: {target}"
  | WHITESPACE_BEFORE_BRACKET => "whitespace must not be before bracket: {target}"
  | WHITESPACE_AFTER_OPERATOR => "whitespace must be after binary operator: {target}"
  | WHITESPACE_BEFORE_OPERATOR => "whitespace must be before binary operator: {target}"
  | COMMA_HEAD => "comma must be head of line"
  | COMMA_END => "comma must be end of line"
  | KEYWORD_UPPER => "reserved keywords must be upper case: {actual} -> {expected}"
  | KEYWORD_UPPER_HEAD =>
      "a head of reserved keywords must be upper case: {actual} -> {expected}"
  | KEYWORD_LOWER => "reserved keywords must be lower case: {actual} -> {expected}"
  | JOIN_TABLE => "table_name must be at the same line as join context"
  | JOIN_CONTEXT => "join context must be fully: {actual} -> {expected}"
  | LINE_BlANK_MULTIPLE => "there are multiple blank lines"
  | LINE_ONLY_WHITESPACE => "this line has only whitespace"
  | LINE_BREAK_BEFORE => "expected to break line after: {target}"
  | LINE_BREAK_AFTER => "expected to break line after: {target}"
  end.

(** The name the class body binds each member to. *)
Definition name (c : t) : string :=
  match c with
  | INDENT_STEPS => "INDENT_STEPS"
  | WHITESPACE_MULTIPLE => "WHITESPACE_MULTIPLE"
  | WHITESPACE_AFTER_COMMA => "WHITESPACE_AFTER_COMMA"
  | WHITESPACE_BEFORE_COMMA => "WHITESPACE_BEFORE_COMMA"
  | WHITESPACE_AFTER_BRACKET => "WHITESPACE_AFTER_BRACKET"
  | WHITESPACE_BEFORE_BRACKET => "WHITESPACE_BEFORE_BRACKET"
  | WHITESPACE_AFTER_OPERATOR => "WHITESPACE_AFTER_OPERATOR"
  | WHITESPACE_BEFORE_OPERATOR => "WHITESPACE_BEFORE_OPERATOR"
  | COMMA_HEAD => "COMMA_HEAD"
  | COMMA_END => "COMMA_END"
  | KEYWORD_UPPER => "KEYWORD_UPPER"
  | KEYWORD_UPPER_HEAD => "KEYWORD_UPPER_HEAD"
  | KEYWORD_LOWER => "KEYWORD_LOWER"
  | JOIN_TABLE => "JOIN_TABLE"
  | JOIN_CONTEXT => "JOIN_CONTEXT"
  | LINE_BlANK_MULTIPLE => "LINE_BlANK_MULTIPLE"
  | LINE_ONLY_WHITESPACE => "LINE_ONLY_WHITESPACE"
  | LINE_BREAK_BEFORE => "LINE_BREAK_BEFORE"
  | LINE_BREAK_AFTER => "LINE_BREAK_AFTER"
  end.

(** The members in the order of the class body. *)
Definition members : list t :=
  [INDENT_STEPS; WHITESPACE_MULTIPLE; WHITESPACE_AFTER_COMMA; WHITESPACE_BEFORE_COMMA;
   WHITESPACE_AFTER_BRACKET; WHITESPACE_BEFORE_BRACKET; WHITESPACE_AFTER_OPERATOR;
   WHITESPACE_BEFORE_OPERATOR; COMMA_HEAD; COMMA_END; KEYWORD_UPPER; KEYWORD_UPPER_HEAD;
   KEYWORD_LOWER; JOIN_TABLE; JOIN_CONTEXT; LINE_BlANK_MULTIPLE; LINE_ONLY_WHITESPACE;
   LINE_BREAK_BEFORE; LINE_BREAK_AFTER].

(** [Code.NAME] for a name in capitals: the member the class body binds to
    that name, and AttributeError when it binds none.  (The other attributes
    of an enumeration class have no such name.) *)
Definition attribute (name : string) : result t :=
  match filter (fun c => Code.name c = name) members with
  | c :: _ => Ok c
  | [] => Raise AttributeError
  end.

End Code.

(** ** Violations *)

Module Violation.

(** A violation object.  [comma_position] is the attribute that only
    [CommaPositionViolation] sets. *)
Record t : Type := mk {
  tree : SyntaxTree.t;
  pos : Z;
  code : Code.t;
  params : gmap string value;
  comma_position : option value
}.

Definition __init__ (tree : SyntaxTree.t) (pos : Z) (code : Code.t)
    (kwargs : gmap string value) : t :=
  {| tree := tree; pos := pos; code := code; params := kwargs;
     comma_position := None |}.

(** [super().__init__(tree, pos, code, **kwargs)] from a subclass: Python
    refuses the call when the spread dictionary names the parameter [code]
    again.  ([tree], [pos] and [self] cannot be keys: the subclass has bound
    them.) *)
Definition super_init (tree : SyntaxTree.t) (pos : Z) (code : Code.t)
    (kwargs : gmap string value) : result t :=
  if bool_decide (is_Some (kwargs !! "code")) then Raise TypeError
  else Ok (__init__ tree pos code kwargs).

Definition get_message (self : t) : result string :=
  let _template := "(L{line}, {pos}): " +:+ Code.template (code self) in
  if bool_decide (is_Some (params self !! "line") ∨ is_Some (params self !! "pos"))
  then Raise TypeError
  else
    format _template
      (<["line" := VInt (Node.line_num (SyntaxTree.node (tree self)))]>
         (<["pos" := VInt (pos self)]> (params self))).

Definition IndentStepsViolation (tree : SyntaxTree.t) (pos : Z)
    (kwargs : gmap string value) : result t :=
  super_init tree pos Code.INDENT_STEPS kwargs.

Definition KeywordStyleViolation (tree : SyntaxTree.t) (pos : Z)
    (kwargs : gmap string value) : result t :=
  match kwargs !! "style" with
  | None => Raise (KeyError "style must be passed.")
  | Some style =>
      let* _code :=
        if bool_decide (style = VStr "upper-all") then Ok Code.KEYWORD_UPPER
        else if bool_decide (style = VStr "upper-head") then Ok Code.KEYWORD_UPPER_HEAD
        else if bool_decide (style = VStr "lower") then Ok Code.KEYWORD_LOWER
        else Raise ValueError in
      super_init tree pos _code kwargs
  end.

Definition CommaPositionViolation (tree : SyntaxTree.t) (pos : Z)
    (comma_position : value) (kwargs : gmap string value) : result t :=
  let* _code :=
    if bool_decide (comma_position = VStr "head") then Ok Code.COMMA_HEAD
    else if bool_decide (comma_position = VStr "end") then Ok Code.COMMA_END
    else Raise ValueError in
  let* self := super_init tree pos _code kwargs in
  Ok {| tree := Violation.tree self; pos := Violation.pos self;
        code := Violation.code self; params := params self;
        comma_position := Some comma_position |}.

Definition MultiSpacesViolation (tree : SyntaxTree.t) (pos : Z)
    (kwargs : gmap string value) : result t :=
  super_init tree pos Code.WHITESPACE_MULTIPLE kwargs.

Definition WhitespaceViolation (tree : SyntaxTree.t) (pos : Z)
    (kwargs : gmap string value) : result t :=
  match kwargs !! "token" with
  | None => Raise (KeyError "token must be passed.")
  | Some token =>
      match kwargs !! "position" with
      | None => Raise (KeyError "position must be passed.")
      | Some position =>
          let* _code :=
            if bool_decide (token = VKind COMMA) then
              if bool_decide (position = VStr "before")
              then Ok Code.WHITESPACE_BEFORE_COMMA
              else if bool_decide (position = VStr "after")
              then Ok Code.WHITESPACE_AFTER_COMMA
              else Raise ValueError
            else if bool_decide (token = VKind BRACKET_LEFT)
            then Ok Code.WHITESPACE_AFTER_BRACKET
            else if bool_decide (token = VKind BRACKET_RIGHT)
            then Ok Code.WHITESPACE_BEFORE_BRACKET
            else if bool_decide (token = VKind OPERATOR) then
              if bool_decide (position = VStr "before")
              then Ok Code.WHITESPACE_BEFORE_OPERATOR
              else if bool_decide (position = VStr "after")
              then Ok Code.WHITESPACE_AFTER_OPERATOR
              else Raise ValueError
            else Raise ValueError in
          super_init tree pos _code kwargs
      end
  end.

Definition JoinTableViolation (tree : SyntaxTree.t) (pos : Z)
    (kwargs : gmap string value) : result t :=
  super_init tree pos Code.JOIN_TABLE kwargs.

Definition JoinContextViolation (tree : SyntaxTree.t) (pos : Z)
    (kwargs : gmap string value) : result t :=
  super_init tree pos Code.JOIN_CONTEXT kwargs.

Definition MultiBlankLineViolation (tree : SyntaxTree.t) (pos : Z)
    (kwargs : gmap string value) : result t :=
  super_init tree pos Code.LINE_BlANK_MULTIPLE kwargs.

Definition OnlyWhitespaceViolation (tree : SyntaxTree.t) (pos : Z)
    (kwargs : gmap string value) : result t :=
  super_init tree pos Code.LINE_ONLY_WHITESPACE kwargs.

Definition BreakingLineViolation (tree : SyntaxTree.t) (pos : Z)
    (position : value) (kwargs : gmap string value) : result t :=
  let* _code :=
    if bool_decide (position = VStr "before") then Code.attribute "BREAK_LINE_BEFORE"
    else if bool_decide (position = VStr "after") then Code.attribute "BREAK_LINE_AFTER"
    else Raise ValueError in
  super_init tree pos _code kwargs.

End Violation.

(** ** The check driver *)

Module Checker.

(** What the checkers read of the configuration. *)
Record ConfigLoader : Type := { values : gmap string value }.

(** A tree as a checker receives it: the heap and the root's reference. *)
Abbreviation tree_ref := (SyntaxTree.heap * ref)%type (only parsing).

Abbreviation checker :=
  (tree_ref -> ConfigLoader -> result (list Violation.t)) (only parsing).

(** [for vi in violation_list: print(vi.get_message())]: the lines printed
    so far, and how the loop ended. *)
Fixpoint print_messages (violation_list : list Violation.t) (stdout : list string)
  : list string * result unit :=
  match violation_list with
  | [] => (stdout, Ok tt)
  | vi :: rest =>
      match Violation.get_message vi with
      | Ok message => print_messages rest (stdout ++ [message])
      | Raise e => (stdout, Raise e)
      | Fault f => (stdout, Fault f)
      end
  end.

Section Checkers.

(** The five checker classes of the [base] module, which is not among
    the sources: each is the function its [check] method computes. *)
Variables IndentStepsChecker WhitespaceChecker KeywordStyleChecker
          CommaChecker JoinChecker : checker.

Definition checker_list : list checker :=
  [IndentStepsChecker; WhitespaceChecker; KeywordStyleChecker;
   CommaChecker; JoinChecker].

(** [check(tree, config)]: what it prints and what it returns.  The body
    has no [return] statement, so a call that completes returns Python's
    [None], written [None] here; [Some l] would be a returned list. *)
Definition check (tree : tree_ref) (config : ConfigLoader)
  : list string * result (option (list Violation.t)) :=
  match for_each
          (fun violation_list (c : checker) =>
             let* found := c tree config in Ok (violation_list ++ found))
          checker_list [] with
  | Ok violation_list =>
      match print_messages violation_list [] with
      | (stdout, Ok _) => (stdout, Ok None)
      | (stdout, Raise e) => (stdout, Raise e)
      | (stdout, Fault f) => (stdout, Fault f)
      end
  | Raise e => ([], Raise e)
  | Fault f => ([], Fault f)
  end.

End Checkers.

End Checker.

(** ** Configuration *)

(** The type objects [_get_with_type] tells apart; [py_other] is any other
    type. *)
Inductive pytype : Type :=
  | py_int
  | py_float
  | py_bool
  | py_str
  | py_other (name : string).

(** What the settings dictionary holds: what the getters of the
    configuration parser return. *)
Inductive setting : Type :=
  | SInt (z : Z)
  | SFloat (x : PrimFloat.float)
  | SBool (b : bool)
  | SStr (s : string).

(** The exceptions of the configuration code: the two of [configparser] it
    names, [FileNotFoundError], the built-in ones, and any other by its
    name. *)
Inductive config_exn : Type :=
  | NoSectionError (section : string)
  | NoOptionError (option section : string)
  | FileNotFoundError (message : string)
  | Builtin (e : exn)
  | OtherError (name : string).

Inductive attempt (A : Type) : Type :=
  | Returns (a : A)
  | Raises (e : config_exn).

Arguments Returns {A} a.
Arguments Raises {A} e.

Definition returning {A B : Type} (f : A -> B) (a : attempt A) : attempt B :=
  match a with
  | Returns x => Returns (f x)
  | Raises e => Raises e
  end.

Definition double_quote : string := String (ascii_of_nat 34) EmptyString.

Module ConfigParser.

(** The configuration parser of the standard library after it has read its
    files, as much of it as the loader calls: the typed getters, by section
    and option name.  Each returns the option's value or raises (a missing
    section, a missing option, a value of the wrong form). *)
Record t : Type := mk {
  getint : string -> string -> attempt Z;
  getfloat : string -> string -> attempt PrimFloat.float;
  getboolean : string -> string -> attempt bool;
  get : string -> string -> attempt string
}.

End ConfigParser.

Module ConfigLoader.

Definition SECTION : string := "sqlint".

Definition NAME_TYPES : list (string * pytype) :=
  [("max-line-length", py_int); ("comma-position", py_str);
   ("keyword-style", py_str); ("indent-steps", py_int)].

(** A loader object.  [user_config_file] is [None] while the attribute has
    not been assigned. *)
Record t : Type := mk {
  values : gmap string setting;
  user_config_file : option string
}.

Definition _get_with_type (config_parser : ConfigParser.t) (name : string)
    (_type : pytype) : attempt setting :=
  match _type with
  | py_int => returning SInt (ConfigParser.getint config_parser SECTION name)
  | py_float => returning SFloat (ConfigParser.getfloat config_parser SECTION name)
  | py_bool => returning SBool (ConfigParser.getboolean config_parser SECTION name)
  | py_str | py_other _ => returning SStr (ConfigParser.get config_parser SECTION name)
  end.

(** The loop of [_load] over the names still to load: the dictionary
    afterwards, and how the loop ended.  The handlers raise what they caught,
    so an exception of a getter leaves the loop as it is. *)
Fixpoint load_names (config_parser : ConfigParser.t) (names : list (string * pytype))
    (values : gmap string setting) : gmap string setting * attempt unit :=
  match names with
  | [] => (values, Returns tt)
  | (name, _type) :: rest =>
      match _get_with_type config_parser name _type with
      | Returns v => load_names config_parser rest (<[name := v]> values)
      | Raises err => (values, Raises err)
      end
  end.

(** [self._load(config_parser)]: the object afterwards, and the outcome. *)
Definition _load (self : t) (config_parser : ConfigParser.t) : t * attempt unit :=
  let (stored, outcome) := load_names config_parser NAME_TYPES (values self) in
  ({| values := stored; user_config_file := user_config_file self |}, outcome).

(** [self.get(name, default)]; [None] is Python's [None]. *)
Definition get (self : t) (name : string) (default : option setting) : option setting :=
  match values self !! name with
  | Some v => Some v
  | None => default
  end.

Section Files.

(** The path of the default settings, the existence test of the file
    system, and the parser that results from reading a file. *)
Variable DEFAULT_INI : string.
Variable exists_ : string -> bool.
Variable read : string -> attempt ConfigParser.t.

(** The constructor: the object and the warnings logged, or the exception. *)
Definition __init__ (config_file : option string) : attempt (t * list string) :=
  let config_file := match config_file with None => DEFAULT_INI | Some f => f end in
  let self := {| values := ∅; user_config_file := None |} in
  if negb (exists_ DEFAULT_INI)
  then Raises (FileNotFoundError ("default setting file is not found: " +:+ DEFAULT_INI))
  else
    match read DEFAULT_INI with
    | Raises e => Raises e
    | Returns default_config =>
        match _load self default_config with
        | (_, Raises e) => Raises e
        | (self, Returns _) =>
            if negb (String.eqb config_file DEFAULT_INI) then
              let self :=
                {| values := values self; user_config_file := Some config_file |} in
              if negb (exists_ config_file)
              then Returns (self, ["[Warning] config file is not found: " +:+ config_file])
              else
                match read config_file with
                | Raises e => Raises e
                | Returns user_config =>
                    match _load self user_config with
                    | (_, Raises e) => Raises e
                    | (self, Returns _) => Returns (self, [])
                    end
                end
            else Returns (self, [])
        end
    end.

End Files.

End ConfigLoader.

Module Config.

Record t : Type := mk { loader : ConfigLoader.t }.

Section Files.

Variable DEFAULT_INI : string.
Variable exists_ : string -> bool.
Variable read : string -> attempt ConfigParser.t.

Definition __init__ (config_file : option string) : attempt (t * list string) :=
  let config_file := match config_file with None => DEFAULT_INI | Some f => f end in
  match ConfigLoader.__init__ DEFAULT_INI exists_ read (Some config_file) with
  | Returns (loader, log) => Returns ({| loader := loader |}, log)
  | Raises e => Raises e
  end.

End Files.

(** The float of an integer; exact for the constants the properties compare
    with (32 and 0), as for every integer below 2^53 in size. *)
Definition float_of_Z (n : Z) : PrimFloat.float :=
  if n <? 0 then PrimFloat.opp (PrimFloat.of_uint63 (Uint63.of_Z (- n)))
  else PrimFloat.of_uint63 (Uint63.of_Z n).

(** [x < n] for an integer constant [n]: integers compare, a boolean
    compares as 0 or 1, a float compares by its value (a NaN is less than
    nothing), a string and [None] raise [TypeError]. *)
Definition less_than (x : option setting) (n : Z) : result bool :=
  match x with
  | Some (SInt z) => Ok (z <? n)
  | Some (SBool b) => Ok (Z.b2z b <? n)
  | Some (SFloat f) => Ok (PrimFloat.ltb f (float_of_Z n))
  | Some (SStr _) | None => Raise TypeError
  end.

(** [x in names] for a list of strings: only an equal string is in. *)
Definition among (x : option setting) (names : list string) : bool :=
  match x with
  | Some (SStr s) => bool_decide (s ∈ names)
  | _ => false
  end.

(** How an f-string prints [x].  The digits of a float are not
    modelled. *)
Definition shown (x : option setting) : result string :=
  match x with
  | Some (SInt z) => Ok (pretty z)
  | Some (SBool b) => Ok (if b then "True" else "False")
  | Some (SStr s) => Ok s
  | Some (SFloat _) => Fault Unmodelled
  | None => Ok "None"
  end.

(** [warnings.warn(message); return value], with [message] built around the
    printed [x]. *)
Definition warn_and_return (x : option setting) (message : string -> string)
    (value : setting) : list string * result (option setting) :=
  match shown x with
  | Ok s => ([message s], Ok (Some value))
  | Raise e => ([], Raise e)
  | Fault f => ([], Fault f)
  end.

(** Each property gives the warnings it issues and what it returns. *)
Definition max_line_length (self : t) : list string * result (option setting) :=
  let result := ConfigLoader.get (loader self) "max-line-length" None in
  match less_than result 32 with
  | Ok true =>
      warn_and_return result
        (fun s => "max-line-length value must be more 32, but " +:+ s
                      +:+ " So defualt value(128) was used.")
        (SInt 128)
  | Ok false => ([], Ok result)
  | Raise e => ([], Raise e)
  | Fault f => ([], Fault f)
  end.

Definition comma_position (self : t) : list string * result (option setting) :=
  let result := ConfigLoader.get (loader self) "comma-position" None in
  if negb (among result ["head"; "end"])
  then
    warn_and_return result
      (fun s => "comma-position value must be " +:+ double_quote +:+ "head"
                    +:+ double_quote +:+ " or " +:+ double_quote +:+ "end"
                    +:+ double_quote +:+ ", but " +:+ s
                    +:+ " So defualt value(before) was used.")
      (SStr "head")
  else ([], Ok result).

Definition keyword_style (self : t) : list string * result (option setting) :=
  let result := ConfigLoader.get (loader self) "keyword-style" None in
  if negb (among result ["upper-all"; "lower"; "upper-head"])
  then
    warn_and_return result
      (fun s => "keyword-style value must be " +:+ double_quote +:+ "upper-all"
                    +:+ double_quote +:+ ", " +:+ double_quote +:+ "lower"
                    +:+ double_quote +:+ " or " +:+ double_quote +:+ "upper-head"
                    +:+ double_quote +:+ ", but " +:+ s
                    +:+ ". So default value(lower) was used.")
      (SStr "lower")
  else ([], Ok result).

Definition indent_steps (self : t) : list string * result (option setting) :=
  let result := ConfigLoader.get (loader self) "indent-steps" None in
  match less_than result 0 with
  | Ok true =>
      warn_and_return result
        (fun s => "indent-steps value must be more 0, but " +:+ s
                      +:+ " So defualt value(4) was used.")
        (SInt 4)
  | Ok false => ([], Ok (ConfigLoader.get (loader self) "indent-steps" None))
  | Raise e => ([], Raise e)
  | Fault f => ([], Fault f)
  end.

End Config.

(** * Vocabulary of the properties *)

(** ** Messages *)

(** The names of the replacement fields among parsed pieces. *)
Definition fields (pieces : list piece) : list string :=
  omap (fun p => match p with Field name => Some name | Lit _ => None end) pieces.

(** ** The tree that sqlptree builds *)

(** The text of a line, as its tokens spell it. *)
Definition line_text (tokens : list Token.t) : string :=
  join "" (map Token.word tokens).

(** What [_sqlftree] yields for one leaf: its text, then its subtree. *)
Definition emit (fuel : nat) (h : SyntaxTree.heap) (leaf : ref) : result (list string) :=
  let* l := deref h leaf in
  let* below := SyntaxTree._sqlftree fuel h leaf in
  Ok (SyntaxTree.text l :: below).

(** The texts of the objects at references [lo], ..., [hi - 1]. *)
Definition texts (h : SyntaxTree.heap) (lo hi : nat) : list string :=
  take (hi - lo) (drop lo (map SyntaxTree.text h)).

(** The objects of a range only have leaves after themselves and inside
    the range. *)
Definition closed (h : SyntaxTree.heap) (lo hi : nat) : Prop :=
  forall i t, (lo <= i < hi)%nat -> h !! i = Some t ->
    Forall (fun j => (i < j < hi)%nat) (SyntaxTree.leaves t).

(** The leaves [ls] of the object at [c] cover the references between [c]
    and [hi]: walking them yields exactly the texts of that range. *)
Definition filled (h : SyntaxTree.heap) (c hi : nat) (ls : list ref) : Prop :=
  Forall (fun j => (c < j < hi)%nat) ls
  /\ closed h (S c) hi
  /\ forall fuel, (hi - S c <= fuel)%nat ->
       yield_from (emit fuel h) ls = Ok (texts h (S c) hi).

(** The chain of parents from an object up to the root: each object on it
    is the last leaf of its parent, and the parent's earlier leaves cover
    the references in between. *)
Inductive spine (h : SyntaxTree.heap) : ref -> Prop :=
  | spine_root (t : SyntaxTree.t) :
      h !! 0%nat = Some t -> SyntaxTree.parent t = None -> spine h 0%nat
  | spine_step (c p : ref) (t tp : SyntaxTree.t) (ls : list ref) :
      h !! c = Some t -> SyntaxTree.parent t = Some p -> (p < c)%nat ->
      h !! p = Some tp -> SyntaxTree.leaves tp = ls ++ [c] ->
      filled h p c ls -> spine h p -> spine h c.

(** The object at [c] is on the spine and its leaves so far cover the
    references up to [hi]. *)
Definition open_at (h : SyntaxTree.heap) (c hi : nat) : Prop :=
  exists t, h !! c = Some t /\ (c < hi)%nat
            /\ filled h c hi (SyntaxTree.leaves t) /\ spine h c.

(** The shape every heap built by [sqlptree] has: the root at reference 0,
    every other object below a parent that was allocated before it, one
    level deeper, listed among that parent's leaves and, unless the parent
    is the root, indented strictly deeper than it. *)
Definition well_formed (h : SyntaxTree.heap) : Prop :=
  (exists r, h !! 0%nat = Some r /\ SyntaxTree.parent r = None
             /\ SyntaxTree.depth r = 0 /\ SyntaxTree.tokens r = [])
  /\ (forall i t, h !! i = Some t -> i <> 0%nat ->
        exists p tp,
          SyntaxTree.parent t = Some p /\ (p < i)%nat /\ h !! p = Some tp
          /\ SyntaxTree.depth t = SyntaxTree.depth tp + 1 /\ 0 <= SyntaxTree.depth tp
          /\ i ∈ SyntaxTree.leaves tp
          /\ (p <> 0%nat -> SyntaxTree.indent tp < SyntaxTree.indent t))
  /\ (forall p tp j, h !! p = Some tp -> j ∈ SyntaxTree.leaves tp ->
        exists tj, h !! j = Some tj /\ SyntaxTree.parent tj = Some p).

(** The object at [p] with one more leaf, as [add_leaf] rewrites it. *)
Definition with_leaf (tp : SyntaxTree.t) (leaf : ref) : SyntaxTree.t :=
  {| SyntaxTree._depth := SyntaxTree._depth tp;
     SyntaxTree.leaves := SyntaxTree.leaves tp ++ [leaf];
     SyntaxTree.parent := SyntaxTree.parent tp;
     SyntaxTree.node := SyntaxTree.node tp;
     SyntaxTree.is_abstract := SyntaxTree.is_abstract tp |}.

(** The heap after a new object is allocated and hung under [p]. *)
Definition attached (h : SyntaxTree.heap) (p : ref) (tp nw : SyntaxTree.t)
  : SyntaxTree.heap :=
  <[p := with_leaf tp (length h)]> (h ++ [nw]).

(** The lines that get an object: all of them, or in abstract mode the
    ones that keep a token once whitespace is removed. *)
Definition retained (is_abstract : bool) (token_list : list (list Token.t))
  : list (list Token.t) :=
  if is_abstract
  then filter (fun ts => ts <> []) (map SyntaxTree._ignore_token token_list)
  else token_list.

(** The state of the loop of [sqlptree] after the lines [done]: a
    well-formed heap, the cursor on the spine with everything allocated so
    far below it, and one object per retained line, in order, after the
    root. *)
Definition built (is_abstract : bool) (done : list (list Token.t))
    (h : SyntaxTree.heap) (c : ref) : Prop :=
  well_formed h
  /\ open_at h c (length h)
  /\ map SyntaxTree.tokens (drop 1 h) = retained is_abstract done.

(** ** One round of the loop of sqlptree *)

(** The tokens of a line as the loop keeps them. *)
Definition kept_tokens (is_abstract : bool) (tokens : list Token.t) : list Token.t :=
  if is_abstract then SyntaxTree._ignore_token tokens else tokens.

(** The indent the loop computes for a line. *)
Definition line_indent (tokens : list Token.t) : Z :=
  match tokens with
  | head :: _ =>
      if bool_decide (Token.kind head = WHITESPACE) then str_len (Token.word head) else 0
  | [] => 0
  end.

(** The object the loop allocates for a line under the vertex [p]. *)
Definition new_leaf (is_abstract : bool) (p : ref) (tp : SyntaxTree.t) (line_num : Z)
    (tokens : list Token.t) : SyntaxTree.t :=
  {| SyntaxTree._depth := SyntaxTree.depth tp + 1;
     SyntaxTree.leaves := [];
     SyntaxTree.parent := Some p;
     SyntaxTree.node := {| Node._line_num := line_num + 1; Node.tokens := tokens |};
     SyntaxTree.is_abstract := is_abstract |}.

(** The two ways a round of the loop ends: the line is skipped, or an
    object is hung under the vertex the climb stopped at. *)
Inductive grows (is_abstract : bool) (line_num : Z) (tokens : list Token.t)
    (h : SyntaxTree.heap) (c : ref) : SyntaxTree.heap -> ref -> Prop :=
  | grows_skip :
      is_abstract = true -> SyntaxTree._ignore_token tokens = [] ->
      grows is_abstract line_num tokens h c h c
  | grows_attach (p : ref) (tp : SyntaxTree.t) :
      (is_abstract = true -> SyntaxTree._ignore_token tokens <> []) ->
      SyntaxTree.pop_walk (length h) h (line_indent (kept_tokens is_abstract tokens)) c
      = Ok p ->
      h !! p = Some tp ->
      (p = 0%nat
       \/ SyntaxTree.indent tp < line_indent (kept_tokens is_abstract tokens)) ->
      grows is_abstract line_num tokens h c
        (attached h p tp
           (new_leaf is_abstract p tp line_num (kept_tokens is_abstract tokens)))
        (length h).

(** Every object but the root carries the 1-based number of the line its
    tokens were taken from, and the numbers grow with the references. *)
Definition numbered (is_abstract : bool) (done : list (list Token.t))
    (h : SyntaxTree.heap) : Prop :=
  (forall i t, h !! i = Some t ->
     SyntaxTree.is_abstract t = is_abstract
     /\ (i = 0%nat -> SyntaxTree.line_num t = 0)
     /\ (i <> 0%nat ->
           1 <= SyntaxTree.line_num t <= len done
           /\ exists tokens,
                done !! Z.to_nat (SyntaxTree.line_num t - 1) = Some tokens
                /\ SyntaxTree.tokens t = kept_tokens is_abstract tokens))
  /\ (forall i j ti tj, h !! i = Some ti -> h !! j = Some tj -> (i < j)%nat ->
        SyntaxTree.line_num ti < SyntaxTree.line_num tj).

(** Between an object and its parent no object is indented less than the
    object itself; the cursor is the object allocated last. *)
Definition nearest (h : SyntaxTree.heap) (c : ref) : Prop :=
  S c = length h
  /\ forall i t p, h !! i = Some t -> SyntaxTree.parent t = Some p ->
       forall j tj, (p < j < i)%nat -> h !! j = Some tj ->
         SyntaxTree.indent t <= SyntaxTree.indent tj.

(** The leaves of every object are listed in the order of their
    references. *)
Definition ordered (h : SyntaxTree.heap) : Prop :=
  forall p tp a b x y,
    h !! p = Some tp ->
    SyntaxTree.leaves tp !! a = Some x -> SyntaxTree.leaves tp !! b = Some y ->
    (a < b)%nat -> (x < y)%nat.

(** A line has content when one of its tokens is not whitespace. *)
Definition has_content (tokens : list Token.t) : Prop :=
  Exists (fun tok => Token.kind tok <> WHITESPACE) tokens.

#[global] Instance has_content_dec (tokens : list Token.t) : Decision (has_content tokens).
Proof. unfold has_content. apply _. Defined.

(** ** Trimmed token lists *)

(** A list without its longest leading run of tokens of the kinds [K], and
    without its longest trailing one. *)
Fixpoint ltrim (K : list Kind) (tokens : list Token.t) : list Token.t :=
  match tokens with
  | [] => []
  | tok :: rest => if decide (Token.kind tok ∈ K) then ltrim K rest else tokens
  end.

Definition rtrim (K : list Kind) (tokens : list Token.t) : list Token.t :=
  reverse (ltrim K (reverse tokens)).

(** ** The location prefix of a message *)

(** The pieces of the location prefix of every message. *)
Definition location_pieces : list piece :=
  [Lit (ascii_of_nat 40); Lit (ascii_of_nat 76); Field "line"; Lit (ascii_of_nat 44);
   Lit (ascii_of_nat 32); Field "pos"; Lit (ascii_of_nat 41); Lit (ascii_of_nat 58);
   Lit (ascii_of_nat 32)].

(** ** A tokenizer to run the builder with *)

(** Modelled from the spec: a tokenizer as coarse as the tokenizer contract
    allows, to run the tree builder on concrete text.  It splits the text
    at newlines and each line into its leading blanks (one WHITESPACE token,
    when there are any) and the rest (one IDENTIFIER token, when there is
    any); the tree builder reads nothing of a line but its first token. *)
Fixpoint leading_blanks (s : string) : string * string :=
  match s with
  | EmptyString => (EmptyString, EmptyString)
  | String c rest =>
      if Ascii.eqb c (ascii_of_nat 32)
      then let (blanks, tail) := leading_blanks rest in (String c blanks, tail)
      else (EmptyString, s)
  end.

Definition coarse_tokens (line : string) : list Token.t :=
  let (blanks, rest) := leading_blanks line in
  (if String.eqb blanks "" then [] else [Token.mk blanks WHITESPACE])
  ++ (if String.eqb rest "" then [] else [Token.mk rest IDENTIFIER]).

Definition coarse_parse (sql : string) : list (list Token.t) :=
  map coarse_tokens (split_lines sql).

Definition carriage_return : string := String (ascii_of_nat 13) "".

(** A line without the carriage return at its end, when it has one. *)
Fixpoint strip_cr (line : string) : string :=
  match line with
  | EmptyString => ""
  | String c rest =>
      if Ascii.eqb c (ascii_of_nat 13) && String.eqb rest "" then ""
      else String c (strip_cr rest)
  end.

(** The same tokenizer for texts of either line ending: a line ends at a
    line feed, and a carriage return before the line feed is part of the
    line ending, not of the line. *)
Definition crlf_parse (sql : string) : list (list Token.t) :=
  map coarse_tokens (map strip_cr (split_lines sql)).

(** ** Sample inputs *)

(** Four lines, nested two deep, with a blank line at the end. *)
Definition sample_sql : string :=
  "select" +:+ newline +:+ "  a," +:+ newline +:+ "    b" +:+ newline
  +:+ "from t" +:+ newline.

(** Two lines, the first ended by a carriage return and a line feed. *)
Definition crlf_sql : string :=
  "select" +:+ carriage_return +:+ newline +:+ "  a".

(** A tree object to hang example violations on: line 3, one keyword. *)
Definition sample_tree : SyntaxTree.t :=
  {| SyntaxTree._depth := 1; SyntaxTree.leaves := []; SyntaxTree.parent := Some 0%nat;
     SyntaxTree.node := Node.mk 3 [Token.mk "select" KEYWORD];
     SyntaxTree.is_abstract := false |}.

(** Two findings on that line, with every parameter their templates name. *)
Definition sample_indent : Violation.t :=
  Violation.__init__ sample_tree 1 Code.INDENT_STEPS
    (<["expected" := VInt 4]> (<["actual" := VInt 6]> ∅)).

Definition sample_keyword : Violation.t :=
  Violation.__init__ sample_tree 1 Code.KEYWORD_UPPER
    (<["style" := VStr "upper-all"]>
       (<["actual" := VStr "select"]> (<["expected" := VStr "SELECT"]> ∅))).

(** An indentation finding built without the parameters of its template. *)
Definition sample_unrenderable : Violation.t :=
  Violation.__init__ sample_tree 5 Code.INDENT_STEPS ∅.

(** ** Settings *)

(** The four getter calls of [_load] return [a], [b], [c] and [d]. *)
Definition provides (config_parser : ConfigParser.t) (a : Z) (b c : string) (d : Z)
  : Prop :=
  ConfigParser.getint config_parser ConfigLoader.SECTION "max-line-length" = Returns a
  /\ ConfigParser.get config_parser ConfigLoader.SECTION "comma-position" = Returns b
  /\ ConfigParser.get config_parser ConfigLoader.SECTION "keyword-style" = Returns c
  /\ ConfigParser.getint config_parser ConfigLoader.SECTION "indent-steps" = Returns d.

(** A dictionary after the four settings were stored in it. *)
Definition with_settings (a : Z) (b c : string) (d : Z) (values : gmap string setting)
  : gmap string setting :=
  <["indent-steps" := SInt d]>
    (<["keyword-style" := SStr c]>
       (<["comma-position" := SStr b]> (<["max-line-length" := SInt a]> values))).

(** ** Sample configuration files *)

(** The parser after it read a file with one section, whose options are
    integers ([ints]) or texts that are no number and no boolean
    ([strs]). *)
Definition sample_config (section : string) (ints : list (string * Z))
    (strs : list (string * string)) : ConfigParser.t :=
  let option_of {A : Type} (convert : Z -> attempt A) (text : string -> attempt A)
        (s o : string) : attempt A :=
    if bool_decide (s = section) then
      match (list_to_map ints : gmap string Z) !! o with
      | Some z => convert z
      | None =>
          match (list_to_map strs : gmap string string) !! o with
          | Some t => text t
          | None => Raises (NoOptionError o s)
          end
      end
    else Raises (NoSectionError s) in
  {| ConfigParser.getint := option_of Returns (fun _ => Raises (Builtin ValueError));
     ConfigParser.getfloat :=
       option_of (fun z => Returns (PrimFloat.of_uint63 (Uint63.of_Z z)))
                 (fun _ => Raises (Builtin ValueError));
     ConfigParser.getboolean :=
       option_of (fun z => if bool_decide (z = 1) then Returns true
                           else if bool_decide (z = 0) then Returns false
                           else Raises (Builtin ValueError))
                 (fun _ => Raises (Builtin ValueError));
     ConfigParser.get := option_of (fun z => Returns (pretty z)) Returns |}.

(** The parser that read nothing: it has no section. *)
Definition empty_config : ConfigParser.t :=
  {| ConfigParser.getint := fun s _ => Raises (NoSectionError s);
     ConfigParser.getfloat := fun s _ => Raises (NoSectionError s);
     ConfigParser.getboolean := fun s _ => Raises (NoSectionError s);
     ConfigParser.get := fun s _ => Raises (NoSectionError s) |}.

Definition sample_default : ConfigParser.t :=
  sample_config "sqlint" [("max-line-length", 128); ("indent-steps", 4)]
    [("comma-position", "head"); ("keyword-style", "lower")].

(** A user's file with a line length below the floor and a comma position
    that is not one of the two. *)
Definition sample_user : ConfigParser.t :=
  sample_config "sqlint" [("max-line-length", 20); ("indent-steps", 2)]
    [("comma-position", "tail"); ("keyword-style", "upper-all")].

(** A user's file that sets two of the four options. *)
Definition sample_partial : ConfigParser.t :=
  sample_config "sqlint" [("max-line-length", 100)] [("comma-position", "end")].

(** A file system with these three files. *)
Definition sample_exists (path : string) : bool :=
  bool_decide (path ∈ ["default.ini"; "user.ini"; "partial.ini"]).

Definition sample_read (path : string) : attempt ConfigParser.t :=
  Returns (if bool_decide (path = "default.ini") then sample_default
           else if bool_decide (path = "user.ini") then sample_user
           else if bool_decide (path = "partial.ini") then sample_partial
           else empty_config).

(** The settings object built for the user's file. *)
Definition sample_settings : Config.t :=
  {| Config.loader :=
       {| ConfigLoader.values := with_settings 20 "tail" "upper-all" 2 ∅;
          ConfigLoader.user_config_file := Some "user.ini" |} |}.

(** ** Tactics *)

(** Case analysis along the comparisons of a constructor. *)
Ltac dispatch :=
  repeat match goal with
         | H : ?k !! ?key = _ |- context [?k !! ?key] => rewrite H
         | |- context [bool_decide ?P] => case_bool_decide
         | |- _ => progress cbn [bind]
         end;
  try congruence; try reflexivity.

(** * Properties *)

(** ** Lists, slices and lines *)

Lemma len_nonneg {A : Type} (l : list A) : 0 <= len l.
Proof. unfold len. lia. Qed.

Lemma clamp_index_inside (n i : Z) : 0 <= i <= n -> clamp_index n i = i.
Proof.
  intros Hi. unfold clamp_index.
  destruct (Z.ltb_spec i 0) as [Hneg | Hpos]; lia.
Qed.

Lemma slice_prefix {A : Type} (l : list A) (stop : Z) :
  0 <= stop <= len l -> slice l 0 stop = take (Z.to_nat stop) l.
Proof.
  intros Hstop. unfold slice.
  rewrite !clamp_index_inside by (pose proof (len_nonneg l); lia).
  rewrite Z.sub_0_r. reflexivity.
Qed.

Lemma slice_from_suffix {A : Type} (l : list A) (start : Z) :
  0 <= start <= len l -> slice_from l start = drop (Z.to_nat start) l.
Proof.
  intros Hstart. unfold slice_from. rewrite clamp_index_inside by lia. reflexivity.
Qed.

Lemma sum_app (xs ys : list Z) : sum (xs ++ ys) = sum xs + sum ys.
Proof.
  unfold sum. induction xs as [| x xs IH]; simpl; [reflexivity | rewrite IH; lia].
Qed.

Lemma length_string_app (a b : string) :
  String.length (a +:+ b) = (String.length a + String.length b)%nat.
Proof.
  induction a as [| c a IH]; simpl; [reflexivity | rewrite IH; reflexivity].
Qed.

Lemma str_len_append (a b : string) : str_len (a +:+ b) = str_len a + str_len b.
Proof. unfold str_len. rewrite length_string_app. lia. Qed.

Lemma str_len_join_empty (parts : list string) :
  str_len (join "" parts) = sum (map str_len parts).
Proof.
  induction parts as [| p rest IH]; [reflexivity |].
  destruct rest as [| q rest].
  - cbn [join map]. unfold sum. cbn [foldr]. lia.
  - change (join "" (p :: q :: rest)) with (p +:+ "" +:+ join "" (q :: rest)).
    rewrite !str_len_append, IH. unfold sum. cbn [map foldr].
    change (str_len "") with 0. lia.
Qed.

(** Splitting at newlines loses nothing: joining the lines gives the text
    back. *)
Lemma split_on_nonempty (c : ascii) (s : string) : split_on c s <> [].
Proof.
  destruct s as [| a rest]; simpl; [discriminate |].
  destruct (Ascii.eqb a c); [discriminate |].
  destruct (split_on c rest); discriminate.
Qed.

Lemma join_split_on (c : ascii) (s : string) :
  join (String c "") (split_on c s) = s.
Proof.
  induction s as [| a rest IH]; [reflexivity |].
  simpl split_on. destruct (Ascii.eqb_spec a c) as [-> | Hne].
  - pose proof (split_on_nonempty c rest) as Hnil.
    destruct (split_on c rest) as [| p ps] eqn:Hsplit; [contradiction |].
    change (join (String c "") ("" :: p :: ps))
      with ("" +:+ String c "" +:+ join (String c "") (p :: ps)).
    rewrite IH. reflexivity.
  - pose proof (split_on_nonempty c rest) as Hnil.
    destruct (split_on c rest) as [| p ps] eqn:Hsplit; [contradiction |].
    destruct ps as [| q ps].
    + simpl in *. rewrite IH. reflexivity.
    + change (join (String c "") (String a p :: q :: ps))
        with (String a (p +:+ String c "" +:+ join (String c "") (q :: ps))).
      change (join (String c "") (p :: q :: ps))
        with (p +:+ String c "" +:+ join (String c "") (q :: ps)) in IH.
      rewrite IH. reflexivity.
Qed.

Lemma join_split_lines (s : string) : join_lines (split_lines s) = s.
Proof. apply join_split_on. Qed.

(** ** Node *)

Lemma Node_indent_nonneg (self : Node.t) : 0 <= Node.indent self.
Proof.
  unfold Node.indent. destruct (Node.tokens self) as [| first rest]; [lia |].
  case_bool_decide; [unfold Token.__len__, str_len |]; lia.
Qed.

(** C7.  [Node.indent] is the length of the first token's text when there is
    a first token and its kind is WHITESPACE, and 0 otherwise: on a blank
    line (no token) and on a line whose first token is a comment or of any
    other kind.  [SyntaxTree.indent] is its node's indent. *)
Theorem Node_indent_first_whitespace (self : Node.t) :
  Node.indent self =
    match Node.tokens self !! 0%nat with
    | Some first =>
        if decide (Token.kind first = WHITESPACE) then str_len (Token.word first)
        else 0
    | None => 0
    end
  /\ (Node.tokens self = [] -> Node.indent self = 0)
  /\ (forall first, Node.tokens self !! 0%nat = Some first ->
        Token.kind first <> WHITESPACE -> Node.indent self = 0)
  /\ (forall tr, SyntaxTree.node tr = self -> SyntaxTree.indent tr = Node.indent self).
Proof.
  unfold Node.indent. repeat split.
  - destruct (Node.tokens self) as [| first rest]; [reflexivity |].
    cbn [lookup list_lookup]. case_bool_decide; case_decide; try contradiction; reflexivity.
  - intros ->. reflexivity.
  - intros first Hfirst Hkind.
    destruct (Node.tokens self) as [| first' rest]; [reflexivity |].
    cbn in Hfirst. injection Hfirst as ->.
    case_bool_decide; [contradiction | reflexivity].
  - intros tr <-. reflexivity.
Qed.

(** C9.  For an index between 0 and the number of tokens, [get_position]
    is 1 plus the summed lengths of the tokens before that index, which is
    1 plus the length of the text they make up: a 1-based column.  The
    tree's [get_position] is its node's. *)
Theorem get_position_column (self : Node.t) (i : Z) :
  0 <= i <= Node.__len__ self ->
  let before := take (Z.to_nat i) (Node.tokens self) in
  Node.get_position self i = 1 + sum (map (fun tok => str_len (Token.word tok)) before)
  /\ Node.get_position self i = 1 + str_len (join "" (map Token.word before))
  /\ (forall tr, SyntaxTree.node tr = self ->
        SyntaxTree.get_position tr i = Node.get_position self i).
Proof.
  intros Hi before. unfold Node.__len__ in Hi.
  assert (Hpos : Node.get_position self i
                 = 1 + sum (map (fun tok => str_len (Token.word tok)) before)).
  { unfold Node.get_position. rewrite Z.max_l by lia.
    rewrite slice_prefix by lia. fold before.
    rewrite Z.add_comm. reflexivity. }
  repeat split.
  - exact Hpos.
  - rewrite Hpos, str_len_join_empty, map_map. reflexivity.
  - intros tr <-. reflexivity.
Qed.

Lemma get_position_column_witness :
  let self := Node.mk 3 [Token.mk "  " WHITESPACE; Token.mk "select" KEYWORD;
                         Token.mk " " WHITESPACE; Token.mk "a" IDENTIFIER] in
  Node.get_position self 2 = 9 /\ Node.get_position self 0 = 1.
Proof.
  intros self. split.
  - destruct (get_position_column self 2) as [H _]; [vm_compute; split; discriminate |].
    rewrite H. reflexivity.
  - destruct (get_position_column self 0) as [H _]; [vm_compute; split; discriminate |].
    rewrite H. reflexivity.
Defined.

Lemma ltrip_cut_run (args : list Kind) (tokens : list Token.t) (cut : Z) :
  exists run rest,
    tokens = run ++ rest
    /\ Forall (fun tok => Token.kind tok ∈ args) run
    /\ (forall tok, head rest = Some tok -> Token.kind tok ∉ args)
    /\ Node.ltrip_cut args tokens cut = cut + len run.
Proof.
  revert cut. induction tokens as [| tok tokens IH]; intros cut.
  - exists [], []. repeat split; [constructor | discriminate | cbn; unfold len; simpl; lia].
  - cbn [Node.ltrip_cut]. case_bool_decide as Hin.
    + destruct (IH (cut + 1)) as (run & rest & -> & Hrun & Hrest & Hcut).
      exists (tok :: run), rest. repeat split; [constructor; assumption | assumption |].
      rewrite Hcut. unfold len. cbn [length]. lia.
    + exists [], (tok :: tokens). repeat split; [constructor | | unfold len; simpl; lia].
      intros tok' [= <-]. exact Hin.
Qed.

Lemma rtrip_cut_run (args : list Kind) (reversed : list Token.t) (cut : Z) :
  exists run rest,
    reversed = run ++ rest
    /\ Forall (fun tok => Token.kind tok ∈ args) run
    /\ (forall tok, head rest = Some tok -> Token.kind tok ∉ args)
    /\ Node.rtrip_cut args reversed cut = cut - len run.
Proof.
  revert cut. induction reversed as [| tok tokens IH]; intros cut.
  - exists [], []. repeat split; [constructor | discriminate | cbn; unfold len; simpl; lia].
  - cbn [Node.rtrip_cut]. case_bool_decide as Hin.
    + destruct (IH (cut - 1)) as (run & rest & -> & Hrun & Hrest & Hcut).
      exists (tok :: run), rest. repeat split; [constructor; assumption | assumption |].
      rewrite Hcut. unfold len. cbn [length]. lia.
    + exists [], (tok :: tokens). repeat split; [constructor | | unfold len; simpl; lia].
      intros tok' [= <-]. exact Hin.
Qed.

Lemma Node_new_ok (s : Node.store) (line_num : Z) (tokens : list Token.t) :
  0 <= line_num ->
  Node.new s line_num (Some tokens) = Ok (s ++ [Node.mk line_num tokens], length s).
Proof.
  intros Hline. unfold Node.new, Node.__init__, Node.line_num_setter.
  destruct (Z.ltb_spec line_num 0); [lia | reflexivity].
Qed.

Lemma ltrip_kind_run (s : Node.store) (self : ref) (me : Node.t) (K : list Kind) :
  s !! self = Some me -> 0 <= Node.line_num me ->
  exists run rest,
    Node.tokens me = run ++ rest
    /\ Forall (fun tok => Token.kind tok ∈ K) run
    /\ (forall tok, head rest = Some tok -> Token.kind tok ∉ K)
    /\ Node.ltrip_kind s self K
       = Ok (s ++ [Node.mk (Node.line_num me) rest], length s).
Proof.
  intros Hself Hline.
  destruct (ltrip_cut_run K (Node.tokens me) (-1)) as (run & rest & Htok & Hrun & Hrest & Hcut).
  exists run, rest. repeat split; try assumption.
  unfold Node.ltrip_kind, deref. rewrite Hself. cbn [bind].
  rewrite Hcut, slice_from_suffix.
  - replace (Z.to_nat (-1 + len run + 1)) with (length run) by (unfold len; lia).
    rewrite Htok, drop_app_length. apply Node_new_ok, Hline.
  - rewrite Htok. unfold len. rewrite length_app. lia.
Qed.

Lemma rtrip_kind_run (s : Node.store) (self : ref) (me : Node.t) (K : list Kind) :
  s !! self = Some me -> 0 <= Node.line_num me ->
  exists rest run,
    Node.tokens me = rest ++ run
    /\ Forall (fun tok => Token.kind tok ∈ K) run
    /\ (forall tok, last rest = Some tok -> Token.kind tok ∉ K)
    /\ Node.rtrip_kind s self K
       = Ok (s ++ [Node.mk (Node.line_num me) rest], length s).
Proof.
  intros Hself Hline.
  destruct (rtrip_cut_run K (reverse (Node.tokens me)) (len (Node.tokens me)))
    as (run & rest & Hrev & Hrun & Hrest & Hcut).
  assert (Htok : Node.tokens me = reverse rest ++ reverse run).
  { rewrite <- reverse_app, <- Hrev, reverse_involutive. reflexivity. }
  exists (reverse rest), (reverse run). repeat split.
  - exact Htok.
  - apply Forall_reverse. exact Hrun.
  - intros tok Hlast. apply Hrest. rewrite <- Hlast, last_reverse. reflexivity.
  - unfold Node.rtrip_kind, deref. rewrite Hself. cbn [bind].
    rewrite Hcut, slice_prefix.
    + replace (Z.to_nat (len (Node.tokens me) - len run)) with (length (reverse rest)).
      * rewrite Htok at 1. rewrite take_app_length. apply Node_new_ok, Hline.
      * rewrite Htok. unfold len. rewrite length_app, !length_reverse. lia.
    + unfold len. rewrite Htok, length_app, !length_reverse. lia.
Qed.

(** C8.  On a live Node object whose line number passed the constructor's
    check, [ltrip_kind] allocates a new Node with the same line number and
    the tokens left after the longest leading run of tokens whose kind is in
    [K]; [rtrip_kind] does the same at the tail; [trip_kind] trims the head
    and then the tail of what is left.  Every object that was in the store,
    the trimmed one included, is exactly as before, and the result is a
    fresh reference. *)
Theorem trip_kind_new_node (s : Node.store) (self : ref) (me : Node.t) (K : list Kind) :
  s !! self = Some me -> 0 <= Node.line_num me ->
  (exists run rest,
      Node.tokens me = run ++ rest
      /\ Forall (fun tok => Token.kind tok ∈ K) run
      /\ (forall tok, head rest = Some tok -> Token.kind tok ∉ K)
      /\ Node.ltrip_kind s self K
         = Ok (s ++ [Node.mk (Node.line_num me) rest], length s))
  /\ (exists rest run,
      Node.tokens me = rest ++ run
      /\ Forall (fun tok => Token.kind tok ∈ K) run
      /\ (forall tok, last rest = Some tok -> Token.kind tok ∉ K)
      /\ Node.rtrip_kind s self K
         = Ok (s ++ [Node.mk (Node.line_num me) rest], length s))
  /\ (exists lrun mid rrun,
      Node.tokens me = lrun ++ mid ++ rrun
      /\ Forall (fun tok => Token.kind tok ∈ K) lrun
      /\ Forall (fun tok => Token.kind tok ∈ K) rrun
      /\ (forall tok, head (mid ++ rrun) = Some tok -> Token.kind tok ∉ K)
      /\ (forall tok, last mid = Some tok -> Token.kind tok ∉ K)
      /\ Node.trip_kind s self K
         = Ok (s ++ [Node.mk (Node.line_num me) (mid ++ rrun);
                     Node.mk (Node.line_num me) mid], S (length s)))
  /\ (forall s' new,
        Node.ltrip_kind s self K = Ok (s', new)
        \/ Node.rtrip_kind s self K = Ok (s', new)
        \/ Node.trip_kind s self K = Ok (s', new) ->
        s' !! self = Some me /\ new <> self
        /\ forall i obj, s !! i = Some obj -> s' !! i = Some obj).
Proof.
  intros Hself Hline.
  destruct (ltrip_kind_run s self me K Hself Hline)
    as (lrun & lrest & Hl & Hlrun & Hlrest & Hltrip).
  destruct (rtrip_kind_run s self me K Hself Hline)
    as (rrest & rrun & Hr & Hrrun & Hrrest & Hrtrip).
  set (trimmed := Node.mk (Node.line_num me) lrest).
  assert (Hnew : (s ++ [trimmed]) !! length s = Some trimmed).
  { rewrite lookup_app_r by lia. rewrite Nat.sub_diag. reflexivity. }
  destruct (rtrip_kind_run (s ++ [trimmed]) (length s) trimmed K Hnew Hline)
    as (mid & mrun & Hm & Hmrun & Hmid & Hmtrip).
  change (Node.tokens trimmed) with lrest in Hm.
  change (Node.line_num trimmed) with (Node.line_num me) in Hmtrip.
  subst trimmed.
  assert (Htrip : Node.trip_kind s self K
                  = Ok (s ++ [Node.mk (Node.line_num me) (mid ++ mrun);
                              Node.mk (Node.line_num me) mid], S (length s))).
  { unfold Node.trip_kind. rewrite Hltrip. cbn [bind]. rewrite Hmtrip.
    rewrite length_app, <- app_assoc. cbn [length app].
    rewrite Nat.add_1_r, Hm. reflexivity. }
  assert (Hlt : (self < length s)%nat) by (eapply lookup_lt_Some; exact Hself).
  split; [| split; [| split]].
  - exists lrun, lrest. repeat split; assumption.
  - exists rrest, rrun. repeat split; assumption.
  - exists lrun, mid, mrun. repeat split; try assumption.
    + rewrite <- Hm. exact Hl.
    + rewrite <- Hm. exact Hlrest.
  - intros s' new Hop.
    assert (Hshape : exists extra, s' = s ++ extra /\ (length s <= new)%nat).
    { destruct Hop as [Hop | [Hop | Hop]].
      - rewrite Hltrip in Hop. injection Hop as <- <-. eexists. split; [reflexivity | lia].
      - rewrite Hrtrip in Hop. injection Hop as <- <-. eexists. split; [reflexivity | lia].
      - rewrite Htrip in Hop. injection Hop as <- <-. eexists. split; [reflexivity | lia]. }
    destruct Hshape as (extra & -> & Hfresh).
    split; [| split].
    + rewrite lookup_app_l by exact Hlt. exact Hself.
    + lia.
    + intros i obj Hi. rewrite lookup_app_l by (eapply lookup_lt_Some; exact Hi). exact Hi.
Qed.

Lemma trip_kind_new_node_witness :
  let space := Token.mk " " WHITESPACE in
  let a := Token.mk "a" IDENTIFIER in
  let note := Token.mk "-- x" COMMENT in
  let me := Node.mk 1 [space; space; a; space; a; note; space] in
  exists s' new,
    Node.trip_kind [me] 0%nat [WHITESPACE; COMMENT] = Ok (s', new)
    /\ s' !! 0%nat = Some me /\ new <> 0%nat.
Proof.
  intros space a note me.
  destruct (trip_kind_new_node [me] 0%nat me [WHITESPACE; COMMENT] eq_refl
              ltac:(vm_compute; discriminate))
    as (_ & _ & (lrun & mid & rrun & _ & _ & _ & _ & _ & Htrip) & Hframe).
  eexists _, _. split; [exact Htrip |].
  destruct (Hframe _ _ (or_intror (or_intror Htrip))) as (Hsame & Hfresh & _).
  split; assumption.
Defined.

(** The trims on a line with blanks at both ends and a trailing comment. *)
Example ltrip_kind_sample :
  Node.ltrip_kind
    [Node.mk 2 [Token.mk "  " WHITESPACE; Token.mk "a" IDENTIFIER; Token.mk " " WHITESPACE]]
    0%nat [WHITESPACE]
  = Ok ([Node.mk 2 [Token.mk "  " WHITESPACE; Token.mk "a" IDENTIFIER; Token.mk " " WHITESPACE];
         Node.mk 2 [Token.mk "a" IDENTIFIER; Token.mk " " WHITESPACE]], 1%nat).
Proof. reflexivity. Qed.

Example rtrip_kind_sample :
  Node.rtrip_kind
    [Node.mk 2 [Token.mk "  " WHITESPACE; Token.mk "a" IDENTIFIER; Token.mk " " WHITESPACE]]
    0%nat [WHITESPACE]
  = Ok ([Node.mk 2 [Token.mk "  " WHITESPACE; Token.mk "a" IDENTIFIER; Token.mk " " WHITESPACE];
         Node.mk 2 [Token.mk "  " WHITESPACE; Token.mk "a" IDENTIFIER]], 1%nat).
Proof. reflexivity. Qed.

(** Where a trim leaves its object alone, [append] changes the list the
    Node holds, and with it every Node that holds the same list. *)
Example append_sample :
  let a := Token.mk "a" IDENTIFIER in
  let comma := Token.mk "," COMMA in
  let m := {| Node.nodes := [Node.mk_object 2 0; Node.mk_object 3 0];
              Node.lists := [[a]] |} in
  exists m',
    Node.append m 0%nat comma = Ok m'
    /\ Node.load m' 0%nat = Ok (Node.mk 2 [a; comma])
    /\ Node.load m' 1%nat = Ok (Node.mk 3 [a; comma]).
Proof. eexists. repeat split; reflexivity. Qed.

(** ** Construction checks *)

(** C4.  [Node] checks its line number when it is built, and so does
    [SyntaxTree] (it builds a Node); the depth of a [SyntaxTree] is checked
    by the [depth] setter only, which the constructor does not go through:
    it stores whatever depth it is given, [-1] included. *)
Theorem SyntaxTree_init_keeps_negative_depth :
  (forall line_num tokens, line_num < 0 ->
     Node.__init__ line_num tokens = Raise ValueError)
  /\ (forall depth line_num tokens parent is_abstract, line_num < 0 ->
        SyntaxTree.__init__ depth line_num tokens parent is_abstract = Raise ValueError)
  /\ (forall self value, value < 0 -> SyntaxTree.depth_setter self value = Raise ValueError)
  /\ (forall depth line_num tokens parent is_abstract, 0 <= line_num ->
        exists tr,
          SyntaxTree.__init__ depth line_num tokens parent is_abstract = Ok tr
          /\ SyntaxTree.depth tr = depth)
  /\ (exists tr,
        SyntaxTree.__init__ (-1) 0 None None false = Ok tr /\ SyntaxTree.depth tr = -1).
Proof.
  assert (Hnode : forall line_num tokens, line_num < 0 ->
                    Node.__init__ line_num tokens = Raise ValueError).
  { intros line_num tokens Hneg. unfold Node.__init__, Node.line_num_setter.
    destruct (Z.ltb_spec line_num 0); [reflexivity | lia]. }
  repeat split.
  - exact Hnode.
  - intros depth line_num tokens parent is_abstract Hneg.
    unfold SyntaxTree.__init__. rewrite Hnode by exact Hneg. reflexivity.
  - intros self value Hneg. unfold SyntaxTree.depth_setter.
    destruct (Z.ltb_spec value 0); [reflexivity | lia].
  - intros depth line_num tokens parent is_abstract Hline.
    unfold SyntaxTree.__init__, Node.__init__, Node.line_num_setter.
    destruct (Z.ltb_spec line_num 0); [lia |].
    eexists. split; reflexivity.
  - eexists. split; reflexivity.
Qed.

(** ** Rendering a message *)

Lemma render_ok (pieces : list piece) (kwargs : gmap string value) :
  (forall name, name ∈ fields pieces -> is_Some (kwargs !! name)) ->
  exists s, render pieces kwargs = Ok s.
Proof.
  induction pieces as [| [c | name] rest IH]; intros Hall.
  - exists EmptyString. reflexivity.
  - destruct IH as [tail Htail]; [exact Hall |].
    exists (String c tail). cbn [render]. rewrite Htail. reflexivity.
  - destruct (Hall name) as [v Hv]; [left |].
    destruct IH as [tail Htail].
    { intros other Hother. apply Hall. right. exact Hother. }
    exists (str v +:+ tail). cbn [render]. rewrite Hv, Htail. reflexivity.
Qed.

Lemma render_missing (pieces : list piece) (kwargs : gmap string value) (name : string) :
  name ∈ fields pieces -> kwargs !! name = None ->
  exists missing,
    missing ∈ fields pieces /\ kwargs !! missing = None
    /\ render pieces kwargs = Raise (KeyError missing).
Proof.
  induction pieces as [| [c | first] rest IH]; intros Hin Hnone.
  - inversion Hin.
  - destruct (IH Hin Hnone) as (missing & Hm & Hmnone & Hrender).
    exists missing. repeat split; try assumption. cbn [render]. rewrite Hrender. reflexivity.
  - destruct (kwargs !! first) as [v |] eqn:Hfirst.
    + assert (Hrest : name ∈ fields rest).
      { apply elem_of_cons in Hin as [-> | Hin]; [congruence | exact Hin]. }
      destruct (IH Hrest Hnone) as (missing & Hm & Hmnone & Hrender).
      exists missing. repeat split; [right; exact Hm | exact Hmnone |].
      cbn [render]. rewrite Hfirst, Hrender. reflexivity.
    + exists first. repeat split; [left | exact Hfirst |].
      cbn [render]. rewrite Hfirst. reflexivity.
Qed.

(** Every template of the catalog, behind the location prefix, is a
    well-formed format string, and names neither [line] nor [pos]. *)
Lemma template_parses (c : Code.t) :
  exists pieces,
    parse_format ("(L{line}, {pos}): " +:+ Code.template c) None = Ok pieces
    /\ fields pieces = "line" :: "pos" :: field_names (Code.template c).
Proof. destruct c; eexists; split; vm_compute; reflexivity. Qed.

Lemma template_fields (c : Code.t) (name : string) :
  name ∈ field_names (Code.template c) ->
  name ∈ ["expected"; "actual"; "target"].
Proof.
  destruct c; vm_compute field_names; intros Hin;
    repeat (apply elem_of_cons in Hin as [-> | Hin]); try (inversion Hin; fail);
    auto using list_elem_of_here, list_elem_of_further.
Qed.

Lemma get_message_ok_iff (v : Violation.t) :
  (exists s, Violation.get_message v = Ok s)
  <-> Violation.params v !! "line" = None
      /\ Violation.params v !! "pos" = None
      /\ forall name, name ∈ field_names (Code.template (Violation.code v)) ->
                      is_Some (Violation.params v !! name).
Proof.
  unfold Violation.get_message.
  destruct (template_parses (Violation.code v)) as (pieces & Hparse & Hfields).
  case_bool_decide as Hclash.
  - split; [intros [s Hs]; discriminate |].
    intros (Hline & Hpos & _). rewrite Hline, Hpos in Hclash.
    destruct Hclash as [[x Hx] | [x Hx]]; discriminate.
  - assert (Hline : Violation.params v !! "line" = None).
    { destruct (Violation.params v !! "line") eqn:E; [| reflexivity].
      exfalso. apply Hclash. left. eauto. }
    assert (Hpos : Violation.params v !! "pos" = None).
    { destruct (Violation.params v !! "pos") eqn:E; [| reflexivity].
      exfalso. apply Hclash. right. eauto. }
    unfold format. rewrite Hparse. cbn [bind].
    split.
    + intros [s Hs]. repeat split; try assumption.
      intros name Hname.
      destruct (Violation.params v !! name) as [x |] eqn:Hx; [eauto |].
      exfalso.
      assert (Hne : name <> "line" /\ name <> "pos").
      { apply template_fields in Hname.
        repeat (apply elem_of_cons in Hname as [-> | Hname]);
          [split; discriminate .. | inversion Hname]. }
      destruct Hne as [Hnl Hnp].
      destruct (render_missing pieces
                  (<["line" := VInt (Node.line_num (SyntaxTree.node (Violation.tree v)))]>
                     (<["pos" := VInt (Violation.pos v)]> (Violation.params v))) name)
        as (missing & _ & _ & Hraise).
      * rewrite Hfields. right. right. exact Hname.
      * rewrite !lookup_insert_ne by congruence. exact Hx.
      * rewrite Hraise in Hs. discriminate.
    + intros (_ & _ & Hall). apply render_ok. intros name Hname.
      rewrite Hfields in Hname.
      apply elem_of_cons in Hname as [-> | Hname].
      { rewrite lookup_insert_eq. eauto. }
      apply elem_of_cons in Hname as [-> | Hname].
      { rewrite lookup_insert_ne by discriminate. rewrite lookup_insert_eq. eauto. }
      destruct (Hall name Hname) as [x Hx].
      destruct (decide (name = "line")) as [-> | Hnl]; [rewrite lookup_insert_eq; eauto |].
      rewrite lookup_insert_ne by congruence.
      destruct (decide (name = "pos")) as [-> | Hnp]; [rewrite lookup_insert_eq; eauto |].
      rewrite lookup_insert_ne by congruence. eauto.
Qed.

Lemma get_message_missing (v : Violation.t) (name : string) :
  Violation.params v !! "line" = None -> Violation.params v !! "pos" = None ->
  name ∈ field_names (Code.template (Violation.code v)) ->
  Violation.params v !! name = None ->
  exists missing,
    missing ∈ field_names (Code.template (Violation.code v))
    /\ Violation.params v !! missing = None
    /\ Violation.get_message v = Raise (KeyError missing).
Proof.
  intros Hline Hpos Hname Hnone. unfold Violation.get_message.
  destruct (template_parses (Violation.code v)) as (pieces & Hparse & Hfields).
  rewrite Hline, Hpos. case_bool_decide as Hclash.
  { destruct Hclash as [[x Hx] | [x Hx]]; discriminate. }
  unfold format. rewrite Hparse. cbn [bind].
  set (kwargs := <["line" := _]> _).
  assert (Hkw : forall n, n ∈ field_names (Code.template (Violation.code v)) ->
                          kwargs !! n = Violation.params v !! n).
  { intros n Hn. apply template_fields in Hn. subst kwargs.
    repeat (apply elem_of_cons in Hn as [-> | Hn]);
      [rewrite !lookup_insert_ne by discriminate; reflexivity .. | inversion Hn]. }
  destruct (render_missing pieces kwargs name) as (missing & Hm & Hmnone & Hraise).
  - rewrite Hfields. right. right. exact Hname.
  - rewrite Hkw by exact Hname. exact Hnone.
  - rewrite Hfields in Hm.
    apply elem_of_cons in Hm as [-> | Hm].
    { subst kwargs. rewrite lookup_insert_eq in Hmnone. discriminate. }
    apply elem_of_cons in Hm as [-> | Hm].
    { subst kwargs. rewrite lookup_insert_ne in Hmnone by discriminate.
      rewrite lookup_insert_eq in Hmnone. discriminate. }
    exists missing. repeat split; [exact Hm | rewrite <- Hkw by exact Hm; exact Hmnone | exact Hraise].
Qed.

Lemma super_init_ok (tree : SyntaxTree.t) (pos : Z) (code : Code.t)
    (kwargs : gmap string value) :
  kwargs !! "code" = None ->
  Violation.super_init tree pos code kwargs = Ok (Violation.__init__ tree pos code kwargs).
Proof.
  intros Hcode. unfold Violation.super_init. rewrite Hcode.
  case_bool_decide as Hsome; [destruct Hsome; discriminate | reflexivity].
Qed.

(** C5, as the code has it.  A constructor checks, when it is called, only
    the keyword parameters it dispatches on: [KeywordStyleViolation] raises
    KeyError without [style], [WhitespaceViolation] without [token] or
    [position].  The parameters that only the message template names
    ([expected], [actual], [target]) are not looked at: [IndentStepsViolation]
    accepts any keyword arguments but one named [code] (which Python
    refuses with TypeError, because the constructor passes [code] on
    itself), and [get_message] succeeds exactly when the parameters hold
    every field of the template (and neither [line] nor [pos]); a missing
    field raises KeyError when the message is rendered. *)
Theorem constructors_check_dispatch_parameters_only :
  (forall tree pos kwargs, kwargs !! "style" = None ->
     Violation.KeywordStyleViolation tree pos kwargs
     = Raise (KeyError "style must be passed."))
  /\ (forall tree pos kwargs, kwargs !! "token" = None ->
        Violation.WhitespaceViolation tree pos kwargs
        = Raise (KeyError "token must be passed."))
  /\ (forall tree pos kwargs, is_Some (kwargs !! "token") ->
        kwargs !! "position" = None ->
        Violation.WhitespaceViolation tree pos kwargs
        = Raise (KeyError "position must be passed."))
  /\ (forall tree pos kwargs, kwargs !! "code" = None ->
        Violation.IndentStepsViolation tree pos kwargs
        = Ok (Violation.__init__ tree pos Code.INDENT_STEPS kwargs))
  /\ (forall tree pos kwargs, is_Some (kwargs !! "code") ->
        Violation.IndentStepsViolation tree pos kwargs = Raise TypeError)
  /\ (forall v,
        (exists s, Violation.get_message v = Ok s)
        <-> Violation.params v !! "line" = None
            /\ Violation.params v !! "pos" = None
            /\ forall name, name ∈ field_names (Code.template (Violation.code v)) ->
                            is_Some (Violation.params v !! name))
  /\ (forall v name,
        Violation.params v !! "line" = None -> Violation.params v !! "pos" = None ->
        name ∈ field_names (Code.template (Violation.code v)) ->
        Violation.params v !! name = None ->
        exists missing,
          missing ∈ field_names (Code.template (Violation.code v))
          /\ Violation.params v !! missing = None
          /\ Violation.get_message v = Raise (KeyError missing)).
Proof.
  split; [| split; [| split; [| split; [| split; [| split]]]]].
  - intros tree pos kwargs Hstyle. unfold Violation.KeywordStyleViolation.
    rewrite Hstyle. reflexivity.
  - intros tree pos kwargs Htoken. unfold Violation.WhitespaceViolation.
    rewrite Htoken. reflexivity.
  - intros tree pos kwargs [token Htoken] Hposition. unfold Violation.WhitespaceViolation.
    rewrite Htoken, Hposition. reflexivity.
  - intros tree pos kwargs Hcode. apply super_init_ok, Hcode.
  - intros tree pos kwargs Hcode.
    unfold Violation.IndentStepsViolation, Violation.super_init.
    rewrite (bool_decide_eq_true_2 _ Hcode). reflexivity.
  - exact get_message_ok_iff.
  - exact get_message_missing.
Qed.

(** C5 as stated fails: [IndentStepsViolation] builds a violation from no
    keyword argument at all, and the missing [expected] surfaces only when
    the message is rendered. *)
Lemma IndentStepsViolation_missing_parameter_renders_late :
  exists v,
    Violation.IndentStepsViolation sample_tree 1 ∅ = Ok v
    /\ Violation.get_message v = Raise (KeyError "expected").
Proof. eexists. split; vm_compute; reflexivity. Qed.

Example get_message_sample :
  Violation.get_message sample_indent
  = Ok "(L3, 1): indent steps must be 4 multiples, but 6 spaces".
Proof. vm_compute. reflexivity. Qed.

(** A keyword violation built with its style but without the two
    parameters of its template is built all the same, and fails to render. *)
Example KeywordStyleViolation_renders_late :
  exists v,
    Violation.KeywordStyleViolation sample_tree 1 (<["style" := VStr "lower"]> ∅) = Ok v
    /\ Violation.code v = Code.KEYWORD_LOWER
    /\ Violation.get_message v = Raise (KeyError "actual").
Proof. eexists. repeat split; vm_compute; reflexivity. Qed.

(** ** Choosing the code *)

(** C6, as the code has it.  Each constructor picks its code by a chain of
    comparisons that ends in an error.  [KeywordStyleViolation] maps
    upper-all, upper-head and lower to KEYWORD_UPPER, KEYWORD_UPPER_HEAD and
    KEYWORD_LOWER and raises ValueError on any other style;
    [CommaPositionViolation] maps head and end to COMMA_HEAD and COMMA_END and
    raises ValueError otherwise; [WhitespaceViolation] raises ValueError on a
    token outside COMMA, BRACKET_LEFT, BRACKET_RIGHT, OPERATOR, and, for COMMA
    and OPERATOR, on a position other than before and after.  For the two
    brackets the position is not looked at: BRACKET_LEFT always gives
    WHITESPACE_AFTER_BRACKET and BRACKET_RIGHT always gives
    WHITESPACE_BEFORE_BRACKET. *)
Theorem violation_code_dispatch :
  (forall tree pos kwargs style,
     kwargs !! "style" = Some style ->
     (style = VStr "upper-all" -> kwargs !! "code" = None ->
        Violation.KeywordStyleViolation tree pos kwargs
        = Ok (Violation.__init__ tree pos Code.KEYWORD_UPPER kwargs))
     /\ (style = VStr "upper-head" -> kwargs !! "code" = None ->
           Violation.KeywordStyleViolation tree pos kwargs
           = Ok (Violation.__init__ tree pos Code.KEYWORD_UPPER_HEAD kwargs))
     /\ (style = VStr "lower" -> kwargs !! "code" = None ->
           Violation.KeywordStyleViolation tree pos kwargs
           = Ok (Violation.__init__ tree pos Code.KEYWORD_LOWER kwargs))
     /\ (style <> VStr "upper-all" -> style <> VStr "upper-head" ->
           style <> VStr "lower" ->
           Violation.KeywordStyleViolation tree pos kwargs = Raise ValueError))
  /\ (forall tree pos comma_position kwargs,
        (comma_position = VStr "head" -> kwargs !! "code" = None ->
           exists v,
             Violation.CommaPositionViolation tree pos comma_position kwargs = Ok v
             /\ Violation.code v = Code.COMMA_HEAD /\ Violation.params v = kwargs)
        /\ (comma_position = VStr "end" -> kwargs !! "code" = None ->
              exists v,
                Violation.CommaPositionViolation tree pos comma_position kwargs = Ok v
                /\ Violation.code v = Code.COMMA_END /\ Violation.params v = kwargs)
        /\ (comma_position <> VStr "head" -> comma_position <> VStr "end" ->
              Violation.CommaPositionViolation tree pos comma_position kwargs
              = Raise ValueError))
  /\ (forall tree pos kwargs token position,
        kwargs !! "token" = Some token -> kwargs !! "position" = Some position ->
        (token ∉ [VKind COMMA; VKind BRACKET_LEFT; VKind BRACKET_RIGHT; VKind OPERATOR] ->
           Violation.WhitespaceViolation tree pos kwargs = Raise ValueError)
        /\ (token = VKind COMMA \/ token = VKind OPERATOR ->
              position <> VStr "before" -> position <> VStr "after" ->
              Violation.WhitespaceViolation tree pos kwargs = Raise ValueError)
        /\ (kwargs !! "code" = None ->
              (token = VKind COMMA -> position = VStr "before" ->
                 Violation.WhitespaceViolation tree pos kwargs
                 = Ok (Violation.__init__ tree pos Code.WHITESPACE_BEFORE_COMMA kwargs))
              /\ (token = VKind COMMA -> position = VStr "after" ->
                    Violation.WhitespaceViolation tree pos kwargs
                    = Ok (Violation.__init__ tree pos Code.WHITESPACE_AFTER_COMMA kwargs))
              /\ (token = VKind BRACKET_LEFT ->
                    Violation.WhitespaceViolation tree pos kwargs
                    = Ok (Violation.__init__ tree pos Code.WHITESPACE_AFTER_BRACKET kwargs))
              /\ (token = VKind BRACKET_RIGHT ->
                    Violation.WhitespaceViolation tree pos kwargs
                    = Ok (Violation.__init__ tree pos Code.WHITESPACE_BEFORE_BRACKET kwargs))
              /\ (token = VKind OPERATOR -> position = VStr "before" ->
                    Violation.WhitespaceViolation tree pos kwargs
                    = Ok (Violation.__init__ tree pos Code.WHITESPACE_BEFORE_OPERATOR kwargs))
              /\ (token = VKind OPERATOR -> position = VStr "after" ->
                    Violation.WhitespaceViolation tree pos kwargs
                    = Ok (Violation.__init__ tree pos Code.WHITESPACE_AFTER_OPERATOR
                            kwargs)))).
Proof.
  split; [| split].
  - intros tree pos kwargs style Hstyle.
    unfold Violation.KeywordStyleViolation. rewrite Hstyle.
    repeat split; intros; subst; dispatch; apply super_init_ok; assumption.
  - intros tree pos comma_position kwargs.
    unfold Violation.CommaPositionViolation.
    repeat split; intros; subst; dispatch;
      rewrite super_init_ok by assumption; eexists; repeat split.
  - intros tree pos kwargs token position Htoken Hposition.
    unfold Violation.WhitespaceViolation. rewrite Htoken, Hposition.
    split; [| split].
    + intros Hnot. dispatch; subst; exfalso; apply Hnot;
        repeat first [apply list_elem_of_here | apply list_elem_of_further].
    + intros [-> | ->] Hb Ha; dispatch.
    + intros Hcode. repeat split; intros; subst; dispatch; apply super_init_ok; assumption.
Qed.

(** C6 as stated fails: a position that is neither before nor after does not
    make [WhitespaceViolation] raise when the token is a bracket. *)
Lemma WhitespaceViolation_bracket_ignores_position :
  exists v,
    Violation.WhitespaceViolation sample_tree 7
      (<["token" := VKind BRACKET_LEFT]> (<["position" := VStr "inside"]> ∅)) = Ok v
    /\ Violation.code v = Code.WHITESPACE_AFTER_BRACKET.
Proof. eexists. split; vm_compute; reflexivity. Qed.

Example KeywordStyleViolation_unknown_style :
  Violation.KeywordStyleViolation sample_tree 1 (<["style" := VStr "UPPER"]> ∅)
  = Raise ValueError.
Proof. vm_compute. reflexivity. Qed.

Example WhitespaceViolation_comma_position :
  Violation.WhitespaceViolation sample_tree 7
    (<["token" := VKind COMMA]> (<["position" := VStr "inside"]> ∅))
  = Raise ValueError.
Proof. vm_compute. reflexivity. Qed.

(** [BreakingLineViolation] names two codes the catalog does not have, so it
    raises for both recognised positions too. *)
Example BreakingLineViolation_always_raises :
  Violation.BreakingLineViolation sample_tree 1 (VStr "before") ∅ = Raise AttributeError
  /\ Violation.BreakingLineViolation sample_tree 1 (VStr "after") ∅ = Raise AttributeError
  /\ Violation.BreakingLineViolation sample_tree 1 (VStr "above") ∅ = Raise ValueError.
Proof. repeat split; vm_compute; reflexivity. Qed.

(** ** The check driver *)

Lemma print_messages_all (violation_list : list Violation.t) (messages stdout : list string) :
  Forall2 (fun vi message => Violation.get_message vi = Ok message)
          violation_list messages ->
  Checker.print_messages violation_list stdout = (stdout ++ messages, Ok tt).
Proof.
  intros Hall. revert stdout.
  induction Hall as [| vi message rest messages Hvi _ IH]; intros stdout.
  - rewrite app_nil_r. reflexivity.
  - cbn [Checker.print_messages]. rewrite Hvi, IH, <- app_assoc. reflexivity.
Qed.

Lemma check_never_returns_a_list
    (c1 c2 c3 c4 c5 : Checker.checker) (tree : Checker.tree_ref)
    (config : Checker.ConfigLoader) (stdout : list string) (l : list Violation.t) :
  Checker.check c1 c2 c3 c4 c5 tree config <> (stdout, Ok (Some l)).
Proof.
  unfold Checker.check.
  destruct (for_each _ _ _) as [violation_list | e | f]; try discriminate.
  destruct (Checker.print_messages violation_list []) as [out [[] | e | f]]; discriminate.
Qed.

(** C2: what [check] does where the claim has it return the list.  When the
    five checkers return their lists and every violation renders, [check]
    prints the messages of the concatenation, in the declared order of the
    checkers, and returns [None]: the list itself is not returned. *)
Theorem check_prints_concatenation_returns_none
    (IndentStepsChecker WhitespaceChecker KeywordStyleChecker CommaChecker
       JoinChecker : Checker.checker)
    (tree : Checker.tree_ref) (config : Checker.ConfigLoader)
    (l1 l2 l3 l4 l5 : list Violation.t) (messages : list string) :
  IndentStepsChecker tree config = Ok l1 ->
  WhitespaceChecker tree config = Ok l2 ->
  KeywordStyleChecker tree config = Ok l3 ->
  CommaChecker tree config = Ok l4 ->
  JoinChecker tree config = Ok l5 ->
  Forall2 (fun vi message => Violation.get_message vi = Ok message)
          (l1 ++ l2 ++ l3 ++ l4 ++ l5) messages ->
  Checker.check IndentStepsChecker WhitespaceChecker KeywordStyleChecker
                CommaChecker JoinChecker tree config
  = (messages, Ok None).
Proof.
  intros H1 H2 H3 H4 H5 Hall.
  unfold Checker.check, Checker.checker_list. cbn [for_each].
  rewrite H1. cbn [bind]. rewrite H2. cbn [bind]. rewrite H3. cbn [bind].
  rewrite H4. cbn [bind]. rewrite H5. cbn [bind app].
  rewrite <- !app_assoc.
  rewrite (print_messages_all _ messages []) by exact Hall.
  reflexivity.
Qed.

Lemma check_prints_concatenation_returns_none_witness :
  Checker.check (fun _ _ => Ok [sample_indent]) (fun _ _ => Ok [])
                (fun _ _ => Ok [sample_keyword]) (fun _ _ => Ok []) (fun _ _ => Ok [])
                ([sample_tree], 0%nat) {| Checker.values := ∅ |}
  = (["(L3, 1): indent steps must be 4 multiples, but 6 spaces";
      "(L3, 1): reserved keywords must be upper case: select -> SELECT"],
     Ok None).
Proof.
  apply (check_prints_concatenation_returns_none
           (fun _ _ => Ok [sample_indent]) (fun _ _ => Ok [])
           (fun _ _ => Ok [sample_keyword]) (fun _ _ => Ok []) (fun _ _ => Ok [])
           ([sample_tree], 0%nat) {| Checker.values := ∅ |}
           [sample_indent] [] [sample_keyword] [] []);
    try reflexivity.
  repeat constructor; vm_compute; reflexivity.
Defined.

(** ** The tree that sqlptree builds *)

Lemma _sqlftree_S (fuel : nat) (h : SyntaxTree.heap) (tree : ref) :
  SyntaxTree._sqlftree (S fuel) h tree
  = let* me := deref h tree in yield_from (emit fuel h) (SyntaxTree.leaves me).
Proof. reflexivity. Qed.

Lemma yield_from_app {A B : Type} (body : A -> result (list B)) (xs ys : list A)
    (out1 out2 : list B) :
  yield_from body xs = Ok out1 -> yield_from body ys = Ok out2 ->
  yield_from body (xs ++ ys) = Ok (out1 ++ out2).
Proof.
  revert out1. induction xs as [| x xs IH]; intros out1 H1 H2.
  - injection H1 as <-. exact H2.
  - cbn [yield_from app] in *.
    destruct (body x) as [first | |]; try discriminate. cbn [bind] in *.
    destruct (yield_from body xs) as [more | |]; try discriminate. cbn [bind] in *.
    injection H1 as <-. rewrite (IH more eq_refl H2). cbn [bind].
    rewrite app_assoc. reflexivity.
Qed.

Lemma texts_agree (h h' : SyntaxTree.heap) (lo hi : nat) :
  (forall i, (lo <= i < hi)%nat -> h' !! i = h !! i) ->
  texts h' lo hi = texts h lo hi.
Proof.
  intros Hagree. unfold texts. apply list_eq. intros i.
  destruct (decide (i < hi - lo)%nat) as [Hlt | Hge].
  - rewrite !lookup_take_lt, !lookup_drop, !list_lookup_fmap by exact Hlt.
    rewrite Hagree by lia. reflexivity.
  - rewrite !lookup_take_ge by lia. reflexivity.
Qed.

Lemma texts_empty (h : SyntaxTree.heap) (lo : nat) : texts h lo lo = [].
Proof. unfold texts. rewrite Nat.sub_diag. reflexivity. Qed.

Lemma texts_split (h : SyntaxTree.heap) (lo c hi : nat) (t : SyntaxTree.t) :
  (lo <= c < hi)%nat -> h !! c = Some t ->
  texts h lo hi = texts h lo c ++ SyntaxTree.text t :: texts h (S c) hi.
Proof.
  intros Hrange Hc. unfold texts.
  set (l := map SyntaxTree.text h).
  assert (Hl : l !! c = Some (SyntaxTree.text t)).
  { subst l. rewrite list_lookup_fmap, Hc. reflexivity. }
  replace (hi - lo)%nat with ((c - lo) + S (hi - S c))%nat by lia.
  rewrite <- take_take_drop. f_equal.
  rewrite drop_drop. replace (lo + (c - lo))%nat with c by lia.
  rewrite (drop_S l (SyntaxTree.text t) c) by exact Hl. reflexivity.
Qed.

Lemma closed_agree (h h' : SyntaxTree.heap) (lo hi : nat) :
  (forall i, (lo <= i < hi)%nat -> h' !! i = h !! i) ->
  closed h lo hi -> closed h' lo hi.
Proof.
  intros Hagree Hclosed i t Hi Ht. rewrite Hagree in Ht by exact Hi.
  exact (Hclosed i t Hi Ht).
Qed.

(** A walk below references of a closed range reads only that range. *)
Lemma yield_from_agree (h h' : SyntaxTree.heap) (lo hi : nat) :
  (forall i, (lo <= i < hi)%nat -> h' !! i = h !! i) ->
  closed h lo hi ->
  forall fuel ls, Forall (fun j => (lo <= j < hi)%nat) ls ->
    yield_from (emit fuel h') ls = yield_from (emit fuel h) ls.
Proof.
  intros Hagree Hclosed.
  assert (Hderef : forall j, (lo <= j < hi)%nat -> deref h' j = deref h j).
  { intros j Hj. unfold deref. rewrite Hagree by exact Hj. reflexivity. }
  induction fuel as [| fuel IH]; intros ls Hls.
  - induction Hls as [| j ls Hj _ IHls]; [reflexivity |].
    cbn [yield_from]. rewrite IHls. unfold emit at 1 3.
    rewrite Hderef by exact Hj. reflexivity.
  - induction Hls as [| j ls Hj _ IHls]; [reflexivity |].
    cbn [yield_from]. rewrite IHls. unfold emit at 1 3.
    rewrite !_sqlftree_S, Hderef by exact Hj.
    unfold deref. destruct (h !! j) as [t |] eqn:Ht; [| reflexivity].
    cbn [bind]. rewrite IH; [reflexivity |].
    eapply Forall_impl; [exact (Hclosed j t Hj Ht) |].
    intros k Hk. simpl in Hk. lia.
Qed.

Lemma filled_agree (h h' : SyntaxTree.heap) (c hi : nat) (ls : list ref) :
  (forall i, (c < i < hi)%nat -> h' !! i = h !! i) ->
  filled h c hi ls -> filled h' c hi ls.
Proof.
  intros Hagree (Hls & Hclosed & Hwalk).
  assert (Hagree' : forall i, (S c <= i < hi)%nat -> h' !! i = h !! i).
  { intros i Hi. apply Hagree. lia. }
  split; [exact Hls | split].
  - exact (closed_agree h h' (S c) hi Hagree' Hclosed).
  - intros fuel Hfuel.
    rewrite (yield_from_agree h h' (S c) hi Hagree' Hclosed).
    + rewrite (texts_agree h h' (S c) hi Hagree'). apply Hwalk, Hfuel.
    + eapply Forall_impl; [exact Hls |]. intros j Hj. simpl in Hj. lia.
Qed.

Lemma spine_agree (h h' : SyntaxTree.heap) (c : ref) :
  (forall i, (i <= c)%nat -> h' !! i = h !! i) ->
  spine h c -> spine h' c.
Proof.
  intros Hagree Hspine. induction Hspine as [t Ht Hparent | c p t tp ls Ht Hparent Hlt Htp Hleaves Hfilled _ IH].
  - apply (spine_root h' t); [rewrite Hagree by lia; exact Ht | exact Hparent].
  - apply (spine_step h' c p t tp ls); try assumption.
    + rewrite Hagree by lia. exact Ht.
    + rewrite Hagree by lia. exact Htp.
    + apply (filled_agree h); [| exact Hfilled]. intros i Hi. apply Hagree. lia.
    + apply IH. intros i Hi. apply Hagree. lia.
Qed.

(** One step up the spine: the parent takes over what its last leaf covers. *)
Lemma open_at_parent (h : SyntaxTree.heap) (c hi p : nat) (t : SyntaxTree.t) :
  open_at h c hi -> h !! c = Some t -> SyntaxTree.parent t = Some p ->
  open_at h p hi /\ (p < c)%nat.
Proof.
  intros (t' & Ht' & Hhi & (Hls & Hclosed & Hwalk) & Hspine) Ht Hparent.
  rewrite Ht in Ht'. injection Ht' as <-.
  inversion Hspine as [t0 Ht0 Hnone | c0 p0 t0 tp ls Ht0 Hp0 Hlt Htp Hleaves Hfilled Hup]; subst.
  - rewrite Ht in Ht0. injection Ht0 as <-. congruence.
  - rewrite Ht in Ht0. injection Ht0 as <-.
    rewrite Hparent in Hp0. injection Hp0 as <-.
    destruct Hfilled as (Hls' & Hclosed' & Hwalk').
    split; [| exact Hlt].
    exists tp. split; [exact Htp |]. split; [lia |]. split; [| exact Hup].
    rewrite Hleaves. split; [| split].
    + apply Forall_app. split.
      * eapply Forall_impl; [exact Hls' |]. intros j Hj. simpl in Hj. lia.
      * constructor; [lia | constructor].
    + intros i ti Hi Hti.
      destruct (decide (i < c)%nat) as [Hic | Hic].
      * eapply Forall_impl; [exact (Hclosed' i ti ltac:(lia) Hti) |].
        intros j Hj. simpl in Hj. lia.
      * destruct (decide (i = c)) as [-> | Hne].
        -- rewrite Ht in Hti. injection Hti as <-. exact Hls.
        -- exact (Hclosed i ti ltac:(lia) Hti).
    + intros fuel Hfuel.
      destruct fuel as [| fuel]; [lia |].
      rewrite (texts_split h (S p) c hi t) by (try exact Ht; lia).
      apply yield_from_app.
      * apply Hwalk'. lia.
      * cbn [yield_from]. unfold emit at 1. unfold deref at 1. rewrite Ht. cbn [bind].
        rewrite _sqlftree_S. unfold deref. rewrite Ht. cbn [bind].
        rewrite Hwalk by lia. cbn [bind]. rewrite app_nil_r. reflexivity.
Qed.

(** All the way up: the root's leaves cover every reference after it. *)
Lemma open_at_root (h : SyntaxTree.heap) (c hi : nat) :
  open_at h c hi -> open_at h 0%nat hi.
Proof.
  induction c as [c IH] using lt_wf_ind. intros Hopen.
  destruct Hopen as (t & Ht & Hhi & Hfilled & Hspine).
  inversion Hspine as [t0 Ht0 Hnone | c0 p0 t0 tp ls Ht0 Hp0 Hlt Htp Hleaves Hfilled' Hup]; subst.
  - exact (ex_intro _ t (conj Ht (conj Hhi (conj Hfilled Hspine)))).
  - destruct (open_at_parent h c hi p0 t0) as [Hopen Hlt'].
    + exact (ex_intro _ t (conj Ht (conj Hhi (conj Hfilled Hspine)))).
    + exact Ht0.
    + exact Hp0.
    + exact (IH p0 Hlt' Hopen).
Qed.

Lemma _sqlftree_root (h : SyntaxTree.heap) :
  open_at h 0%nat (length h) ->
  SyntaxTree._sqlftree (length h) h 0%nat = Ok (map SyntaxTree.text (drop 1 h)).
Proof.
  intros (t & Ht & Hlen & (_ & _ & Hwalk) & _).
  destruct (length h) as [| n] eqn:Hn; [lia |].
  rewrite _sqlftree_S. unfold deref. rewrite Ht. cbn [bind].
  rewrite Hwalk by lia. unfold texts.
  rewrite take_ge by (rewrite length_drop, length_map; lia).
  rewrite <- fmap_drop. reflexivity.
Qed.

Lemma well_formed_depth (h : SyntaxTree.heap) (i : ref) (t : SyntaxTree.t) :
  well_formed h -> h !! i = Some t ->
  0 <= SyntaxTree.depth t /\ (i <> 0%nat -> 0 < SyntaxTree.depth t).
Proof.
  intros ((r & Hr & _ & Hdepth & _) & Hnodes & _) Ht.
  destruct (decide (i = 0%nat)) as [-> | Hne].
  - rewrite Hr in Ht. injection Ht as <-. split; [lia | contradiction].
  - destruct (Hnodes i t Ht Hne) as (p & tp & _ & _ & _ & Hd & Hd0 & _).
    split; [| intros _]; lia.
Qed.

(** The climb ends, without a failed assertion, at the root or at an
    object indented strictly less than the line. *)
Lemma pop_walk_ok (h : SyntaxTree.heap) (indent : Z) (hi : nat) :
  well_formed h ->
  forall fuel c, (c < fuel)%nat -> open_at h c hi ->
    exists p tp,
      SyntaxTree.pop_walk fuel h indent c = Ok p /\ h !! p = Some tp
      /\ open_at h p hi /\ (p = 0%nat \/ SyntaxTree.indent tp < indent).
Proof.
  intros Hwf. induction fuel as [| fuel IH]; intros c Hfuel Hopen; [lia |].
  pose proof Hopen as (t & Ht & _).
  cbn [SyntaxTree.pop_walk]. unfold deref. rewrite Ht. cbn [bind].
  destruct (well_formed_depth h c t Hwf Ht) as [Hd0 Hdpos].
  destruct ((indent <=? SyntaxTree.indent t) && (0 <? SyntaxTree.depth t)) eqn:Hcond.
  - apply andb_true_iff in Hcond as [Hle Hdepth].
    apply Z.ltb_lt in Hdepth.
    assert (Hne : c <> 0%nat).
    { intros ->. destruct Hwf as ((r & Hr & _ & Hrd & _) & _).
      rewrite Hr in Ht. injection Ht as <-. lia. }
    destruct Hwf as (Hroot & Hnodes & Hleaves).
    destruct (Hnodes c t Ht Hne) as (p & tp & Hparent & Hlt & _).
    rewrite Hparent.
    destruct (open_at_parent h c hi p t Hopen Ht Hparent) as [Hopen' _].
    apply IH; [lia | exact Hopen'].
  - exists c, t. repeat split; try assumption.
    apply andb_false_iff in Hcond as [Hgt | Hdepth].
    + right. apply Z.leb_gt in Hgt. exact Hgt.
    + left. apply Z.ltb_ge in Hdepth.
      destruct (decide (c = 0%nat)) as [Hc | Hc]; [exact Hc |].
      specialize (Hdpos Hc). lia.
Qed.

Section Attach.

Variables (h : SyntaxTree.heap) (p : ref) (tp nw : SyntaxTree.t).
Hypothesis Hp : h !! p = Some tp.

Lemma attached_length : length (attached h p tp nw) = S (length h).
Proof. unfold attached. rewrite length_insert, length_app. cbn [length]. lia. Qed.

Lemma attached_p_lt : (p < length h)%nat.
Proof. eapply lookup_lt_Some. exact Hp. Qed.

Lemma attached_lookup_other (i : nat) :
  i <> p -> (i < length h)%nat -> attached h p tp nw !! i = h !! i.
Proof.
  intros Hne Hlt. unfold attached.
  rewrite list_lookup_insert_ne by congruence. apply lookup_app_l. exact Hlt.
Qed.

Lemma attached_lookup_parent : attached h p tp nw !! p = Some (with_leaf tp (length h)).
Proof.
  unfold attached. apply list_lookup_insert_eq.
  rewrite length_app. pose proof attached_p_lt. lia.
Qed.

Lemma attached_lookup_new : attached h p tp nw !! length h = Some nw.
Proof.
  unfold attached. pose proof attached_p_lt.
  rewrite list_lookup_insert_ne by lia.
  rewrite lookup_app_r by lia. rewrite Nat.sub_diag. reflexivity.
Qed.

Lemma attached_lookup_inv (i : nat) (t : SyntaxTree.t) :
  attached h p tp nw !! i = Some t ->
  (i = p /\ t = with_leaf tp (length h))
  \/ (i <> p /\ (i < length h)%nat /\ h !! i = Some t)
  \/ (i = length h /\ t = nw).
Proof.
  intros Hi.
  destruct (decide (i = p)) as [-> | Hne].
  - rewrite attached_lookup_parent in Hi. injection Hi as <-. left. auto.
  - right. destruct (decide (i < length h)%nat) as [Hlt | Hge].
    + left. rewrite attached_lookup_other in Hi by assumption. auto.
    + right. apply lookup_lt_Some in Hi as Hlen. rewrite attached_length in Hlen.
      assert (i = length h) as -> by lia.
      rewrite attached_lookup_new in Hi. injection Hi as <-. auto.
Qed.

(** Every old object is still there, with at least its old leaves and
    everything else unchanged. *)
Lemma attached_keeps (j : nat) (tj : SyntaxTree.t) :
  h !! j = Some tj ->
  exists tj',
    attached h p tp nw !! j = Some tj'
    /\ SyntaxTree.parent tj' = SyntaxTree.parent tj
    /\ SyntaxTree.depth tj' = SyntaxTree.depth tj
    /\ SyntaxTree.node tj' = SyntaxTree.node tj
    /\ (forall x, x ∈ SyntaxTree.leaves tj -> x ∈ SyntaxTree.leaves tj').
Proof.
  intros Hj. destruct (decide (j = p)) as [-> | Hne].
  - rewrite Hp in Hj. injection Hj as <-.
    exists (with_leaf tp (length h)). rewrite attached_lookup_parent.
    repeat split. intros x Hx. cbn [with_leaf SyntaxTree.leaves].
    apply elem_of_app. left. exact Hx.
  - exists tj. rewrite attached_lookup_other
      by (try assumption; eapply lookup_lt_Some; exact Hj).
    repeat split; auto.
Qed.

Lemma attached_nodes :
  map SyntaxTree.node (attached h p tp nw)
  = map SyntaxTree.node h ++ [SyntaxTree.node nw].
Proof.
  unfold attached. rewrite list_fmap_insert, fmap_app. cbn [fmap list_fmap with_leaf SyntaxTree.node].
  apply list_insert_id. rewrite lookup_app_l.
  - rewrite list_lookup_fmap, Hp. reflexivity.
  - rewrite length_fmap. exact attached_p_lt.
Qed.

End Attach.

Lemma attached_well_formed (h : SyntaxTree.heap) (p : ref) (tp nw : SyntaxTree.t) :
  well_formed h -> h !! p = Some tp ->
  SyntaxTree.parent nw = Some p -> SyntaxTree.leaves nw = [] ->
  SyntaxTree.depth nw = SyntaxTree.depth tp + 1 ->
  (p = 0%nat \/ SyntaxTree.indent tp < SyntaxTree.indent nw) ->
  well_formed (attached h p tp nw).
Proof.
  intros Hwf Hp Hparent Hleaves Hdepth Hindent.
  pose proof (attached_p_lt h p tp Hp) as Hplt.
  pose proof (well_formed_depth h p tp Hwf Hp) as [Hd0 _].
  destruct Hwf as ((r & Hr & Hrp & Hrd & Hrt) & Hnodes & Hlv).
  split; [| split].
  - destruct (attached_keeps h p tp nw Hp 0%nat r Hr) as (r' & Hr' & Hp' & Hd' & Hn' & _).
    exists r'. repeat split; [exact Hr' | congruence | congruence |].
    unfold SyntaxTree.tokens in *. rewrite Hn'. exact Hrt.
  - intros i t Hi Hne.
    destruct (attached_lookup_inv h p tp nw Hp i t Hi)
      as [[-> ->] | [(Hip & Hilt & Hold) | [-> ->]]].
    + destruct (Hnodes p tp Hp Hne) as (pp & tpp & Hpar & Hlt & Hpp & Hd & Hdp & Hin & Hind).
      destruct (attached_keeps h p tp nw Hp pp tpp Hpp) as (tpp' & Hpp' & _ & Hd' & Hn' & Hl').
      exists pp, tpp'. repeat split; try assumption.
      * cbn [with_leaf SyntaxTree.depth SyntaxTree._depth]. unfold SyntaxTree.depth in *. lia.
      * lia.
      * apply Hl'. exact Hin.
      * intros Hpp0. unfold SyntaxTree.indent in *. cbn [with_leaf SyntaxTree.node].
        rewrite Hn'. apply Hind. exact Hpp0.
    + destruct (Hnodes i t Hold Hne) as (pp & tpp & Hpar & Hlt & Hpp & Hd & Hdp & Hin & Hind).
      destruct (attached_keeps h p tp nw Hp pp tpp Hpp) as (tpp' & Hpp' & _ & Hd' & Hn' & Hl').
      exists pp, tpp'. repeat split; try assumption; try lia.
      * apply Hl'. exact Hin.
      * intros Hpp0. unfold SyntaxTree.indent in *. rewrite Hn'. apply Hind. exact Hpp0.
    + exists p, (with_leaf tp (length h)).
      rewrite (attached_lookup_parent h p tp nw Hp).
      repeat split; try assumption.
      * cbn [with_leaf SyntaxTree.leaves]. apply elem_of_app. right. apply list_elem_of_here.
      * intros Hp0. destruct Hindent as [-> | Hlt]; [contradiction | exact Hlt].
  - intros q tq j Hq Hj.
    assert (Hold : forall q0, j ∈ SyntaxTree.leaves q0 -> h !! q = Some q0 ->
                     exists tj, attached h p tp nw !! j = Some tj
                                /\ SyntaxTree.parent tj = Some q).
    { intros q0 Hj0 Hq0. destruct (Hlv q q0 j Hq0 Hj0) as (tj & Htj & Hpar).
      destruct (attached_keeps h p tp nw Hp j tj Htj) as (tj' & Htj' & Hpar' & _).
      exists tj'. split; [exact Htj' | congruence]. }
    destruct (attached_lookup_inv h p tp nw Hp q tq Hq)
      as [[-> ->] | [(Hqp & Hqlt & Hqold) | [-> ->]]].
    + cbn [with_leaf SyntaxTree.leaves] in Hj. apply elem_of_app in Hj as [Hj | Hj].
      * exact (Hold tp Hj Hp).
      * apply list_elem_of_singleton in Hj as ->.
        exists nw. split; [apply attached_lookup_new; exact Hp | exact Hparent].
    + exact (Hold tq Hj Hqold).
    + rewrite Hleaves in Hj. inversion Hj.
Qed.

Lemma attached_open_at (h : SyntaxTree.heap) (p : ref) (tp nw : SyntaxTree.t) :
  open_at h p (length h) -> h !! p = Some tp ->
  SyntaxTree.parent nw = Some p -> SyntaxTree.leaves nw = [] ->
  open_at (attached h p tp nw) (length h) (S (length h)).
Proof.
  intros (tp0 & Hp0 & Hplt & Hfilled & Hspine) Hp Hparent Hleaves.
  rewrite Hp in Hp0. injection Hp0 as <-.
  assert (Hother : forall i, i <> p -> (i < length h)%nat ->
                     attached h p tp nw !! i = h !! i).
  { intros i. apply attached_lookup_other. }
  exists nw. split; [apply attached_lookup_new; exact Hp |].
  split; [lia |]. split.
  - rewrite Hleaves. split; [constructor | split].
    + intros i t Hi. lia.
    + intros fuel _. rewrite texts_empty. reflexivity.
  - apply (spine_step _ (length h) p nw (with_leaf tp (length h)) (SyntaxTree.leaves tp)).
    + apply attached_lookup_new. exact Hp.
    + exact Hparent.
    + exact Hplt.
    + apply attached_lookup_parent. exact Hp.
    + reflexivity.
    + apply (filled_agree h); [| exact Hfilled]. intros i Hi. apply Hother; lia.
    + inversion Hspine as [t0 Ht0 Hnone | c0 pp t0 tpp ls Ht0 Hpp Hlt Htpp Hls Hfill Hup]; subst.
      * apply (spine_root _ (with_leaf tp (length h))).
        -- apply attached_lookup_parent. exact Hp.
        -- rewrite Hp in Ht0. injection Ht0 as <-. exact Hnone.
      * rewrite Hp in Ht0. injection Ht0 as <-.
        apply (spine_step _ p pp (with_leaf tp (length h)) tpp ls); try assumption.
        -- apply attached_lookup_parent. exact Hp.
        -- rewrite Hother by lia. exact Htpp.
        -- apply (filled_agree h); [| exact Hfill]. intros i Hi. apply Hother; lia.
        -- apply (spine_agree h); [| exact Hup]. intros i Hi. apply Hother; lia.
Qed.

Lemma map_drop_1 {A B : Type} (f : A -> B) (l : list A) :
  map f (drop 1 l) = drop 1 (map f l).
Proof. destruct l; reflexivity. Qed.

Lemma retained_snoc (is_abstract : bool) (done : list (list Token.t))
    (tokens : list Token.t) :
  retained is_abstract (done ++ [tokens])
  = retained is_abstract done
    ++ (let kept := if is_abstract then SyntaxTree._ignore_token tokens else tokens in
        if is_abstract && bool_decide (kept = []) then [] else [kept]).
Proof.
  unfold retained. destruct is_abstract; [| reflexivity].
  rewrite map_app, filter_app. f_equal.
  cbn [map andb]. rewrite filter_cons, filter_nil.
  case_decide as Hne; case_bool_decide as Heq; try reflexivity; contradiction.
Qed.

Lemma built_initial (is_abstract : bool) (guard : SyntaxTree.t) :
  SyntaxTree.__init__ 0 0 None None is_abstract = Ok guard ->
  built is_abstract [] [guard] 0%nat.
Proof.
  intros Hguard. cbn in Hguard. injection Hguard as <-.
  split; [| split].
  - split; [| split].
    + eexists. split; [reflexivity |]. repeat split.
    + intros [| i] t Hi Hne; [contradiction | discriminate].
    + intros [| p] tp j Hp Hj; [| discriminate].
      injection Hp as <-. inversion Hj.
  - eexists. split; [reflexivity |]. split; [cbn; lia |]. split.
    + split; [constructor | split].
      * intros i t Hi. cbn in Hi. lia.
      * intros fuel _. reflexivity.
    + eapply spine_root; reflexivity.
  - destruct is_abstract; reflexivity.
Qed.

Lemma sqlptree_line_built (is_abstract : bool) (done : list (list Token.t))
    (h : SyntaxTree.heap) (c : ref) (line_num : Z) (tokens : list Token.t) :
  0 <= line_num -> built is_abstract done h c ->
  exists h' c',
    SyntaxTree.sqlptree_line is_abstract (h, c) (line_num, tokens) = Ok (h', c')
    /\ built is_abstract (done ++ [tokens]) h' c'.
Proof.
  intros Hline (Hwf & Hopen & Hdata).
  pose proof (retained_snoc is_abstract done tokens) as Hsnoc.
  unfold SyntaxTree.sqlptree_line.
  set (kept := if is_abstract then SyntaxTree._ignore_token tokens else tokens) in *.
  cbv zeta in Hsnoc.
  destruct (is_abstract && bool_decide (kept = [])) eqn:Hskip.
  { exists h, c. split; [reflexivity |]. rewrite app_nil_r in Hsnoc.
    split; [exact Hwf | split; [exact Hopen | rewrite Hsnoc; exact Hdata]]. }
  set (indent := match kept with
                 | [] => 0
                 | head :: _ =>
                     if bool_decide (Token.kind head = WHITESPACE)
                     then str_len (Token.word head) else 0
                 end).
  assert (Hc : (c < length h)%nat).
  { destruct Hopen as (t & Ht & _). eapply lookup_lt_Some. exact Ht. }
  destruct (pop_walk_ok h indent (length h) Hwf (length h) c Hc Hopen)
    as (p & tp & Hwalk & Hp & Hopen' & Hindent).
  rewrite Hwalk. cbn [bind]. unfold deref at 1. rewrite Hp. cbn [bind].
  unfold SyntaxTree.__init__, Node.__init__, Node.line_num_setter.
  destruct (Z.ltb_spec (line_num + 1) 0) as [Hneg | _]; [lia |].
  cbn [bind alloc]. unfold SyntaxTree.add_leaf, deref.
  rewrite (lookup_app_l h) by (eapply lookup_lt_Some; exact Hp).
  rewrite Hp. cbn [bind].
  set (nw := {| SyntaxTree._depth := SyntaxTree.depth tp + 1;
                SyntaxTree.leaves := [];
                SyntaxTree.parent := Some p;
                SyntaxTree.node := {| Node._line_num := line_num + 1; Node.tokens := kept |};
                SyntaxTree.is_abstract := is_abstract |}).
  change (<[p := _]> (h ++ [nw])) with (attached h p tp nw).
  exists (attached h p tp nw), (length h). split; [reflexivity |].
  split; [| split].
  - apply attached_well_formed; try assumption; try reflexivity.
  - rewrite attached_length. apply attached_open_at; try assumption; reflexivity.
  - assert (Htok : forall l, map SyntaxTree.tokens l
                             = map Node.tokens (map SyntaxTree.node l)).
    { intros l. rewrite map_map. reflexivity. }
    rewrite map_drop_1, Htok, (attached_nodes h p tp nw Hp), map_app, <- Htok.
    rewrite Hsnoc, <- Hdata, map_drop_1.
    destruct h as [| r h0]; [simpl in Hc; lia | reflexivity].
Qed.

Lemma sqlptree_loop_built (is_abstract : bool) (lines : list (list Token.t)) :
  forall done h c line_num,
    0 <= line_num -> built is_abstract done h c ->
    exists h' c',
      for_each (SyntaxTree.sqlptree_line is_abstract)
               (enumerate_from line_num lines) (h, c) = Ok (h', c')
      /\ built is_abstract (done ++ lines) h' c'.
Proof.
  induction lines as [| tokens lines IH]; intros done h c line_num Hline Hbuilt.
  - exists h, c. rewrite app_nil_r. split; [reflexivity | exact Hbuilt].
  - destruct (sqlptree_line_built is_abstract done h c line_num tokens Hline Hbuilt)
      as (h1 & c1 & Hstep & Hbuilt1).
    destruct (IH (done ++ [tokens]) h1 c1 (line_num + 1) ltac:(lia) Hbuilt1)
      as (h2 & c2 & Hrest & Hbuilt2).
    exists h2, c2. cbn [enumerate_from for_each]. rewrite Hstep. cbn [bind].
    rewrite Hrest, <- app_assoc in *. split; [reflexivity | exact Hbuilt2].
Qed.

(** [sqlptree] always returns: a heap, with the root at reference 0, in the
    state the loop invariant describes for all the lines of the text. *)
Lemma sqlptree_built (parse_sql : string -> list (list Token.t)) (sql : string)
    (is_abstract : bool) :
  exists h c,
    SyntaxTree.sqlptree parse_sql sql is_abstract "StandardSQL" = Ok (h, 0%nat)
    /\ built is_abstract (parse_sql sql) h c.
Proof.
  unfold SyntaxTree.sqlptree. cbn [String.eqb Ascii.eqb Bool.eqb negb].
  destruct (SyntaxTree.__init__ 0 0 None None is_abstract) as [guard | |] eqn:Hguard;
    try discriminate.
  cbn [bind alloc app length].
  destruct (sqlptree_loop_built is_abstract (parse_sql sql) [] [guard] 0%nat 0
              ltac:(lia) (built_initial is_abstract guard Hguard))
    as (h & c & Hloop & Hbuilt).
  exists h, c. unfold enumerate. rewrite Hloop. cbn [bind]. split; [reflexivity | exact Hbuilt].
Qed.

(** In either mode [_sqlftree], given one unit of fuel per object, yields
    the texts of the retained lines in source order. *)
Lemma _sqlftree_retained (is_abstract : bool) (done : list (list Token.t))
    (h : SyntaxTree.heap) (c : ref) :
  built is_abstract done h c ->
  SyntaxTree._sqlftree (length h) h 0%nat
  = Ok (map line_text (retained is_abstract done)).
Proof.
  intros (_ & Hopen & Hdata).
  rewrite (_sqlftree_root h (open_at_root h c (length h) Hopen)).
  rewrite <- Hdata, map_map. reflexivity.
Qed.

Lemma leading_blanks_append (s : string) :
  fst (leading_blanks s) +:+ snd (leading_blanks s) = s.
Proof.
  induction s as [| c rest IH]; [reflexivity |].
  cbn [leading_blanks]. destruct (Ascii.eqb c (ascii_of_nat 32)); [| reflexivity].
  destruct (leading_blanks rest) as [blanks tail]. cbn [fst snd] in *.
  change (String c (blanks +:+ tail) = String c rest). rewrite IH. reflexivity.
Qed.

Lemma string_app_nil_r (s : string) : s +:+ "" = s.
Proof.
  induction s as [| c s IH]; [reflexivity |].
  change (String c (s +:+ "") = String c s). rewrite IH. reflexivity.
Qed.

Lemma coarse_tokens_lossless (line : string) : line_text (coarse_tokens line) = line.
Proof.
  pose proof (leading_blanks_append line) as Happ.
  unfold coarse_tokens, line_text.
  destruct (leading_blanks line) as [blanks rest]. cbn [fst snd] in Happ.
  destruct (String.eqb_spec blanks "") as [-> | Hb];
    destruct (String.eqb_spec rest "") as [-> | Hr];
    cbn [app map join Token.word]; try exact Happ.
  rewrite string_app_nil_r in Happ. exact Happ.
Qed.

Lemma coarse_parse_lossless (sql : string) :
  map line_text (coarse_parse sql) = split_lines sql.
Proof.
  unfold coarse_parse. rewrite map_map.
  induction (split_lines sql) as [| line lines IH]; [reflexivity |].
  cbn [map]. rewrite coarse_tokens_lossless, IH. reflexivity.
Qed.

(** The tree of the sample text: line 2 under line 1, line 3 under line 2,
    and the last two lines back under the root. *)
Example sqlptree_sample_shape :
  exists h,
    SyntaxTree.sqlptree coarse_parse sample_sql false "StandardSQL" = Ok (h, 0%nat)
    /\ map SyntaxTree.parent h
       = [None; Some 0; Some 1; Some 2; Some 0; Some 0]%nat
    /\ map SyntaxTree.leaves h = [[1; 4; 5]; [2]; [3]; []; []; []]%nat
    /\ map SyntaxTree.depth h = [0; 1; 2; 3; 1; 1]
    /\ map SyntaxTree.indent h = [0; 0; 2; 4; 0; 0]
    /\ map SyntaxTree.line_num h = [0; 1; 2; 3; 4; 5].
Proof. eexists. repeat split; vm_compute; reflexivity. Qed.

(** The same text in abstract mode: the blank line is gone and the rest
    hangs under the root. *)
Example sqlptree_sample_abstract :
  exists h,
    SyntaxTree.sqlptree coarse_parse sample_sql true "StandardSQL" = Ok (h, 0%nat)
    /\ map SyntaxTree.parent h = [None; Some 0; Some 0; Some 0; Some 0]%nat
    /\ map SyntaxTree.leaves h = [[1; 2; 3; 4]; []; []; []; []]%nat
    /\ map SyntaxTree.text h = [""; "select"; "a,"; "b"; "from t"].
Proof. eexists. repeat split; vm_compute; reflexivity. Qed.

Example sqlptree_other_dialect :
  SyntaxTree.sqlptree coarse_parse sample_sql false "MySQL" = Raise NotImplementedError.
Proof. reflexivity. Qed.

(** ** Round trip *)

(** C1, as the code has it.  Whenever the tokenizer splits a text at its
    line feeds and is lossless on every line (the words of the tokens of
    each line spell the piece of the text between two line feeds),
    [sqlptree] in non-abstract mode returns a tree from which [_sqlftree]
    yields exactly the lines of the text, in order, and [sqlftree] gives the
    text back. *)
Theorem sqlftree_sqlptree_roundtrip (parse_sql : string -> list (list Token.t))
    (sql : string) :
  map line_text (parse_sql sql) = split_lines sql ->
  exists h,
    SyntaxTree.sqlptree parse_sql sql false "StandardSQL" = Ok (h, 0%nat)
    /\ SyntaxTree._sqlftree (length h) h 0%nat = Ok (split_lines sql)
    /\ SyntaxTree.sqlftree h 0%nat = Ok sql.
Proof.
  intros Hlossless.
  destruct (sqlptree_built parse_sql sql false) as (h & c & Hbuild & Hbuilt).
  exists h. split; [exact Hbuild |].
  assert (Hlines : SyntaxTree._sqlftree (length h) h 0%nat = Ok (split_lines sql)).
  { rewrite (_sqlftree_retained false (parse_sql sql) h c Hbuilt).
    cbn [retained]. rewrite Hlossless. reflexivity. }
  split; [exact Hlines |].
  unfold SyntaxTree.sqlftree. rewrite Hlines. cbn [bind].
  fold (join_lines (split_lines sql)). rewrite join_split_lines. reflexivity.
Qed.

Lemma sqlftree_sqlptree_roundtrip_witness :
  exists h,
    SyntaxTree.sqlptree coarse_parse sample_sql false "StandardSQL" = Ok (h, 0%nat)
    /\ SyntaxTree._sqlftree (length h) h 0%nat
       = Ok ["select"; "  a,"; "    b"; "from t"; ""]
    /\ SyntaxTree.sqlftree h 0%nat = Ok sample_sql.
Proof.
  exact (sqlftree_sqlptree_roundtrip coarse_parse sample_sql
           (coarse_parse_lossless sample_sql)).
Defined.

(** C1 as stated fails for a text whose line ends in a carriage return and a
    line feed: the tokenizer gives its two lines without loss, [sqlftree]
    joins them with a line feed alone, and the carriage return is gone. *)
Lemma sqlftree_sqlptree_crlf_not_restored :
  map line_text (crlf_parse crlf_sql) = ["select"; "  a"]
  /\ exists h,
       SyntaxTree.sqlptree crlf_parse crlf_sql false "StandardSQL" = Ok (h, 0%nat)
       /\ SyntaxTree.sqlftree h 0%nat = Ok ("select" +:+ newline +:+ "  a")
       /\ SyntaxTree.sqlftree h 0%nat <> Ok crlf_sql.
Proof.
  split; [vm_compute; reflexivity |].
  eexists. split; [vm_compute; reflexivity |].
  split; [vm_compute; reflexivity |].
  vm_compute. discriminate.
Qed.

(** ** Nesting *)

(** C3, as the code has it.  In the tree [sqlptree] returns, every object
    but the root has a parent that lists it among its leaves, and it is
    indented strictly deeper than that parent unless the parent is the
    root.  Under the root (whose indent is 0) a line of any indent is
    attached, so there only [<=] holds. *)
Theorem sqlptree_nesting (parse_sql : string -> list (list Token.t)) (sql : string)
    (is_abstract : bool) :
  exists h,
    SyntaxTree.sqlptree parse_sql sql is_abstract "StandardSQL" = Ok (h, 0%nat)
    /\ forall i t, h !! i = Some t -> i <> 0%nat ->
         exists p tp,
           SyntaxTree.parent t = Some p /\ h !! p = Some tp
           /\ i ∈ SyntaxTree.leaves tp
           /\ SyntaxTree.indent tp <= SyntaxTree.indent t
           /\ (p <> 0%nat -> SyntaxTree.indent tp < SyntaxTree.indent t).
Proof.
  destruct (sqlptree_built parse_sql sql is_abstract) as (h & c & Hbuild & Hwf & _).
  exists h. split; [exact Hbuild |].
  intros i t Hi Hne.
  destruct Hwf as ((r & Hr & _ & _ & Hrt) & Hnodes & _).
  destruct (Hnodes i t Hi Hne) as (p & tp & Hparent & _ & Hp & _ & _ & Hin & Hindent).
  exists p, tp. repeat split; try assumption.
  destruct (decide (p = 0%nat)) as [-> | Hp0].
  - rewrite Hr in Hp. injection Hp as <-.
    unfold SyntaxTree.indent, Node.indent. unfold SyntaxTree.tokens in Hrt. rewrite Hrt.
    apply Node_indent_nonneg.
  - specialize (Hindent Hp0). lia.
Qed.

(** C3 as stated fails under the root: the only line of the text [select]
    has indent 0, and so has the root it hangs under. *)
Lemma sqlptree_root_child_not_deeper :
  exists h t tp,
    SyntaxTree.sqlptree coarse_parse "select" false "StandardSQL" = Ok (h, 0%nat)
    /\ h !! 1%nat = Some t /\ SyntaxTree.parent t = Some 0%nat
    /\ h !! 0%nat = Some tp
    /\ ~ (SyntaxTree.indent t > SyntaxTree.indent tp).
Proof.
  eexists _, _, _. split; [vm_compute; reflexivity |].
  split; [reflexivity |]. split; [reflexivity |]. split; [reflexivity |].
  vm_compute. intros H. discriminate H.
Qed.

Lemma join_empty_first (w : string) (ws : list string) :
  join "" (w :: ws) = "" -> w = "".
Proof.
  destruct ws as [| w' ws]; [intros H; exact H |].
  change (join "" (w :: w' :: ws)) with (w +:+ "" +:+ join "" (w' :: ws)).
  destruct w; [reflexivity | discriminate].
Qed.

Lemma indent_of_empty_text (line_num : Z) (tokens : list Token.t) :
  line_text tokens = "" -> Node.indent (Node.mk line_num tokens) = 0.
Proof.
  unfold line_text, Node.indent. cbn [Node.tokens].
  destruct tokens as [| first rest]; [reflexivity |].
  cbn [map]. intros Hempty. apply join_empty_first in Hempty.
  case_bool_decide; [| reflexivity].
  unfold Token.__len__. rewrite Hempty. reflexivity.
Qed.

(** Whatever the tokenizer, as long as it is lossless on the empty text:
    the tree of the empty text has one line, under the root, and both have
    indent 0.  The strict inequality of C3 fails there for every
    tokenizer. *)
Lemma sqlptree_empty_text (parse_sql : string -> list (list Token.t)) :
  map line_text (parse_sql "") = split_lines "" ->
  exists h t tp,
    SyntaxTree.sqlptree parse_sql "" false "StandardSQL" = Ok (h, 0%nat)
    /\ h !! 1%nat = Some t /\ SyntaxTree.parent t = Some 0%nat
    /\ h !! 0%nat = Some tp
    /\ SyntaxTree.indent t = 0 /\ SyntaxTree.indent tp = 0.
Proof.
  intros Hlossless.
  destruct (parse_sql "") as [| tokens [| more rest]] eqn:Hparse;
    cbn in Hlossless; try discriminate.
  injection Hlossless as Htext.
  unfold SyntaxTree.sqlptree. rewrite Hparse.
  cbn [String.eqb Ascii.eqb Bool.eqb negb SyntaxTree.__init__ Node.__init__
       Node.line_num_setter Z.ltb Z.compare bind alloc app length enumerate
       enumerate_from for_each SyntaxTree.sqlptree_line andb SyntaxTree.pop_walk
       deref lookup list_lookup SyntaxTree.indent SyntaxTree.depth SyntaxTree._depth
       SyntaxTree.node Node.indent Node.tokens SyntaxTree.parent].
  rewrite andb_false_r.
  cbn [bind deref lookup list_lookup SyntaxTree.depth SyntaxTree._depth Z.add
       Z.ltb Z.compare alloc app length SyntaxTree.add_leaf insert list_insert
       SyntaxTree.leaves SyntaxTree.parent SyntaxTree.node SyntaxTree.is_abstract].
  eexists _, _, _. split; [reflexivity |].
  split; [reflexivity |]. split; [reflexivity |]. split; [reflexivity |].
  split; [| reflexivity].
  apply (indent_of_empty_text 1 tokens Htext).
Qed.

(** ** Abstract trees *)

Lemma _ignore_token_no_whitespace (tokens : list Token.t) (tok : Token.t) :
  tok ∈ SyntaxTree._ignore_token tokens -> Token.kind tok <> WHITESPACE.
Proof.
  unfold SyntaxTree._ignore_token.
  destruct (len tokens =? 0); [intros Hin; inversion Hin |].
  intros Hin. apply list_elem_of_filter in Hin as [Hkind _].
  intros Heq. apply Hkind. rewrite Heq. apply list_elem_of_here.
Qed.

(** C10.  In abstract mode [sqlptree] returns a tree in which every object
    but the root holds a non-empty line without any WHITESPACE token, has
    indent 0, hangs directly under the root at depth 1 and has no leaves of
    its own: the tree is flat. *)
Theorem abstract_tree_is_flat (parse_sql : string -> list (list Token.t)) (sql : string) :
  exists h root,
    SyntaxTree.sqlptree parse_sql sql true "StandardSQL" = Ok (h, 0%nat)
    /\ h !! 0%nat = Some root
    /\ SyntaxTree.depth root = 0 /\ SyntaxTree.parent root = None
    /\ forall i t, h !! i = Some t -> i <> 0%nat ->
         SyntaxTree.tokens t <> []
         /\ (forall tok, tok ∈ SyntaxTree.tokens t -> Token.kind tok <> WHITESPACE)
         /\ SyntaxTree.indent t = 0
         /\ SyntaxTree.parent t = Some 0%nat
         /\ i ∈ SyntaxTree.leaves root
         /\ SyntaxTree.depth t = 1
         /\ SyntaxTree.leaves t = [].
Proof.
  destruct (sqlptree_built parse_sql sql true) as (h & c & Hbuild & Hwf & _ & Hdata).
  pose proof Hwf as ((r & Hr & Hrp & Hrd & Hrt) & Hnodes & Hleaves).
  exists h, r. repeat (split; [assumption |]).
  assert (Hnows : forall i t, h !! i = Some t -> i <> 0%nat ->
                    SyntaxTree.tokens t <> []
                    /\ forall tok, tok ∈ SyntaxTree.tokens t -> Token.kind tok <> WHITESPACE).
  { intros i t Hi Hne.
    assert (Hin : SyntaxTree.tokens t ∈ retained true (parse_sql sql)).
    { rewrite <- Hdata. apply list_elem_of_fmap. exists t. split; [reflexivity |].
      apply list_elem_of_lookup. exists (i - 1)%nat.
      rewrite lookup_drop. replace (1 + (i - 1))%nat with i by lia. exact Hi. }
    cbn [retained] in Hin. apply list_elem_of_filter in Hin as [Hnonempty Hin].
    apply list_elem_of_fmap in Hin as (line & Heq & _).
    split; [exact Hnonempty |].
    intros tok Htok. rewrite Heq in Htok.
    exact (_ignore_token_no_whitespace line tok Htok). }
  assert (Hindent : forall i t, h !! i = Some t -> i <> 0%nat -> SyntaxTree.indent t = 0).
  { intros i t Hi Hne. destruct (Hnows i t Hi Hne) as [_ Hkinds].
    unfold SyntaxTree.indent, Node.indent. unfold SyntaxTree.tokens in Hkinds.
    destruct (Node.tokens (SyntaxTree.node t)) as [| first rest]; [reflexivity |].
    case_bool_decide as Hws; [| reflexivity].
    exfalso. exact (Hkinds first (list_elem_of_here _ _) Hws). }
  assert (Hparent : forall i t, h !! i = Some t -> i <> 0%nat ->
                      SyntaxTree.parent t = Some 0%nat).
  { intros i t Hi Hne.
    destruct (Hnodes i t Hi Hne) as (p & tp & Hpar & _ & Hp & _ & _ & _ & Hstrict).
    destruct (decide (p = 0%nat)) as [-> | Hp0]; [exact Hpar |].
    specialize (Hstrict Hp0). rewrite (Hindent i t Hi Hne) in Hstrict.
    pose proof (Node_indent_nonneg (SyntaxTree.node tp)) as Hnonneg.
    unfold SyntaxTree.indent in Hstrict. lia. }
  intros i t Hi Hne.
  destruct (Hnows i t Hi Hne) as [Hnonempty Hkinds].
  pose proof (Hparent i t Hi Hne) as Hpar.
  destruct (Hnodes i t Hi Hne) as (p & tp & Hpar' & _ & Hp & Hdepth & _ & Hin & _).
  rewrite Hpar in Hpar'. injection Hpar' as <-.
  rewrite Hr in Hp. injection Hp as <-.
  repeat split; try assumption.
  - exact (Hindent i t Hi Hne).
  - lia.
  - destruct (SyntaxTree.leaves t) as [| j ls] eqn:Hls; [reflexivity |].
    exfalso.
    destruct (Hleaves i t j Hi) as (tj & Hj & Hjpar).
    { rewrite Hls. apply list_elem_of_here. }
    destruct (decide (j = 0%nat)) as [-> | Hj0].
    + rewrite Hr in Hj. injection Hj as <-. congruence.
    + rewrite (Hparent j tj Hj Hj0) in Hjpar. injection Hjpar as <-. contradiction.
Qed.

(** * Further properties *)

(** ** How one line changes the heap *)

Lemma sqlptree_line_grows (is_abstract : bool) (done : list (list Token.t))
    (h : SyntaxTree.heap) (c : ref) (line_num : Z) (tokens : list Token.t) :
  0 <= line_num -> built is_abstract done h c ->
  exists h' c',
    SyntaxTree.sqlptree_line is_abstract (h, c) (line_num, tokens) = Ok (h', c')
    /\ grows is_abstract line_num tokens h c h' c'.
Proof.
  intros Hline (Hwf & Hopen & Hdata).
  unfold SyntaxTree.sqlptree_line.
  fold (kept_tokens is_abstract tokens).
  set (kept := kept_tokens is_abstract tokens).
  destruct (is_abstract && bool_decide (kept = [])) eqn:Hskip.
  { exists h, c. split; [reflexivity |].
    apply andb_true_iff in Hskip as [-> Hnil]. apply bool_decide_eq_true in Hnil.
    apply grows_skip; [reflexivity | exact Hnil]. }
  fold (line_indent kept).
  assert (Hc : (c < length h)%nat).
  { destruct Hopen as (t & Ht & _). eapply lookup_lt_Some. exact Ht. }
  destruct (pop_walk_ok h (line_indent kept) (length h) Hwf (length h) c Hc Hopen)
    as (p & tp & Hwalk & Hp & Hopen' & Hindent).
  rewrite Hwalk. cbn [bind]. unfold deref at 1. rewrite Hp. cbn [bind].
  unfold SyntaxTree.__init__, Node.__init__, Node.line_num_setter.
  destruct (Z.ltb_spec (line_num + 1) 0) as [Hneg | _]; [lia |].
  cbn [bind alloc]. unfold SyntaxTree.add_leaf, deref.
  rewrite (lookup_app_l h) by (eapply lookup_lt_Some; exact Hp).
  rewrite Hp. cbn [bind].
  fold (new_leaf is_abstract p tp line_num kept).
  change (<[p := _]> (h ++ [new_leaf is_abstract p tp line_num kept]))
    with (attached h p tp (new_leaf is_abstract p tp line_num kept)).
  eexists _, _. split; [reflexivity |].
  apply grows_attach; try assumption.
  intros -> Hnil. cbn [andb] in Hskip. apply bool_decide_eq_false in Hskip.
  apply Hskip. exact Hnil.
Qed.

Lemma Ok_inj {A : Type} (a b : A) : Ok a = Ok b -> a = b.
Proof. intros H. injection H as ->. reflexivity. Qed.

Lemma sqlptree_line_built_same (is_abstract : bool) (done : list (list Token.t))
    (h : SyntaxTree.heap) (c : ref) (line_num : Z) (tokens : list Token.t)
    (h' : SyntaxTree.heap) (c' : ref) :
  0 <= line_num -> built is_abstract done h c ->
  SyntaxTree.sqlptree_line is_abstract (h, c) (line_num, tokens) = Ok (h', c') ->
  built is_abstract (done ++ [tokens]) h' c'.
Proof.
  intros Hline Hbuilt Hstep.
  destruct (sqlptree_line_built is_abstract done h c line_num tokens Hline Hbuilt)
    as (h1 & c1 & Hstep1 & Hbuilt1).
  rewrite Hstep in Hstep1. apply Ok_inj in Hstep1. injection Hstep1 as <- <-.
  exact Hbuilt1.
Qed.

(** An invariant of the loop of [sqlptree]: it holds of the guard alone and
    every round keeps it, so it holds of the tree [sqlptree] returns. *)
Section LoopInvariant.

Variable is_abstract : bool.
Variable Q : list (list Token.t) -> SyntaxTree.heap -> ref -> Prop.

Hypothesis Q_guard :
  Q [] [ {| SyntaxTree._depth := 0; SyntaxTree.leaves := []; SyntaxTree.parent := None;
            SyntaxTree.node := {| Node._line_num := 0; Node.tokens := [] |};
            SyntaxTree.is_abstract := is_abstract |} ] 0%nat.

Hypothesis Q_grows :
  forall done tokens h c h' c',
    built is_abstract done h c -> Q done h c ->
    grows is_abstract (len done) tokens h c h' c' ->
    Q (done ++ [tokens]) h' c'.

Lemma sqlptree_loop_keeps (lines : list (list Token.t)) :
  forall done h c,
    built is_abstract done h c -> Q done h c ->
    exists h' c',
      for_each (SyntaxTree.sqlptree_line is_abstract)
               (enumerate_from (len done) lines) (h, c) = Ok (h', c')
      /\ built is_abstract (done ++ lines) h' c'
      /\ Q (done ++ lines) h' c'.
Proof.
  induction lines as [| tokens lines IH]; intros done h c Hbuilt HQ.
  - exists h, c. rewrite app_nil_r. split; [reflexivity | split; assumption].
  - destruct (sqlptree_line_grows is_abstract done h c (len done) tokens
                (len_nonneg done) Hbuilt) as (h1 & c1 & Hstep & Hgrows).
    pose proof (sqlptree_line_built_same is_abstract done h c (len done) tokens h1 c1
                  (len_nonneg done) Hbuilt Hstep) as Hbuilt1.
    pose proof (Q_grows done tokens h c h1 c1 Hbuilt HQ Hgrows) as HQ1.
    destruct (IH (done ++ [tokens]) h1 c1 Hbuilt1 HQ1) as (h2 & c2 & Hrest & Hbuilt2 & HQ2).
    exists h2, c2. cbn [enumerate_from for_each]. rewrite Hstep. cbn [bind].
    replace (len done + 1) with (len (done ++ [tokens]))
      by (unfold len; rewrite length_app; cbn [length]; lia).
    rewrite Hrest, <- app_assoc in *. split; [reflexivity | split; assumption].
Qed.

Lemma sqlptree_keeps (parse_sql : string -> list (list Token.t)) (sql : string) :
  exists h c,
    SyntaxTree.sqlptree parse_sql sql is_abstract "StandardSQL" = Ok (h, 0%nat)
    /\ built is_abstract (parse_sql sql) h c
    /\ Q (parse_sql sql) h c.
Proof.
  unfold SyntaxTree.sqlptree. cbn [String.eqb Ascii.eqb Bool.eqb negb].
  cbn [SyntaxTree.__init__ Node.__init__ Node.line_num_setter Z.ltb Z.compare bind
       alloc app length].
  destruct (sqlptree_loop_keeps (parse_sql sql) [] _ 0%nat
              (built_initial is_abstract _ eq_refl) Q_guard)
    as (h & c & Hloop & Hbuilt & HQ).
  exists h, c. unfold enumerate. change (len []) with 0 in Hloop.
  rewrite Hloop. cbn [bind]. split; [reflexivity | split; assumption].
Qed.

End LoopInvariant.

(** An object found in the heap after a leaf was hung is the new leaf or
    an object that was there, the same but for the leaves of the parent. *)
Lemma attached_old (h : SyntaxTree.heap) (p : ref) (tp nw : SyntaxTree.t)
    (j : ref) (tj' : SyntaxTree.t) :
  h !! p = Some tp -> attached h p tp nw !! j = Some tj' ->
  (j = length h /\ tj' = nw)
  \/ ((j < length h)%nat
      /\ exists tj,
           h !! j = Some tj
           /\ SyntaxTree.parent tj' = SyntaxTree.parent tj
           /\ SyntaxTree.node tj' = SyntaxTree.node tj
           /\ SyntaxTree.depth tj' = SyntaxTree.depth tj
           /\ SyntaxTree.is_abstract tj' = SyntaxTree.is_abstract tj
           /\ (SyntaxTree.leaves tj' = SyntaxTree.leaves tj
               \/ (j = p /\ SyntaxTree.leaves tj' = SyntaxTree.leaves tj ++ [length h]))).
Proof.
  intros Hp Hj.
  destruct (attached_lookup_inv h p tp nw Hp j tj' Hj)
    as [[-> ->] | [(Hne & Hlt & Hold) | [-> ->]]].
  - right. split; [eapply lookup_lt_Some; exact Hp |].
    exists tp. repeat split; try assumption. right. split; reflexivity.
  - right. split; [exact Hlt |]. exists tj'. repeat split; try assumption. left. reflexivity.
  - left. split; reflexivity.
Qed.

(** ** Line numbers *)

Lemma numbered_more (is_abstract : bool) (done : list (list Token.t))
    (tokens : list Token.t) (h : SyntaxTree.heap) :
  numbered is_abstract done h -> numbered is_abstract (done ++ [tokens]) h.
Proof.
  intros [Hobj Hmono]. split; [| exact Hmono].
  intros i t Hi. destruct (Hobj i t Hi) as (Hflag & Hroot & Hline).
  split; [exact Hflag | split; [exact Hroot |]]. intros Hne.
  destruct (Hline Hne) as [[Hge Hle] (toks & Htoks & Heq)].
  split.
  - unfold len in *. rewrite length_app. cbn [length]. lia.
  - exists toks. split; [| exact Heq]. apply lookup_app_l_Some. exact Htoks.
Qed.

Lemma numbered_grows (is_abstract : bool) (done : list (list Token.t))
    (tokens : list Token.t) (h : SyntaxTree.heap) (c : ref)
    (h' : SyntaxTree.heap) (c' : ref) :
  built is_abstract done h c -> numbered is_abstract done h ->
  grows is_abstract (len done) tokens h c h' c' ->
  numbered is_abstract (done ++ [tokens]) h'.
Proof.
  intros Hbuilt Hnum Hgrows.
  pose proof (numbered_more is_abstract done tokens h Hnum) as [Hobj Hmono].
  destruct Hnum as [Hobj0 _].
  destruct Hgrows as [Ha Hnil | p tp Hkeep Hwalk Hp Hind]; [split; assumption |].
  set (nw := new_leaf is_abstract p tp (len done) (kept_tokens is_abstract tokens)).
  assert (Hlen : len (done ++ [tokens]) = len done + 1).
  { unfold len. rewrite length_app. cbn [length]. lia. }
  assert (Hbound : forall j tj, h !! j = Some tj -> SyntaxTree.line_num tj <= len done).
  { intros j tj Hj. destruct (Hobj0 j tj Hj) as (_ & Hroot & Hline).
    destruct (decide (j = 0%nat)) as [-> | Hne].
    - rewrite (Hroot eq_refl). apply len_nonneg.
    - destruct (Hline Hne) as [[_ Hle] _]. exact Hle. }
  split.
  - intros i t Hi.
    destruct (attached_old h p tp nw i t Hp Hi)
      as [[-> ->] | (Hlt & told & Hold & _ & Hnode & _ & Hflag & _)].
    + assert (Hne : length h <> 0%nat).
      { apply lookup_lt_Some in Hp. lia. }
      split; [reflexivity |]. split; [intros H0; contradiction |]. intros _.
      unfold SyntaxTree.line_num, SyntaxTree.tokens. cbn [nw new_leaf SyntaxTree.node
        Node.line_num Node._line_num Node.tokens].
      pose proof (len_nonneg done). split; [lia |].
      exists tokens. split; [| reflexivity].
      replace (Z.to_nat (len done + 1 - 1)) with (length done) by (unfold len; lia).
      rewrite lookup_app_r by lia. rewrite Nat.sub_diag. reflexivity.
    + destruct (Hobj i told Hold) as (Hflag' & Hroot & Hline).
      unfold SyntaxTree.line_num, SyntaxTree.tokens in *. rewrite Hnode, Hflag.
      split; [exact Hflag' | split; [exact Hroot | exact Hline]].
  - intros i j ti tj Hi Hj Hij.
    destruct (attached_old h p tp nw j tj Hp Hj)
      as [[-> ->] | (Hjlt & tjold & Hjold & _ & Hjnode & _)].
    + destruct (attached_old h p tp nw i ti Hp Hi)
        as [[-> ->] | (Hilt & tiold & Hiold & _ & Hinode & _)]; [lia |].
      pose proof (Hbound i tiold Hiold) as Hle.
      unfold SyntaxTree.line_num in *. rewrite Hinode.
      cbn [nw new_leaf SyntaxTree.node Node.line_num Node._line_num]. lia.
    + destruct (attached_old h p tp nw i ti Hp Hi)
        as [[-> ->] | (Hilt & tiold & Hiold & _ & Hinode & _)]; [lia |].
      unfold SyntaxTree.line_num in *. rewrite Hinode, Hjnode.
      exact (Hmono i j tiold tjold Hiold Hjold Hij).
Qed.

Lemma sqlptree_numbered (parse_sql : string -> list (list Token.t)) (sql : string)
    (is_abstract : bool) :
  exists h c,
    SyntaxTree.sqlptree parse_sql sql is_abstract "StandardSQL" = Ok (h, 0%nat)
    /\ built is_abstract (parse_sql sql) h c
    /\ numbered is_abstract (parse_sql sql) h.
Proof.
  apply (sqlptree_keeps is_abstract (fun done h _ => numbered is_abstract done h)).
  - split.
    + intros [| i] t Hi; [| discriminate]. injection Hi as <-.
      split; [reflexivity | split; [reflexivity | intros Hne; contradiction]].
    + intros [| i] [| j] ti tj Hi Hj Hij; try discriminate; lia.
  - intros done tokens h c h' c' Hbuilt Hnum Hgrows.
    exact (numbered_grows is_abstract done tokens h c h' c' Hbuilt Hnum Hgrows).
Qed.

Lemma sqlptree_result_unique (parse_sql : string -> list (list Token.t)) (sql : string)
    (is_abstract : bool) (h1 h2 : SyntaxTree.heap) (r1 r2 : ref) :
  SyntaxTree.sqlptree parse_sql sql is_abstract "StandardSQL" = Ok (h1, r1) ->
  SyntaxTree.sqlptree parse_sql sql is_abstract "StandardSQL" = Ok (h2, r2) ->
  h1 = h2.
Proof. intros H1 H2. rewrite H1 in H2. injection H2 as -> _. reflexivity. Qed.

Lemma built_length (is_abstract : bool) (done : list (list Token.t))
    (h : SyntaxTree.heap) (c : ref) :
  built is_abstract done h c -> length h = S (length (retained is_abstract done)).
Proof.
  intros (_ & (t & Ht & _) & Hdata).
  rewrite <- Hdata, length_map, length_drop.
  apply lookup_lt_Some in Ht. lia.
Qed.

(** In non-abstract mode the object at reference [i] is line [i]. *)
Lemma sqlptree_plain_numbered (parse_sql : string -> list (list Token.t)) (sql : string) :
  exists h c,
    SyntaxTree.sqlptree parse_sql sql false "StandardSQL" = Ok (h, 0%nat)
    /\ built false (parse_sql sql) h c
    /\ forall i t, h !! i = Some t -> SyntaxTree.line_num t = Z.of_nat i.
Proof.
  apply (sqlptree_keeps false
           (fun _ h _ => forall i t, h !! i = Some t -> SyntaxTree.line_num t = Z.of_nat i)).
  - intros [| i] t Hi; [| discriminate]. injection Hi as <-. reflexivity.
  - intros done tokens h c h' c' Hbuilt Hnum Hgrows.
    pose proof (built_length false done h c Hbuilt) as Hlen. cbn [retained] in Hlen.
    destruct Hgrows as [Ha Hnil | p tp Hkeep Hwalk Hp Hind]; [exact Hnum |].
    intros i t Hi.
    destruct (attached_old h p tp _ i t Hp Hi)
      as [[-> ->] | (Hlt & told & Hold & _ & Hnode & _)].
    + unfold SyntaxTree.line_num. cbn [new_leaf SyntaxTree.node Node.line_num Node._line_num].
      unfold len. lia.
    + unfold SyntaxTree.line_num in *. rewrite Hnode. exact (Hnum i told Hold).
Qed.

(** X1: sqlptree never fails on the supported dialect.  For the dialect
    StandardSQL it returns a tree for every tokenizer and every text (the
    assert of the while loop cannot fail, no object is built with a negative
    line number); for any other dialect it raises NotImplementedError. *)
Theorem sqlptree_returns_or_rejects_dialect
    (parse_sql : string -> list (list Token.t)) (sql : string) (is_abstract : bool)
    (sql_type : string) :
  (sql_type = "StandardSQL"
   /\ exists h root,
        SyntaxTree.sqlptree parse_sql sql is_abstract sql_type = Ok (h, 0%nat)
        /\ h !! 0%nat = Some root /\ SyntaxTree.parent root = None
        /\ SyntaxTree.tokens root = [] /\ SyntaxTree.line_num root = 0)
  \/ (sql_type <> "StandardSQL"
      /\ SyntaxTree.sqlptree parse_sql sql is_abstract sql_type
         = Raise NotImplementedError).
Proof.
  destruct (String.eqb_spec sql_type "StandardSQL") as [-> | Hne].
  - left. split; [reflexivity |].
    destruct (sqlptree_numbered parse_sql sql is_abstract)
      as (h & c & Hbuild & (((r & Hr & Hrp & _ & Hrt) & _) & _) & (Hobj & _)).
    exists h, r. repeat split; try assumption.
    destruct (Hobj 0%nat r Hr) as (_ & Hline & _). exact (Hline eq_refl).
  - right. split; [exact Hne |]. unfold SyntaxTree.sqlptree.
    destruct (String.eqb_spec sql_type "StandardSQL") as [Heq | _]; [contradiction |].
    reflexivity.
Qed.

(** X2: depth counts the ancestors.  In the tree sqlptree returns the root has
    depth 0 and every other object is exactly one deeper than its parent, so
    no depth is negative and the children of the root have depth 1. *)
Theorem sqlptree_depth_is_parent_depth_plus_one
    (parse_sql : string -> list (list Token.t)) (sql : string) (is_abstract : bool) :
  exists h root,
    SyntaxTree.sqlptree parse_sql sql is_abstract "StandardSQL" = Ok (h, 0%nat)
    /\ h !! 0%nat = Some root /\ SyntaxTree.depth root = 0
    /\ forall i t, h !! i = Some t -> i <> 0%nat ->
         exists p tp,
           SyntaxTree.parent t = Some p /\ h !! p = Some tp
           /\ SyntaxTree.depth t = SyntaxTree.depth tp + 1
           /\ 1 <= SyntaxTree.depth t
           /\ (p = 0%nat -> SyntaxTree.depth t = 1).
Proof.
  destruct (sqlptree_built parse_sql sql is_abstract) as (h & c & Hbuild & Hwf & _).
  pose proof Hwf as ((r & Hr & _ & Hrd & _) & Hnodes & _).
  exists h, r. repeat (split; [assumption |]).
  intros i t Hi Hne.
  destruct (Hnodes i t Hi Hne) as (p & tp & Hpar & _ & Hp & Hd & Hd0 & _).
  exists p, tp. repeat split; try assumption; try lia.
  intros ->. rewrite Hr in Hp. injection Hp as <-. lia.
Qed.

(** X3: line numbers.  Every object but the root carries the 1-based number
    of the source line its tokens are (in abstract mode: after
    [_ignore_token]); the numbers grow strictly with the references, and in
    non-abstract mode the object at reference [i] is line [i]. *)
Theorem sqlptree_line_numbers
    (parse_sql : string -> list (list Token.t)) (sql : string) (is_abstract : bool) :
  exists h,
    SyntaxTree.sqlptree parse_sql sql is_abstract "StandardSQL" = Ok (h, 0%nat)
    /\ (forall i t, h !! i = Some t -> i <> 0%nat ->
          1 <= SyntaxTree.line_num t <= len (parse_sql sql)
          /\ exists tokens,
               parse_sql sql !! Z.to_nat (SyntaxTree.line_num t - 1) = Some tokens
               /\ SyntaxTree.tokens t
                  = if is_abstract then SyntaxTree._ignore_token tokens else tokens)
    /\ (forall i j ti tj, h !! i = Some ti -> h !! j = Some tj -> (i < j)%nat ->
          SyntaxTree.line_num ti < SyntaxTree.line_num tj)
    /\ (is_abstract = false ->
          length h = S (length (parse_sql sql))
          /\ forall i t, h !! i = Some t -> SyntaxTree.line_num t = Z.of_nat i).
Proof.
  destruct (sqlptree_numbered parse_sql sql is_abstract)
    as (h & c & Hbuild & Hbuilt & Hobj & Hmono).
  exists h. split; [exact Hbuild |]. split; [| split; [exact Hmono |]].
  - intros i t Hi Hne. destruct (Hobj i t Hi) as (_ & _ & Hline). exact (Hline Hne).
  - intros ->.
    destruct (sqlptree_plain_numbered parse_sql sql) as (h' & c' & Hbuild' & _ & Hplain).
    rewrite (sqlptree_result_unique _ _ _ _ _ _ _ Hbuild Hbuild').
    rewrite (sqlptree_result_unique _ _ _ _ _ _ _ Hbuild Hbuild') in Hbuilt.
    split; [exact (built_length false _ _ _ Hbuilt) | exact Hplain].
Qed.

(** ** The parent is the nearest shallower line *)

(** The climb only passes objects indented at least as deep as the line. *)
Lemma pop_walk_passes (h : SyntaxTree.heap) (indent : Z) (c0 : ref) :
  nearest h c0 ->
  forall fuel c p,
    (forall j tj, (c < j < length h)%nat -> h !! j = Some tj ->
       indent <= SyntaxTree.indent tj) ->
    SyntaxTree.pop_walk fuel h indent c = Ok p ->
    forall j tj, (p < j < length h)%nat -> h !! j = Some tj ->
      indent <= SyntaxTree.indent tj.
Proof.
  intros [_ Hnear]. induction fuel as [| fuel IH]; intros c p Habove Hwalk; [discriminate |].
  cbn [SyntaxTree.pop_walk] in Hwalk. unfold deref in Hwalk.
  destruct (h !! c) as [pv |] eqn:Hc; [| discriminate]. cbn [bind] in Hwalk.
  destruct ((indent <=? SyntaxTree.indent pv) && (0 <? SyntaxTree.depth pv)) eqn:Hcond.
  - apply andb_true_iff in Hcond as [Hle _]. apply Z.leb_le in Hle.
    destruct (SyntaxTree.parent pv) as [up |] eqn:Hup; [| discriminate].
    apply (IH up p); [| exact Hwalk].
    intros j tj Hj Htj.
    destruct (decide (c < j)%nat) as [Hcj | Hcj]; [apply (Habove j tj); [lia | exact Htj] |].
    destruct (decide (j = c)) as [-> | Hne].
    + rewrite Hc in Htj. injection Htj as <-. exact Hle.
    + pose proof (Hnear c pv up Hc Hup j tj ltac:(lia) Htj). lia.
  - injection Hwalk as <-. exact Habove.
Qed.

Lemma nearest_grows (is_abstract : bool) (done : list (list Token.t))
    (tokens : list Token.t) (h : SyntaxTree.heap) (c : ref)
    (h' : SyntaxTree.heap) (c' : ref) :
  nearest h c -> grows is_abstract (len done) tokens h c h' c' -> nearest h' c'.
Proof.
  intros Hnear Hgrows.
  destruct Hgrows as [Ha Hnil | p tp Hkeep Hwalk Hp Hind]; [exact Hnear |].
  set (kept := kept_tokens is_abstract tokens) in *.
  set (nw := new_leaf is_abstract p tp (len done) kept).
  pose proof (pop_walk_passes h (line_indent kept) c Hnear (length h) c p
                ltac:(destruct Hnear as [Hc _]; intros j tj Hj; lia) Hwalk) as Hpass.
  destruct Hnear as [Hc Hnear].
  split; [rewrite attached_length; reflexivity |].
  intros i t q Hi Hq j tj Hj Htj.
  assert (Hjold : exists tjold, h !! j = Some tjold
                                /\ SyntaxTree.node tj = SyntaxTree.node tjold).
  { destruct (attached_old h p tp nw j tj Hp Htj)
      as [[-> ->] | (_ & tjold & Hjold & _ & Hnode & _)].
    - apply lookup_lt_Some in Hi. rewrite attached_length in Hi. lia.
    - exists tjold. split; assumption. }
  destruct Hjold as (tjold & Hjold & Hjnode).
  unfold SyntaxTree.indent. rewrite Hjnode.
  destruct (attached_old h p tp nw i t Hp Hi)
    as [[-> ->] | (Hilt & told & Hold & Hpar & Hnode & _)].
  - cbn [nw new_leaf SyntaxTree.parent] in Hq. injection Hq as <-.
    exact (Hpass j tjold Hj Hjold).
  - rewrite Hnode. rewrite Hpar in Hq.
    exact (Hnear i told q Hold Hq j tjold Hj Hjold).
Qed.

(** X4: the parent of a line is the nearest line before it that is indented
    strictly less, and the root when there is none: every object between an
    object and its parent is indented at least as deep as the object, and
    the parent is the root or is indented strictly less. *)
Theorem sqlptree_parent_is_nearest_shallower
    (parse_sql : string -> list (list Token.t)) (sql : string) (is_abstract : bool) :
  exists h,
    SyntaxTree.sqlptree parse_sql sql is_abstract "StandardSQL" = Ok (h, 0%nat)
    /\ forall i t, h !! i = Some t -> i <> 0%nat ->
         exists p tp,
           SyntaxTree.parent t = Some p /\ (p < i)%nat /\ h !! p = Some tp
           /\ (p = 0%nat \/ SyntaxTree.indent tp < SyntaxTree.indent t)
           /\ forall j tj, (p < j < i)%nat -> h !! j = Some tj ->
                SyntaxTree.indent t <= SyntaxTree.indent tj.
Proof.
  destruct (sqlptree_keeps is_abstract (fun _ h c => nearest h c)) with
    (parse_sql := parse_sql) (sql := sql) as (h & c & Hbuild & (Hwf & _) & [_ Hnear]).
  - split; [reflexivity |]. intros [| i] t p Hi Hp; [| discriminate].
    injection Hi as <-. discriminate.
  - intros done tokens h c h' c' _ Hnear Hgrows.
    exact (nearest_grows is_abstract done tokens h c h' c' Hnear Hgrows).
  - exists h. split; [exact Hbuild |].
    intros i t Hi Hne. destruct Hwf as (_ & Hnodes & _).
    destruct (Hnodes i t Hi Hne) as (p & tp & Hpar & Hlt & Hp & _ & _ & _ & Hind).
    exists p, tp. repeat split; try assumption.
    + destruct (decide (p = 0%nat)) as [-> | Hp0]; [left; reflexivity | right; auto].
    + exact (Hnear i t p Hi Hpar).
Qed.

(** ** Child order and ownership *)

Lemma ordered_grows (is_abstract : bool) (done : list (list Token.t))
    (tokens : list Token.t) (h : SyntaxTree.heap) (c : ref)
    (h' : SyntaxTree.heap) (c' : ref) :
  built is_abstract done h c -> ordered h ->
  grows is_abstract (len done) tokens h c h' c' -> ordered h'.
Proof.
  intros (Hwf & _) Hord Hgrows.
  destruct Hgrows as [Ha Hnil | p tp Hkeep Hwalk Hp Hind]; [exact Hord |].
  intros q tq a b x y Hq Ha Hb Hab.
  destruct (attached_old h p tp _ q tq Hp Hq)
    as [[-> ->] | (Hqlt & told & Hold & _ & _ & _ & _ & Hleaves)].
  - cbn [new_leaf SyntaxTree.leaves] in Ha. discriminate.
  - destruct Hleaves as [Hsame | [-> Hmore]].
    + rewrite Hsame in Ha, Hb. exact (Hord q told a b x y Hold Ha Hb Hab).
    + rewrite Hmore in Ha, Hb.
      assert (Ha' : SyntaxTree.leaves told !! a = Some x).
      { apply lookup_lt_Some in Hb as Hblt. rewrite length_app in Hblt. cbn [length] in Hblt.
        rewrite lookup_app_l in Ha by lia. exact Ha. }
      destruct (decide (b < length (SyntaxTree.leaves told))%nat) as [Hblt | Hbge].
      * rewrite lookup_app_l in Hb by exact Hblt.
        exact (Hord p told a b x y Hold Ha' Hb Hab).
      * rewrite lookup_app_r in Hb by lia.
        destruct (b - length (SyntaxTree.leaves told))%nat; [| discriminate].
        injection Hb as <-.
        destruct Hwf as (_ & _ & Hlv).
        destruct (Hlv p told x Hold (list_elem_of_lookup_2 _ _ _ Ha')) as (tx & Hx & _).
        eapply lookup_lt_Some. exact Hx.
Qed.

Lemma sqlptree_ordered (parse_sql : string -> list (list Token.t)) (sql : string)
    (is_abstract : bool) :
  exists h c,
    SyntaxTree.sqlptree parse_sql sql is_abstract "StandardSQL" = Ok (h, 0%nat)
    /\ built is_abstract (parse_sql sql) h c
    /\ ordered h.
Proof.
  apply (sqlptree_keeps is_abstract (fun _ h _ => ordered h)).
  - intros [| p] tp a b x y Hp Ha; [| discriminate]. injection Hp as <-. discriminate.
  - intros done tokens h c h' c' Hbuilt Hord Hgrows.
    exact (ordered_grows is_abstract done tokens h c h' c' Hbuilt Hord Hgrows).
Qed.

(** X5: child order is source order.  Of two leaves of the same object the
    one listed first was allocated first and comes from the earlier line. *)
Theorem sqlptree_leaves_in_source_order
    (parse_sql : string -> list (list Token.t)) (sql : string) (is_abstract : bool) :
  exists h,
    SyntaxTree.sqlptree parse_sql sql is_abstract "StandardSQL" = Ok (h, 0%nat)
    /\ forall p tp a b x y, h !! p = Some tp ->
         SyntaxTree.leaves tp !! a = Some x -> SyntaxTree.leaves tp !! b = Some y ->
         (a < b)%nat ->
         (x < y)%nat
         /\ exists tx ty, h !! x = Some tx /\ h !! y = Some ty
                          /\ SyntaxTree.line_num tx < SyntaxTree.line_num ty.
Proof.
  destruct (sqlptree_ordered parse_sql sql is_abstract)
    as (h & c & Hbuild & (Hwf & _) & Hord).
  destruct (sqlptree_numbered parse_sql sql is_abstract)
    as (h' & c' & Hbuild' & _ & _ & Hmono).
  rewrite <- (sqlptree_result_unique _ _ _ _ _ _ _ Hbuild Hbuild') in Hmono.
  exists h. split; [exact Hbuild |].
  intros p tp a b x y Hp Ha Hb Hab.
  pose proof (Hord p tp a b x y Hp Ha Hb Hab) as Hxy.
  split; [exact Hxy |].
  destruct Hwf as (_ & _ & Hlv).
  destruct (Hlv p tp x Hp (list_elem_of_lookup_2 _ _ _ Ha)) as (tx & Hx & _).
  destruct (Hlv p tp y Hp (list_elem_of_lookup_2 _ _ _ Hb)) as (ty & Hy & _).
  exists tx, ty. repeat split; try assumption.
  exact (Hmono x y tx ty Hx Hy Hxy).
Qed.

(** X6: every object but the root is owned once.  It is a leaf of exactly
    one object, its parent, and is listed there exactly once; the root is
    nobody's leaf. *)
Theorem sqlptree_leaf_of_its_parent_only
    (parse_sql : string -> list (list Token.t)) (sql : string) (is_abstract : bool) :
  exists h,
    SyntaxTree.sqlptree parse_sql sql is_abstract "StandardSQL" = Ok (h, 0%nat)
    /\ (forall q tq i, h !! q = Some tq -> i ∈ SyntaxTree.leaves tq ->
          i <> 0%nat
          /\ exists t, h !! i = Some t /\ SyntaxTree.parent t = Some q)
    /\ (forall i t, h !! i = Some t -> i <> 0%nat ->
          exists p tp, SyntaxTree.parent t = Some p /\ h !! p = Some tp
                       /\ i ∈ SyntaxTree.leaves tp)
    /\ (forall q tq, h !! q = Some tq -> NoDup (SyntaxTree.leaves tq)).
Proof.
  destruct (sqlptree_ordered parse_sql sql is_abstract)
    as (h & c & Hbuild & (Hwf & _) & Hord).
  destruct Hwf as ((r & Hr & Hrp & _) & Hnodes & Hlv).
  exists h. split; [exact Hbuild |]. split; [| split].
  - intros q tq i Hq Hi. destruct (Hlv q tq i Hq Hi) as (t & Ht & Hpar).
    split; [| exists t; split; assumption].
    intros ->. rewrite Hr in Ht. injection Ht as <-. congruence.
  - intros i t Hi Hne.
    destruct (Hnodes i t Hi Hne) as (p & tp & Hpar & _ & Hp & _ & _ & Hin & _).
    exists p, tp. repeat split; assumption.
  - intros q tq Hq. apply NoDup_alt. intros a b x Ha Hb.
    destruct (Nat.lt_trichotomy a b) as [Hab | [Hab | Hab]]; [| exact Hab |].
    + pose proof (Hord q tq a b x x Hq Ha Hb Hab). lia.
    + pose proof (Hord q tq b a x x Hq Hb Ha Hab). lia.
Qed.

(** ** What abstract mode keeps *)

Lemma _ignore_token_filter (tokens : list Token.t) :
  SyntaxTree._ignore_token tokens
  = filter (fun tok => Token.kind tok <> WHITESPACE) tokens.
Proof.
  unfold SyntaxTree._ignore_token.
  destruct tokens as [| tok rest]; [reflexivity |].
  replace (len (tok :: rest) =? 0) with false
    by (symmetry; apply Z.eqb_neq; unfold len; cbn [length]; lia).
  apply list_filter_iff. intros x. rewrite list_elem_of_singleton. reflexivity.
Qed.

Lemma _ignore_token_nil_iff (tokens : list Token.t) :
  SyntaxTree._ignore_token tokens = [] <-> ~ has_content tokens.
Proof.
  rewrite _ignore_token_filter. unfold has_content.
  induction tokens as [| tok rest IH].
  - split; [intros _ H; inversion H | reflexivity].
  - rewrite filter_cons. case_decide as Hkind.
    + split; [discriminate |]. intros Hno. exfalso. apply Hno. left. exact Hkind.
    + rewrite IH. split.
      * intros Hno Hex. inversion Hex; subst; contradiction.
      * intros Hno Hex. apply Hno. right. exact Hex.
Qed.

(** X7: [_ignore_token] keeps exactly the tokens that are not whitespace, in
    their order (the test for an empty list changes nothing); applying it
    twice is applying it once, a line without whitespace tokens is returned
    as it is, and the result is empty exactly when every token is
    whitespace. *)
Theorem _ignore_token_keeps_the_rest (tokens : list Token.t) :
  SyntaxTree._ignore_token tokens
  = filter (fun tok => Token.kind tok <> WHITESPACE) tokens
  /\ SyntaxTree._ignore_token (SyntaxTree._ignore_token tokens)
     = SyntaxTree._ignore_token tokens
  /\ (Forall (fun tok => Token.kind tok <> WHITESPACE) tokens ->
        SyntaxTree._ignore_token tokens = tokens)
  /\ (SyntaxTree._ignore_token tokens = []
      <-> Forall (fun tok => Token.kind tok = WHITESPACE) tokens).
Proof.
  split; [apply _ignore_token_filter |]. split; [| split].
  - rewrite !_ignore_token_filter.
    induction tokens as [| tok rest IH]; [reflexivity |].
    rewrite filter_cons. case_decide as Hkind; [| exact IH].
    rewrite filter_cons. case_decide; [| contradiction]. rewrite IH. reflexivity.
  - intros Hall. rewrite _ignore_token_filter.
    induction Hall as [| tok rest Hkind _ IH]; [reflexivity |].
    rewrite filter_cons. case_decide; [| contradiction]. rewrite IH. reflexivity.
  - rewrite _ignore_token_nil_iff. unfold has_content.
    rewrite <- Forall_Exists_neg.
    split; intros Hall; eapply Forall_impl; try exact Hall; cbn; intros tok Htok.
    + destruct (decide (Token.kind tok = WHITESPACE)); [assumption | contradiction].
    + intros Hne. contradiction.
Qed.

Lemma retained_abstract (lines : list (list Token.t)) :
  retained true lines = map SyntaxTree._ignore_token (filter has_content lines).
Proof.
  cbn [retained]. induction lines as [| tokens lines IH]; [reflexivity |].
  cbn [map]. rewrite !filter_cons.
  case_decide as Hkept; case_decide as Hcontent.
  - cbn [map]. rewrite IH. reflexivity.
  - exfalso. apply Hkept. apply _ignore_token_nil_iff. exact Hcontent.
  - exfalso. destruct (SyntaxTree._ignore_token tokens) as [| tok rest] eqn:E.
    + exact (proj1 (_ignore_token_nil_iff tokens) E Hcontent).
    + first [discriminate Hkept | apply Hkept; discriminate].
  - exact IH.
Qed.

(** X8: one object per line.  In non-abstract mode the objects after the
    root hold the token lists of the lines, blank lines included, one by one
    and unchanged; in abstract mode they hold, in order, the non-whitespace
    tokens of the lines that have any. *)
Theorem sqlptree_objects_are_the_lines
    (parse_sql : string -> list (list Token.t)) (sql : string) :
  (exists h,
      SyntaxTree.sqlptree parse_sql sql false "StandardSQL" = Ok (h, 0%nat)
      /\ map SyntaxTree.tokens (drop 1 h) = parse_sql sql)
  /\ (exists h,
        SyntaxTree.sqlptree parse_sql sql true "StandardSQL" = Ok (h, 0%nat)
        /\ map SyntaxTree.tokens (drop 1 h)
           = map SyntaxTree._ignore_token (filter has_content (parse_sql sql))).
Proof.
  split.
  - destruct (sqlptree_built parse_sql sql false) as (h & c & Hbuild & _ & _ & Hdata).
    exists h. split; [exact Hbuild | exact Hdata].
  - destruct (sqlptree_built parse_sql sql true) as (h & c & Hbuild & _ & _ & Hdata).
    exists h. split; [exact Hbuild |]. rewrite Hdata. apply retained_abstract.
Qed.

(** X9: what [sqlftree] gives back, for any tokenizer.  From the tree of
    non-abstract mode it is the texts of all lines joined by newlines; from
    the tree of abstract mode it is the texts of the lines that have
    content, each without its whitespace tokens. *)
Theorem sqlftree_joins_the_kept_lines
    (parse_sql : string -> list (list Token.t)) (sql : string) :
  (exists h,
      SyntaxTree.sqlptree parse_sql sql false "StandardSQL" = Ok (h, 0%nat)
      /\ SyntaxTree.sqlftree h 0%nat
         = Ok (join_lines (map line_text (parse_sql sql))))
  /\ (exists h,
        SyntaxTree.sqlptree parse_sql sql true "StandardSQL" = Ok (h, 0%nat)
        /\ SyntaxTree.sqlftree h 0%nat
           = Ok (join_lines
                   (map (fun tokens => line_text (SyntaxTree._ignore_token tokens))
                        (filter has_content (parse_sql sql))))).
Proof.
  split.
  - destruct (sqlptree_built parse_sql sql false) as (h & c & Hbuild & Hbuilt).
    exists h. split; [exact Hbuild |]. unfold SyntaxTree.sqlftree.
    rewrite (_sqlftree_retained false _ h c Hbuilt). reflexivity.
  - destruct (sqlptree_built parse_sql sql true) as (h & c & Hbuild & Hbuilt).
    exists h. split; [exact Hbuild |]. unfold SyntaxTree.sqlftree.
    rewrite (_sqlftree_retained true _ h c Hbuilt), retained_abstract, map_map.
    reflexivity.
Qed.

(** ** Node: positions out of range *)

Lemma sum_lengths_nonneg (tokens : list Token.t) : 0 <= sum (map Token.__len__ tokens).
Proof.
  induction tokens as [| tok rest IH]; [unfold sum; simpl; lia |].
  unfold sum in *. cbn [map foldr]. unfold Token.__len__ at 1, str_len. lia.
Qed.

Lemma get_position_clamped (self : Node.t) (index : Z) :
  Node.get_position self index
  = 1 + sum (map Token.__len__
               (take (Z.to_nat (Z.min (Z.max index 0) (len (Node.tokens self))))
                     (Node.tokens self))).
Proof.
  unfold Node.get_position, slice.
  pose proof (len_nonneg (Node.tokens self)) as Hlen.
  rewrite (clamp_index_inside _ 0) by lia.
  replace (clamp_index (len (Node.tokens self)) (Z.max index 0))
    with (Z.min (Z.max index 0) (len (Node.tokens self))).
  - rewrite Z.sub_0_r. change (Z.to_nat 0) with 0%nat. rewrite drop_0. lia.
  - unfold clamp_index. destruct (Z.ltb_spec (Z.max index 0) 0); [lia | reflexivity].
Qed.

(** X10: [get_position] clamps its index.  An index of 0 or less gives column
    1, an index of the number of tokens or more gives the column just after
    the text of the line, and a larger index never gives a smaller
    column. *)
Theorem get_position_clamps_index (self : Node.t) :
  (forall index, index <= 0 -> Node.get_position self index = 1)
  /\ (forall index, Node.__len__ self <= index ->
        Node.get_position self index = 1 + str_len (Node.text self))
  /\ (forall i j, i <= j -> Node.get_position self i <= Node.get_position self j).
Proof.
  pose proof (len_nonneg (Node.tokens self)) as Hlen.
  split; [| split].
  - intros index Hneg. rewrite get_position_clamped.
    replace (Z.min (Z.max index 0) (len (Node.tokens self))) with 0 by lia.
    reflexivity.
  - intros index Hbig. unfold Node.__len__ in Hbig. rewrite get_position_clamped.
    replace (Z.min (Z.max index 0) (len (Node.tokens self)))
      with (len (Node.tokens self)) by lia.
    unfold len at 1. rewrite Nat2Z.id, take_ge by lia.
    unfold Node.text. rewrite str_len_join_empty, map_map. reflexivity.
  - intros i j Hij. rewrite !get_position_clamped.
    set (a := Z.to_nat (Z.min (Z.max i 0) (len (Node.tokens self)))).
    set (b := Z.to_nat (Z.min (Z.max j 0) (len (Node.tokens self)))).
    assert (Hab : (a <= b)%nat) by (subst a b; lia).
    replace b with (a + (b - a))%nat by lia.
    rewrite <- take_take_drop, map_app, sum_app.
    pose proof (sum_lengths_nonneg (take (b - a) (drop a (Node.tokens self)))). lia.
Qed.

(** ** Node: how the trims compose *)

Lemma ltrim_run (K : list Kind) (run rest : list Token.t) :
  Forall (fun tok => Token.kind tok ∈ K) run ->
  (forall tok, head rest = Some tok -> Token.kind tok ∉ K) ->
  ltrim K (run ++ rest) = rest.
Proof.
  intros Hrun Hrest. induction Hrun as [| tok run Hin _ IH].
  - destruct rest as [| tok rest]; [reflexivity |].
    cbn [app ltrim]. case_decide as Hk; [| reflexivity].
    exfalso. exact (Hrest tok eq_refl Hk).
  - cbn [app ltrim]. case_decide; [exact IH | contradiction].
Qed.

Lemma rtrim_run (K : list Kind) (rest run : list Token.t) :
  Forall (fun tok => Token.kind tok ∈ K) run ->
  (forall tok, last rest = Some tok -> Token.kind tok ∉ K) ->
  rtrim K (rest ++ run) = rest.
Proof.
  intros Hrun Hrest. unfold rtrim. rewrite reverse_app, ltrim_run.
  - apply reverse_involutive.
  - apply Forall_reverse. exact Hrun.
  - intros tok Hhead. apply Hrest. rewrite <- Hhead, <- last_reverse, reverse_involutive.
    reflexivity.
Qed.

Lemma ltrim_split (K : list Kind) (tokens : list Token.t) :
  exists run,
    tokens = run ++ ltrim K tokens
    /\ Forall (fun tok => Token.kind tok ∈ K) run
    /\ forall tok, head (ltrim K tokens) = Some tok -> Token.kind tok ∉ K.
Proof.
  induction tokens as [| tok rest (run & Heq & Hrun & Hhead)].
  - exists []. repeat split; [constructor | discriminate].
  - cbn [ltrim]. case_decide as Hk.
    + exists (tok :: run). cbn [app]. rewrite <- Heq. repeat split; [| exact Hhead].
      constructor; assumption.
    + exists []. repeat split; [constructor |]. intros tok' [= <-]. exact Hk.
Qed.

Lemma rtrim_split (K : list Kind) (tokens : list Token.t) :
  exists run,
    tokens = rtrim K tokens ++ run
    /\ Forall (fun tok => Token.kind tok ∈ K) run
    /\ forall tok, last (rtrim K tokens) = Some tok -> Token.kind tok ∉ K.
Proof.
  destruct (ltrim_split K (reverse tokens)) as (run & Heq & Hrun & Hhead).
  exists (reverse run). unfold rtrim. repeat split.
  - rewrite <- reverse_app, <- Heq, reverse_involutive. reflexivity.
  - apply Forall_reverse. exact Hrun.
  - intros tok Hlast. apply Hhead. rewrite <- Hlast, last_reverse. reflexivity.
Qed.

Lemma ltrim_idempotent (K : list Kind) (tokens : list Token.t) :
  ltrim K (ltrim K tokens) = ltrim K tokens.
Proof.
  destruct (ltrim_split K tokens) as (run & _ & _ & Hhead).
  apply (ltrim_run K [] (ltrim K tokens)); [constructor | exact Hhead].
Qed.

Lemma rtrim_idempotent (K : list Kind) (tokens : list Token.t) :
  rtrim K (rtrim K tokens) = rtrim K tokens.
Proof.
  unfold rtrim. rewrite reverse_involutive, ltrim_idempotent. reflexivity.
Qed.

Lemma head_app_nonempty {A : Type} (l k : list A) : l <> [] -> head (l ++ k) = head l.
Proof. destruct l; [contradiction | reflexivity]. Qed.

Lemma rtrim_ltrim (K : list Kind) (tokens : list Token.t) :
  ltrim K (rtrim K tokens) = rtrim K (ltrim K tokens).
Proof.
  destruct (ltrim_split K tokens) as (lrun & Hl & Hlrun & Hhead).
  destruct (rtrim_split K (ltrim K tokens)) as (rrun & Hr & Hrrun & Hlast).
  set (mid := rtrim K (ltrim K tokens)) in *.
  destruct mid as [| m mid'] eqn:Hmid.
  - cbn [app] in Hr.
    assert (Hnil : ltrim K tokens = []).
    { destruct (ltrim K tokens) as [| tok rest]; [reflexivity |].
      exfalso. subst rrun. inversion Hrrun; subst. exact (Hhead tok eq_refl H1). }
    rewrite Hnil, app_nil_r in Hl.
    assert (Hall : rtrim K lrun = []).
    { apply (rtrim_run K [] lrun); [exact Hlrun | discriminate]. }
    rewrite Hl at 1. rewrite Hall. reflexivity.
  - assert (Hsplit : tokens = (lrun ++ m :: mid') ++ rrun).
    { rewrite <- app_assoc, <- Hr. exact Hl. }
    rewrite Hsplit at 1. rewrite (rtrim_run K (lrun ++ m :: mid') rrun Hrrun).
    + apply ltrim_run; [exact Hlrun |].
      intros tok Htok. apply Hhead. rewrite Hr.
      rewrite head_app_nonempty by discriminate. exact Htok.
    + intros tok Htok. apply Hlast. rewrite last_app in Htok.
      destruct (last (m :: mid')) eqn:E; [exact Htok |].
      apply last_None in E. discriminate E.
Qed.

Lemma ltrip_kind_ltrim (s : Node.store) (self : ref) (me : Node.t) (K : list Kind) :
  s !! self = Some me -> 0 <= Node.line_num me ->
  Node.ltrip_kind s self K
  = Ok (s ++ [Node.mk (Node.line_num me) (ltrim K (Node.tokens me))], length s).
Proof.
  intros Hself Hline.
  destruct (ltrip_kind_run s self me K Hself Hline) as (run & rest & Heq & Hrun & Hrest & Hop).
  rewrite Hop, Heq, (ltrim_run K run rest Hrun Hrest). reflexivity.
Qed.

Lemma rtrip_kind_rtrim (s : Node.store) (self : ref) (me : Node.t) (K : list Kind) :
  s !! self = Some me -> 0 <= Node.line_num me ->
  Node.rtrip_kind s self K
  = Ok (s ++ [Node.mk (Node.line_num me) (rtrim K (Node.tokens me))], length s).
Proof.
  intros Hself Hline.
  destruct (rtrip_kind_run s self me K Hself Hline) as (rest & run & Heq & Hrun & Hrest & Hop).
  rewrite Hop, Heq, (rtrim_run K rest run Hrun Hrest). reflexivity.
Qed.

Lemma trip_kind_trim (s : Node.store) (self : ref) (me : Node.t) (K : list Kind) :
  s !! self = Some me -> 0 <= Node.line_num me ->
  Node.trip_kind s self K
  = Ok (s ++ [Node.mk (Node.line_num me) (ltrim K (Node.tokens me));
              Node.mk (Node.line_num me) (rtrim K (ltrim K (Node.tokens me)))],
        S (length s)).
Proof.
  intros Hself Hline. unfold Node.trip_kind.
  rewrite (ltrip_kind_ltrim s self me K Hself Hline). cbn [bind].
  rewrite (rtrip_kind_rtrim _ (length s)
             (Node.mk (Node.line_num me) (ltrim K (Node.tokens me))) K).
  - rewrite <- app_assoc, length_app. cbn [app length Node.line_num Node._line_num
      Node.tokens]. rewrite Nat.add_1_r. reflexivity.
  - apply list_lookup_middle. reflexivity.
  - exact Hline.
Qed.

(** X11: trimming twice is trimming once.  Applied to the Node it returned,
    each of [ltrip_kind], [rtrip_kind] and [trip_kind] returns a Node with
    the same line number and the same tokens. *)
Theorem trims_are_idempotent (s : Node.store) (self : ref) (me : Node.t) (K : list Kind) :
  s !! self = Some me -> 0 <= Node.line_num me ->
  (exists s1 r1 once s2 r2,
      Node.ltrip_kind s self K = Ok (s1, r1) /\ s1 !! r1 = Some once
      /\ Node.ltrip_kind s1 r1 K = Ok (s2, r2) /\ s2 !! r2 = Some once)
  /\ (exists s1 r1 once s2 r2,
        Node.rtrip_kind s self K = Ok (s1, r1) /\ s1 !! r1 = Some once
        /\ Node.rtrip_kind s1 r1 K = Ok (s2, r2) /\ s2 !! r2 = Some once)
  /\ (exists s1 r1 once s2 r2,
        Node.trip_kind s self K = Ok (s1, r1) /\ s1 !! r1 = Some once
        /\ Node.trip_kind s1 r1 K = Ok (s2, r2) /\ s2 !! r2 = Some once).
Proof.
  intros Hself Hline. split; [| split].
  - eexists _, _, _, _, _. split; [apply (ltrip_kind_ltrim s self me K Hself Hline) |].
    split; [apply list_lookup_middle; reflexivity |].
    split; [apply ltrip_kind_ltrim; [apply list_lookup_middle; reflexivity | exact Hline] |].
    cbn [Node.tokens Node.line_num Node._line_num]. rewrite ltrim_idempotent.
    apply list_lookup_middle. reflexivity.
  - eexists _, _, _, _, _. split; [apply (rtrip_kind_rtrim s self me K Hself Hline) |].
    split; [apply list_lookup_middle; reflexivity |].
    split; [apply rtrip_kind_rtrim; [apply list_lookup_middle; reflexivity | exact Hline] |].
    cbn [Node.tokens Node.line_num Node._line_num]. rewrite rtrim_idempotent.
    apply list_lookup_middle. reflexivity.
  - assert (Hlast : forall (l : Node.store) (x y : Node.t),
                      (l ++ [x; y]) !! S (length l) = Some y).
    { intros l x y. change (l ++ [x; y]) with (l ++ [x] ++ [y]). rewrite app_assoc.
      apply list_lookup_middle. rewrite length_app. cbn [length]. lia. }
    eexists _, _, _, _, _. split; [apply (trip_kind_trim s self me K Hself Hline) |].
    split; [apply Hlast |].
    split; [apply trip_kind_trim; [apply Hlast | exact Hline] |].
    cbn [Node.tokens Node.line_num Node._line_num].
    rewrite rtrim_ltrim, rtrim_idempotent, <- rtrim_ltrim, ltrim_idempotent, rtrim_ltrim.
    apply Hlast.
Qed.

Lemma trims_are_idempotent_witness :
  let space := Token.mk " " WHITESPACE in
  let a := Token.mk "a" IDENTIFIER in
  let me := Node.mk 4 [space; a; space; a; space; space] in
  exists s1 r1 once s2 r2,
    Node.trip_kind [me] 0%nat [WHITESPACE] = Ok (s1, r1) /\ s1 !! r1 = Some once
    /\ Node.trip_kind s1 r1 [WHITESPACE] = Ok (s2, r2) /\ s2 !! r2 = Some once.
Proof.
  intros space a me.
  exact (proj2 (proj2 (trims_are_idempotent [me] 0%nat me [WHITESPACE] eq_refl
                         ltac:(vm_compute; discriminate)))).
Defined.

(** X12: the two trims commute.  [trip_kind] trims the head first; trimming
    the tail first and the head of the result gives a Node with the same
    line number and the same tokens. *)
Theorem trims_commute (s : Node.store) (self : ref) (me : Node.t) (K : list Kind) :
  s !! self = Some me -> 0 <= Node.line_num me ->
  exists s1 r1 both s2 r2 s3 r3,
    Node.trip_kind s self K = Ok (s1, r1) /\ s1 !! r1 = Some both
    /\ Node.rtrip_kind s self K = Ok (s2, r2)
    /\ Node.ltrip_kind s2 r2 K = Ok (s3, r3) /\ s3 !! r3 = Some both.
Proof.
  intros Hself Hline.
  eexists _, _, _, _, _, _, _. split; [apply (trip_kind_trim s self me K Hself Hline) |].
  split.
  { change (s ++ [?x; ?y]) with (s ++ [x] ++ [y]). rewrite app_assoc.
    apply list_lookup_middle. rewrite length_app. cbn [length]. lia. }
  split; [apply (rtrip_kind_rtrim s self me K Hself Hline) |].
  split; [apply ltrip_kind_ltrim; [apply list_lookup_middle; reflexivity | exact Hline] |].
  cbn [Node.tokens Node.line_num Node._line_num]. rewrite rtrim_ltrim.
  apply list_lookup_middle. reflexivity.
Qed.

Lemma trims_commute_witness :
  let space := Token.mk " " WHITESPACE in
  let a := Token.mk "a" IDENTIFIER in
  let me := Node.mk 4 [space; a; space; a; space; space] in
  exists s1 r1 both s2 r2 s3 r3,
    Node.trip_kind [me] 0%nat [WHITESPACE] = Ok (s1, r1) /\ s1 !! r1 = Some both
    /\ Node.rtrip_kind [me] 0%nat [WHITESPACE] = Ok (s2, r2)
    /\ Node.ltrip_kind s2 r2 [WHITESPACE] = Ok (s3, r3) /\ s3 !! r3 = Some both.
Proof.
  intros space a me.
  exact (trims_commute [me] 0%nat me [WHITESPACE] eq_refl ltac:(vm_compute; discriminate)).
Defined.

(** ** Node: appending in place *)

Lemma join_empty_cons (p : string) (rest : list string) :
  join "" (p :: rest) = p +:+ join "" rest.
Proof.
  destruct rest as [| q rest]; [cbn [join]; rewrite string_app_nil_r; reflexivity |].
  reflexivity.
Qed.

Lemma string_app_assoc (a b c : string) : (a +:+ b) +:+ c = a +:+ (b +:+ c).
Proof.
  induction a as [| x a IH]; [reflexivity |].
  change (String x ((a +:+ b) +:+ c) = String x (a +:+ (b +:+ c))). rewrite IH. reflexivity.
Qed.

Lemma line_text_app (xs ys : list Token.t) :
  line_text (xs ++ ys) = line_text xs +:+ line_text ys.
Proof.
  unfold line_text. induction xs as [| x xs IH]; [reflexivity |].
  cbn [app map]. rewrite !join_empty_cons, IH, string_app_assoc. reflexivity.
Qed.

Lemma Node_extend_ok (m : Node.memory) (self : ref) (me : Node.object)
    (held tokens : list Token.t) :
  Node.nodes m !! self = Some me ->
  Node.lists m !! Node.object_tokens me = Some held ->
  Node.extend m self tokens
  = Ok {| Node.nodes := Node.nodes m;
          Node.lists := <[Node.object_tokens me := held ++ tokens]> (Node.lists m) |}.
Proof.
  intros Hself Hheld. unfold Node.extend, deref. rewrite Hself. cbn [bind].
  rewrite Hheld. reflexivity.
Qed.

Lemma Node_load_ok (m : Node.memory) (r : ref) (other : Node.object)
    (held : list Token.t) :
  Node.nodes m !! r = Some other ->
  Node.lists m !! Node.object_tokens other = Some held ->
  Node.load m r = Ok (Node.mk (Node.object_line_num other) held).
Proof.
  intros Hr Hheld. unfold Node.load, deref. rewrite Hr. cbn [bind].
  rewrite Hheld. reflexivity.
Qed.

(** X13: [append] and [extend] change the list object the Node holds, in
    place.  No Node object changes (each keeps its reference, its line
    number and its list), the list grows by the tokens given, so every Node
    that holds the same list shows the new tokens and every Node that holds
    another list shows what it showed; the text grows by the words appended,
    and extending by a list is appending its tokens one by one. *)
Theorem append_extend_in_place (m : Node.memory) (self : ref) (me : Node.object)
    (held tokens : list Token.t) :
  Node.nodes m !! self = Some me ->
  Node.lists m !! Node.object_tokens me = Some held ->
  (exists m',
      Node.extend m self tokens = Ok m'
      /\ Node.nodes m' = Node.nodes m
      /\ Node.lists m' !! Node.object_tokens me = Some (held ++ tokens)
      /\ length (Node.lists m') = length (Node.lists m)
      /\ (forall l, l <> Node.object_tokens me ->
            Node.lists m' !! l = Node.lists m !! l)
      /\ (forall r other, Node.nodes m !! r = Some other ->
            Node.object_tokens other = Node.object_tokens me ->
            Node.load m' r = Ok (Node.mk (Node.object_line_num other) (held ++ tokens)))
      /\ (forall r other, Node.nodes m !! r = Some other ->
            Node.object_tokens other <> Node.object_tokens me ->
            Node.load m' r = Node.load m r)
      /\ Node.text (Node.mk (Node.object_line_num me) (held ++ tokens))
         = Node.text (Node.mk (Node.object_line_num me) held) +:+ line_text tokens)
  /\ Node.extend m self tokens
     = for_each (fun st tok => Node.append st self tok) tokens m
  /\ (forall tok, Node.append m self tok = Node.extend m self [tok]).
Proof.
  intros Hself Hheld.
  assert (Hlt : (Node.object_tokens me < length (Node.lists m))%nat)
    by (eapply lookup_lt_Some; exact Hheld).
  split; [| split].
  - eexists. split; [apply (Node_extend_ok m self me held tokens Hself Hheld) |].
    cbn [Node.nodes Node.lists].
    split; [reflexivity |].
    split; [apply list_lookup_insert_eq; exact Hlt |].
    split; [apply length_insert |].
    split; [intros l Hne; apply list_lookup_insert_ne; congruence |].
    split; [| split].
    + intros r other Hr Hsame. apply Node_load_ok; [exact Hr |].
      cbn [Node.lists]. rewrite Hsame. apply list_lookup_insert_eq. exact Hlt.
    + intros r other Hr Hother. unfold Node.load, deref. cbn [Node.nodes Node.lists].
      rewrite Hr. cbn [bind]. rewrite list_lookup_insert_ne by congruence. reflexivity.
    + apply (line_text_app held tokens).
  - revert m held Hself Hheld Hlt.
    induction tokens as [| tok rest IH]; intros m held Hself Hheld Hlt.
    + rewrite (Node_extend_ok m self me held [] Hself Hheld), app_nil_r. cbn [for_each].
      rewrite list_insert_id by exact Hheld. destruct m; reflexivity.
    + cbn [for_each]. unfold Node.append at 1, deref. rewrite Hself. cbn [bind].
      rewrite Hheld. cbn [bind].
      rewrite <- (IH _ (held ++ [tok])).
      * rewrite (Node_extend_ok m self me held (tok :: rest) Hself Hheld).
        rewrite (Node_extend_ok _ self me (held ++ [tok]) rest).
        -- cbn [Node.nodes Node.lists]. rewrite list_insert_insert_eq.
           rewrite <- app_assoc. reflexivity.
        -- exact Hself.
        -- cbn [Node.lists]. apply list_lookup_insert_eq. exact Hlt.
      * exact Hself.
      * cbn [Node.lists]. apply list_lookup_insert_eq. exact Hlt.
      * cbn [Node.lists]. rewrite length_insert. exact Hlt.
  - intros tok. unfold Node.append, Node.extend. reflexivity.
Qed.

Lemma append_extend_in_place_witness :
  let a := Token.mk "a" IDENTIFIER in
  let comma := Token.mk "," COMMA in
  let b := Token.mk "b" IDENTIFIER in
  let m := {| Node.nodes := [Node.mk_object 2 0; Node.mk_object 3 1; Node.mk_object 4 0];
              Node.lists := [[a]; []] |} in
  exists m',
    Node.extend m 0%nat [comma; b] = Ok m'
    /\ Node.load m' 0%nat = Ok (Node.mk 2 [a; comma; b])
    /\ Node.load m' 1%nat = Ok (Node.mk 3 [])
    /\ Node.load m' 2%nat = Ok (Node.mk 4 [a; comma; b]).
Proof.
  intros a comma b m.
  destruct (append_extend_in_place m 0%nat (Node.mk_object 2 0) [a] [comma; b]
              eq_refl eq_refl)
    as ((m' & Hop & _ & _ & _ & _ & Hshared & Hother & _) & _).
  exists m'. split; [exact Hop |].
  split; [exact (Hshared 0%nat (Node.mk_object 2 0) eq_refl eq_refl) |].
  split; [rewrite (Hother 1%nat (Node.mk_object 3 1) eq_refl ltac:(discriminate));
          reflexivity |].
  exact (Hshared 2%nat (Node.mk_object 4 0) eq_refl eq_refl).
Defined.

Lemma Node_construct_given (m : Node.memory) (n : Z) (given : ref) :
  0 <= n ->
  Node.construct m n (Some given)
  = Ok ({| Node.nodes := Node.nodes m ++ [Node.mk_object n given];
           Node.lists := Node.lists m |}, length (Node.nodes m)).
Proof.
  intros Hn. unfold Node.construct, Node.line_num_setter, alloc.
  destruct (n <? 0) eqn:Hlt; [lia | reflexivity].
Qed.

Lemma Node_construct_fresh (m : Node.memory) (n : Z) :
  0 <= n ->
  Node.construct m n None
  = Ok ({| Node.nodes := Node.nodes m ++ [Node.mk_object n (length (Node.lists m))];
           Node.lists := Node.lists m ++ [[]] |}, length (Node.nodes m)).
Proof.
  intros Hn. unfold Node.construct, Node.line_num_setter, alloc.
  destruct (n <? 0) eqn:Hlt; [lia | reflexivity].
Qed.

(** X25: a Node keeps the list it is built from.  Two Nodes built from one
    list object are two objects that hold that one list (the constructor
    makes and copies no list), so a token appended through the first shows
    in the second; two Nodes built without a list each get a new, empty list
    of their own, and a token appended to one does not show in the other nor
    in any list that was there before. *)
Theorem Nodes_built_from_one_list_share_it (m : Node.memory) (given : ref)
    (held : list Token.t) (n1 n2 : Z) (tok : Token.t) :
  Node.lists m !! given = Some held -> 0 <= n1 -> 0 <= n2 ->
  (exists m1 a m2 b m3,
      Node.construct m n1 (Some given) = Ok (m1, a)
      /\ Node.construct m1 n2 (Some given) = Ok (m2, b)
      /\ a <> b
      /\ Node.lists m2 = Node.lists m
      /\ Node.load m2 a = Ok (Node.mk n1 held)
      /\ Node.load m2 b = Ok (Node.mk n2 held)
      /\ Node.append m2 a tok = Ok m3
      /\ Node.load m3 a = Ok (Node.mk n1 (held ++ [tok]))
      /\ Node.load m3 b = Ok (Node.mk n2 (held ++ [tok])))
  /\ (exists m1 a m2 b m3,
        Node.construct m n1 None = Ok (m1, a)
        /\ Node.construct m1 n2 None = Ok (m2, b)
        /\ a <> b
        /\ Node.append m2 a tok = Ok m3
        /\ Node.load m3 a = Ok (Node.mk n1 [tok])
        /\ Node.load m3 b = Ok (Node.mk n2 [])
        /\ forall l, (l < length (Node.lists m))%nat ->
             Node.lists m3 !! l = Node.lists m !! l).
Proof.
  intros Hheld Hn1 Hn2.
  assert (Hgiven : (given < length (Node.lists m))%nat)
    by (eapply lookup_lt_Some; exact Hheld).
  split.
  - set (o1 := Node.mk_object n1 given). set (o2 := Node.mk_object n2 given).
    set (m1 := {| Node.nodes := Node.nodes m ++ [o1]; Node.lists := Node.lists m |}).
    set (m2 := {| Node.nodes := (Node.nodes m ++ [o1]) ++ [o2];
                  Node.lists := Node.lists m |}).
    set (m3 := {| Node.nodes := (Node.nodes m ++ [o1]) ++ [o2];
                  Node.lists := <[given := held ++ [tok]]> (Node.lists m) |}).
    assert (Ha : Node.nodes m2 !! length (Node.nodes m) = Some o1).
    { cbn [m2 Node.nodes]. rewrite <- app_assoc. rewrite lookup_app_r by lia.
      rewrite Nat.sub_diag. reflexivity. }
    assert (Hb : Node.nodes m2 !! length (Node.nodes m ++ [o1]) = Some o2).
    { cbn [m2 Node.nodes]. rewrite lookup_app_r by lia.
      rewrite Nat.sub_diag. reflexivity. }
    exists m1, (length (Node.nodes m)), m2, (length (Node.nodes m ++ [o1])), m3.
    split; [exact (Node_construct_given m n1 given Hn1) |].
    split; [exact (Node_construct_given m1 n2 given Hn2) |].
    split; [rewrite length_app; cbn [length]; lia |].
    split; [reflexivity |].
    split; [exact (Node_load_ok m2 _ o1 held Ha Hheld) |].
    split; [exact (Node_load_ok m2 _ o2 held Hb Hheld) |].
    split.
    { unfold Node.append, deref. rewrite Ha. cbn [bind].
      change (Node.lists m2 !! Node.object_tokens o1) with (Node.lists m !! given).
      rewrite Hheld. reflexivity. }
    split.
    + apply (Node_load_ok m3 _ o1 (held ++ [tok]) Ha).
      apply list_lookup_insert_eq. exact Hgiven.
    + apply (Node_load_ok m3 _ o2 (held ++ [tok]) Hb).
      apply list_lookup_insert_eq. exact Hgiven.
  - set (l1 := length (Node.lists m)).
    set (l2 := length (Node.lists m ++ [[]])).
    assert (Hl2 : l2 = S l1) by (unfold l1, l2; rewrite length_app; cbn [length]; lia).
    set (o1 := Node.mk_object n1 l1). set (o2 := Node.mk_object n2 l2).
    set (m1 := {| Node.nodes := Node.nodes m ++ [o1];
                  Node.lists := Node.lists m ++ [[]] |}).
    set (m2 := {| Node.nodes := (Node.nodes m ++ [o1]) ++ [o2];
                  Node.lists := (Node.lists m ++ [[]]) ++ [[]] |}).
    set (m3 := {| Node.nodes := (Node.nodes m ++ [o1]) ++ [o2];
                  Node.lists := <[l1 := [tok]]> ((Node.lists m ++ [[]]) ++ [[]]) |}).
    assert (Ha : Node.nodes m2 !! length (Node.nodes m) = Some o1).
    { cbn [m2 Node.nodes]. rewrite <- app_assoc. rewrite lookup_app_r by lia.
      rewrite Nat.sub_diag. reflexivity. }
    assert (Hb : Node.nodes m2 !! length (Node.nodes m ++ [o1]) = Some o2).
    { cbn [m2 Node.nodes]. rewrite lookup_app_r by lia.
      rewrite Nat.sub_diag. reflexivity. }
    assert (H1 : Node.lists m2 !! l1 = Some (@nil Token.t)).
    { cbn [m2 Node.lists]. rewrite <- app_assoc.
      rewrite lookup_app_r by (unfold l1; lia).
      unfold l1. rewrite Nat.sub_diag. reflexivity. }
    assert (Hlen : (l1 < length (Node.lists m2))%nat).
    { cbn [m2 Node.lists]. rewrite !length_app. cbn [length]. unfold l1. lia. }
    exists m1, (length (Node.nodes m)), m2, (length (Node.nodes m ++ [o1])), m3.
    split; [exact (Node_construct_fresh m n1 Hn1) |].
    split; [exact (Node_construct_fresh m1 n2 Hn2) |].
    split; [rewrite length_app; cbn [length]; lia |].
    split.
    { unfold Node.append, deref. rewrite Ha. cbn [bind].
      change (Node.object_tokens o1) with l1. rewrite H1. reflexivity. }
    split; [| split].
    + apply (Node_load_ok m3 _ o1 [tok] Ha).
      apply list_lookup_insert_eq. exact Hlen.
    + apply (Node_load_ok m3 _ o2 [] Hb).
      cbn [m3 Node.lists o2 Node.object_tokens].
      rewrite list_lookup_insert_ne by lia.
      rewrite lookup_app_r by (fold l2; lia). fold l2. rewrite Nat.sub_diag. reflexivity.
    + intros l Hl. cbn [m3 Node.lists].
      rewrite list_lookup_insert_ne by (fold l1 in Hl; lia).
      rewrite <- app_assoc. apply lookup_app_l. exact Hl.
Qed.

Lemma Nodes_built_from_one_list_share_it_witness :
  let a := Token.mk "a" IDENTIFIER in
  let comma := Token.mk "," COMMA in
  let m := {| Node.nodes := []; Node.lists := [[a]] |} in
  exists m1 n m2 n' m3,
    Node.construct m 1 (Some 0%nat) = Ok (m1, n)
    /\ Node.construct m1 2 (Some 0%nat) = Ok (m2, n')
    /\ Node.append m2 n comma = Ok m3
    /\ Node.load m3 n = Ok (Node.mk 1 [a; comma])
    /\ Node.load m3 n' = Ok (Node.mk 2 [a; comma]).
Proof.
  intros a comma m.
  destruct (Nodes_built_from_one_list_share_it m 0%nat [a] 1 2 comma eq_refl
              ltac:(lia) ltac:(lia))
    as ((m1 & n & m2 & n' & m3 & H1 & H2 & _ & _ & _ & _ & H3 & H4 & H5) & _).
  exists m1, n, m2, n', m3. repeat split; assumption.
Defined.

(** X26: [insert] clamps its index as a slice does and loses no token.  The
    list the Node holds is split in two and the token put between the
    halves, so it is one longer and holds the old tokens in their order; an
    index of the length or more appends the token, an index of minus the
    length or less puts it in front, and an index of -1 puts it before the
    last token.  No Node object changes. *)
Theorem insert_clamps_index (m : Node.memory) (self : ref) (me : Node.object)
    (held : list Token.t) (token : Token.t) :
  Node.nodes m !! self = Some me ->
  Node.lists m !! Node.object_tokens me = Some held ->
  (forall index,
     exists m' before after,
       Node.insert m self index token = Ok m'
       /\ Node.nodes m' = Node.nodes m
       /\ held = before ++ after
       /\ Node.lists m' !! Node.object_tokens me = Some (before ++ token :: after)
       /\ (0 <= index <= len held -> len before = index)
       /\ (- len held <= index < 0 -> len after = - index))
  /\ (forall index, len held <= index ->
        Node.insert m self index token = Node.append m self token)
  /\ (forall index, index <= - len held ->
        Node.insert m self index token
        = Ok {| Node.nodes := Node.nodes m;
                Node.lists := <[Node.object_tokens me := token :: held]> (Node.lists m) |}).
Proof.
  intros Hself Hheld.
  assert (Hlt : (Node.object_tokens me < length (Node.lists m))%nat)
    by (eapply lookup_lt_Some; exact Hheld).
  assert (Hinsert : forall index,
             Node.insert m self index token
             = Ok {| Node.nodes := Node.nodes m;
                     Node.lists :=
                       <[Node.object_tokens me :=
                           take (Z.to_nat (clamp_index (len held) index)) held
                           ++ token :: drop (Z.to_nat (clamp_index (len held) index)) held]>
                         (Node.lists m) |}).
  { intros index. unfold Node.insert, deref. rewrite Hself. cbn [bind].
    rewrite Hheld. reflexivity. }
  split; [| split].
  - intros index.
    exists {| Node.nodes := Node.nodes m;
              Node.lists :=
                <[Node.object_tokens me :=
                    take (Z.to_nat (clamp_index (len held) index)) held
                    ++ token :: drop (Z.to_nat (clamp_index (len held) index)) held]>
                  (Node.lists m) |},
      (take (Z.to_nat (clamp_index (len held) index)) held),
      (drop (Z.to_nat (clamp_index (len held) index)) held).
    split; [apply Hinsert |]. split; [reflexivity |].
    split; [symmetry; apply take_drop |].
    split; [cbn [Node.lists]; apply list_lookup_insert_eq; exact Hlt |].
    unfold clamp_index, len. split.
    + intros [Hlo Hhi]. destruct (index <? 0) eqn:Hneg; [lia |].
      rewrite length_take. unfold len in Hhi. lia.
    + intros [Hlo Hhi]. destruct (index <? 0) eqn:Hneg; [| lia].
      rewrite length_drop. lia.
  - intros index Hbig. rewrite Hinsert. unfold Node.append, deref.
    rewrite Hself. cbn [bind]. rewrite Hheld. cbn [bind].
    assert (Hclamp : Z.to_nat (clamp_index (len held) index) = length held).
    { unfold clamp_index, len in *. destruct (index <? 0) eqn:Hneg; lia. }
    rewrite Hclamp, firstn_all, drop_all. reflexivity.
  - intros index Hsmall. rewrite Hinsert.
    assert (Hclamp : Z.to_nat (clamp_index (len held) index) = 0%nat).
    { unfold clamp_index, len in *. destruct (index <? 0) eqn:Hneg; lia. }
    rewrite Hclamp, take_0, drop_0. reflexivity.
Qed.

Lemma insert_clamps_index_witness :
  let a := Token.mk "a" IDENTIFIER in
  let b := Token.mk "b" IDENTIFIER in
  let comma := Token.mk "," COMMA in
  let m := {| Node.nodes := [Node.mk_object 2 0]; Node.lists := [[a; b]] |} in
  Node.insert m 0%nat 7 comma = Node.append m 0%nat comma
  /\ Node.insert m 0%nat (-7) comma
     = Ok {| Node.nodes := [Node.mk_object 2 0]; Node.lists := [[comma; a; b]] |}
  /\ Node.insert m 0%nat (-1) comma
     = Ok {| Node.nodes := [Node.mk_object 2 0]; Node.lists := [[a; comma; b]] |}.
Proof.
  intros a b comma m.
  destruct (insert_clamps_index m 0%nat (Node.mk_object 2 0) [a; b] comma eq_refl eq_refl)
    as (_ & Hbig & Hsmall).
  split; [apply Hbig; vm_compute; discriminate |].
  split; [rewrite Hsmall by (vm_compute; discriminate); reflexivity |].
  reflexivity.
Defined.

(** ** The catalog and the messages *)

(** X14: the codes of the catalog identify its members.  Two members with the
    same code string are the same member, so no member is an alias of
    another; every code string is the letter E and three more characters.
    The templates do not identify the members: the two LINE_BREAK members
    share one text. *)
Theorem Code_code_identifies_member :
  (forall c1 c2, Code.code c1 = Code.code c2 <-> c1 = c2)
  /\ (forall c, exists rest,
        Code.code c = String (ascii_of_nat 69) rest /\ String.length rest = 3%nat)
  /\ Code.template Code.LINE_BREAK_BEFORE = Code.template Code.LINE_BREAK_AFTER.
Proof.
  split; [| split].
  - intros c1 c2. split; [| intros ->; reflexivity].
    destruct c1, c2; intros H; first [reflexivity | discriminate H].
  - intros c. destruct c; eexists; split; reflexivity.
  - reflexivity.
Qed.




Lemma render_agree (pieces : list piece) (kw1 kw2 : gmap string value) :
  (forall name, name ∈ fields pieces -> kw1 !! name = kw2 !! name) ->
  render pieces kw1 = render pieces kw2.
Proof.
  induction pieces as [| [c | name] rest IH]; intros Hagree; [reflexivity | |].
  - cbn [render]. rewrite IH by exact Hagree. reflexivity.
  - cbn [render]. rewrite (Hagree name) by left.
    rewrite IH; [reflexivity |]. intros other Hother. apply Hagree. right. exact Hother.
Qed.

Lemma render_app (xs ys : list piece) (kw : gmap string value) (a b : string) :
  render xs kw = Ok a -> render ys kw = Ok b -> render (xs ++ ys) kw = Ok (a +:+ b).
Proof.
  revert a. induction xs as [| [c | name] rest IH]; intros a Ha Hb.
  - injection Ha as <-. exact Hb.
  - cbn [render app] in *. destruct (render rest kw) as [tail | |]; try discriminate.
    cbn [bind] in Ha. injection Ha as <-. rewrite (IH tail eq_refl Hb). reflexivity.
  - cbn [render app] in *. destruct (kw !! name) as [v |]; [| discriminate].
    destruct (render rest kw) as [tail | |]; try discriminate.
    cbn [bind] in Ha. injection Ha as <-. rewrite (IH tail eq_refl Hb). cbn [bind].
    rewrite string_app_assoc. reflexivity.
Qed.

Lemma template_parses_after_location (c : Code.t) :
  exists pieces,
    parse_format (Code.template c) None = Ok pieces
    /\ parse_format ("(L{line}, {pos}): " +:+ Code.template c) None
       = Ok (location_pieces ++ pieces).
Proof. destruct c; eexists; split; vm_compute; reflexivity. Qed.

(** X16: a message is the location and then the template.  Whenever
    [get_message] returns, the message is [(L<line>, <pos>): ] with the line
    number of the violation's tree node and its position, followed by the
    template of its code formatted with the violation's own parameters. *)
Theorem get_message_starts_with_location (v : Violation.t) (message : string) :
  Violation.get_message v = Ok message ->
  exists body,
    format (Code.template (Violation.code v)) (Violation.params v) = Ok body
    /\ message
       = "(L" +:+ pretty (SyntaxTree.line_num (Violation.tree v)) +:+ ", "
         +:+ pretty (Violation.pos v) +:+ "): " +:+ body.
Proof.
  intros Hmessage.
  destruct (get_message_ok_iff v) as [Hok _].
  destruct (Hok (ex_intro _ message Hmessage)) as (Hline & Hpos & Hall).
  unfold Violation.get_message in Hmessage. rewrite Hline, Hpos in Hmessage.
  case_bool_decide as Hclash; [discriminate |].
  destruct (template_parses_after_location (Violation.code v)) as (pieces & Hparse & Hfull).
  unfold format in Hmessage. rewrite Hfull in Hmessage. cbn [bind] in Hmessage.
  set (kwargs := <["line" := _]> _) in Hmessage.
  assert (Hfields : fields pieces = field_names (Code.template (Violation.code v))).
  { unfold field_names. rewrite Hparse. reflexivity. }
  assert (Hsame : render pieces kwargs = render pieces (Violation.params v)).
  { apply render_agree. intros name Hname. rewrite Hfields in Hname.
    apply template_fields in Hname. subst kwargs.
    repeat (apply elem_of_cons in Hname as [-> | Hname]);
      [rewrite !lookup_insert_ne by discriminate; reflexivity .. | inversion Hname]. }
  destruct (render_ok pieces (Violation.params v)) as [body Hbody].
  { intros name Hname. apply Hall. rewrite <- Hfields. exact Hname. }
  exists body. split; [unfold format; rewrite Hparse; exact Hbody |].
  assert (Hprefix : render location_pieces kwargs
                    = Ok ("(L" +:+ pretty (SyntaxTree.line_num (Violation.tree v)) +:+ ", "
                          +:+ pretty (Violation.pos v) +:+ "): ")).
  { subst kwargs. unfold location_pieces. cbn [render].
    rewrite lookup_insert_eq, lookup_insert_ne by discriminate.
    rewrite lookup_insert_eq. cbn [bind str]. reflexivity. }
  rewrite <- Hsame in Hbody.
  rewrite (render_app _ _ _ _ _ Hprefix Hbody) in Hmessage.
  injection Hmessage as <-.
  rewrite !string_app_assoc. reflexivity.
Qed.

Lemma get_message_starts_with_location_witness :
  exists body,
    format (Code.template Code.KEYWORD_UPPER) (Violation.params sample_keyword) = Ok body
    /\ "(L3, 1): reserved keywords must be upper case: select -> SELECT"
       = "(L" +:+ pretty 3 +:+ ", " +:+ pretty 1 +:+ "): " +:+ body.
Proof.
  exact (get_message_starts_with_location sample_keyword
           "(L3, 1): reserved keywords must be upper case: select -> SELECT"
           ltac:(vm_compute; reflexivity)).
Defined.

(** ** The check driver: errors *)

(** X17: a checker that raises stops the run before anything is printed.
    When one of the five checkers raises and the ones before it returned,
    [check] raises the same exception and prints nothing, whatever the
    checkers after it would do. *)
Theorem check_raises_what_a_checker_raises
    (c1 c2 c3 c4 c5 : Checker.checker) (tree : Checker.tree_ref)
    (config : Checker.ConfigLoader) (e : exn) :
  (c1 tree config = Raise e ->
     Checker.check c1 c2 c3 c4 c5 tree config = ([], Raise e))
  /\ (forall l1, c1 tree config = Ok l1 -> c2 tree config = Raise e ->
        Checker.check c1 c2 c3 c4 c5 tree config = ([], Raise e))
  /\ (forall l1 l2, c1 tree config = Ok l1 -> c2 tree config = Ok l2 ->
        c3 tree config = Raise e ->
        Checker.check c1 c2 c3 c4 c5 tree config = ([], Raise e))
  /\ (forall l1 l2 l3, c1 tree config = Ok l1 -> c2 tree config = Ok l2 ->
        c3 tree config = Ok l3 -> c4 tree config = Raise e ->
        Checker.check c1 c2 c3 c4 c5 tree config = ([], Raise e))
  /\ (forall l1 l2 l3 l4, c1 tree config = Ok l1 -> c2 tree config = Ok l2 ->
        c3 tree config = Ok l3 -> c4 tree config = Ok l4 ->
        c5 tree config = Raise e ->
        Checker.check c1 c2 c3 c4 c5 tree config = ([], Raise e)).
Proof.
  unfold Checker.check, Checker.checker_list. cbn [for_each].
  repeat split; intros;
    repeat match goal with
           | H : ?c tree config = _ |- context [?c tree config] => rewrite H; cbn [bind]
           end;
    reflexivity.
Qed.

Lemma print_messages_until (before after : list Violation.t) (bad : Violation.t)
    (messages stdout : list string) (e : exn) :
  Forall2 (fun vi message => Violation.get_message vi = Ok message) before messages ->
  Violation.get_message bad = Raise e ->
  Checker.print_messages (before ++ bad :: after) stdout = (stdout ++ messages, Raise e).
Proof.
  intros Hall Hbad. revert stdout.
  induction Hall as [| vi message rest messages Hvi _ IH]; intros stdout.
  - cbn [app Checker.print_messages]. rewrite Hbad, app_nil_r. reflexivity.
  - cbn [app Checker.print_messages]. rewrite Hvi, IH, <- app_assoc. reflexivity.
Qed.

(** X18: a message that fails to render stops the printing half way.  When
    the checkers return and one of the collected violations cannot be
    rendered, [check] has printed the messages of the violations before it,
    prints none after it, and raises the exception of [get_message]. *)
Theorem check_prints_until_a_message_fails
    (c1 c2 c3 c4 c5 : Checker.checker) (tree : Checker.tree_ref)
    (config : Checker.ConfigLoader) (l1 l2 l3 l4 l5 before after : list Violation.t)
    (bad : Violation.t) (messages : list string) (e : exn) :
  c1 tree config = Ok l1 -> c2 tree config = Ok l2 -> c3 tree config = Ok l3 ->
  c4 tree config = Ok l4 -> c5 tree config = Ok l5 ->
  l1 ++ l2 ++ l3 ++ l4 ++ l5 = before ++ bad :: after ->
  Forall2 (fun vi message => Violation.get_message vi = Ok message) before messages ->
  Violation.get_message bad = Raise e ->
  Checker.check c1 c2 c3 c4 c5 tree config = (messages, Raise e).
Proof.
  intros H1 H2 H3 H4 H5 Hsplit Hall Hbad.
  unfold Checker.check, Checker.checker_list. cbn [for_each].
  rewrite H1. cbn [bind]. rewrite H2. cbn [bind]. rewrite H3. cbn [bind].
  rewrite H4. cbn [bind]. rewrite H5. cbn [bind app].
  rewrite <- !app_assoc, Hsplit.
  rewrite (print_messages_until before after bad messages [] e Hall Hbad).
  reflexivity.
Qed.

Lemma check_prints_until_a_message_fails_witness :
  Checker.check (fun _ _ => Ok [sample_indent; sample_unrenderable])
                (fun _ _ => Ok []) (fun _ _ => Ok [sample_keyword])
                (fun _ _ => Ok []) (fun _ _ => Ok [])
                ([sample_tree], 0%nat) {| Checker.values := ∅ |}
  = (["(L3, 1): indent steps must be 4 multiples, but 6 spaces"],
     Raise (KeyError "expected")).
Proof.
  apply (check_prints_until_a_message_fails
           (fun _ _ => Ok [sample_indent; sample_unrenderable])
           (fun _ _ => Ok []) (fun _ _ => Ok [sample_keyword])
           (fun _ _ => Ok []) (fun _ _ => Ok [])
           ([sample_tree], 0%nat) {| Checker.values := ∅ |}
           [sample_indent; sample_unrenderable] [] [sample_keyword] [] []
           [sample_indent] [sample_keyword] sample_unrenderable);
    try reflexivity.
  repeat constructor.
Defined.

(** ** Configuration: loading *)

(** Where the loop of [_load] stops: the names before that point hold what
    the getters returned for them, every other name holds what it held. *)
Lemma load_names_stops (config_parser : ConfigParser.t) (names : list (string * pytype)) :
  NoDup names.*1 ->
  forall values values' outcome,
    ConfigLoader.load_names config_parser names values = (values', outcome) ->
    exists done rest,
      names = done ++ rest
      /\ (outcome = Returns tt -> rest = [])
      /\ (forall e, outcome = Raises e ->
            exists name _type rest',
              rest = (name, _type) :: rest'
              /\ ConfigLoader._get_with_type config_parser name _type = Raises e)
      /\ (forall k, k ∉ done.*1 -> values' !! k = values !! k)
      /\ Forall (fun entry =>
                   exists v,
                     ConfigLoader._get_with_type config_parser entry.1 entry.2 = Returns v
                     /\ values' !! entry.1 = Some v) done.
Proof.
  induction names as [| [name _type] names IH]; intros Hnodup values values' outcome Hload.
  - cbn in Hload. injection Hload as <- <-.
    exists [], []. split; [reflexivity |]. split; [reflexivity |].
    split; [intros e He; discriminate He |]. split; [reflexivity | constructor].
  - cbn [ConfigLoader.load_names] in Hload.
    cbn [fmap list_fmap fst] in Hnodup. apply NoDup_cons in Hnodup as [Hfresh Hnodup].
    destruct (ConfigLoader._get_with_type config_parser name _type) as [v | err] eqn:Hget.
    + destruct (IH Hnodup _ _ _ Hload) as (done & rest & -> & Hok & Hraise & Hkeep & Hdone).
      exists ((name, _type) :: done), rest.
      split; [reflexivity |]. split; [exact Hok |]. split; [exact Hraise |].
      assert (Hname : name ∉ done.*1).
      { intros Hin. apply Hfresh. rewrite fmap_app. apply elem_of_app. left. exact Hin. }
      split.
      * intros k Hk. cbn [fmap list_fmap fst] in Hk. apply not_elem_of_cons in Hk as [Hne Hk].
        rewrite (Hkeep k Hk). apply lookup_insert_ne. congruence.
      * constructor; [| exact Hdone].
        exists v. split; [exact Hget |]. cbn [fst].
        rewrite (Hkeep name Hname). apply lookup_insert_eq.
    + injection Hload as <- <-.
      exists [], ((name, _type) :: names).
      split; [reflexivity |]. split; [intros H; discriminate H |].
      split.
      * intros e He. injection He as <-. exists name, _type, names. split; [reflexivity | exact Hget].
      * split; [reflexivity | constructor].
Qed.

(** X19: [ConfigLoader._load] stores the settings in the order of
    [NAME_TYPES] and stops at the first getter that raises: the names before
    that point hold what the parser returned for them, every other key of
    the dictionary and the [user_config_file] attribute are as they were,
    and the call raises exactly what that getter raised.  It returns only
    when all four names were stored. *)
Theorem _load_stores_until_a_getter_raises
    (self self' : ConfigLoader.t) (config_parser : ConfigParser.t)
    (outcome : attempt unit) :
  ConfigLoader._load self config_parser = (self', outcome) ->
  exists done rest,
    ConfigLoader.NAME_TYPES = done ++ rest
    /\ ConfigLoader.user_config_file self' = ConfigLoader.user_config_file self
    /\ Forall (fun entry =>
                 exists v,
                   ConfigLoader._get_with_type config_parser entry.1 entry.2 = Returns v
                   /\ ConfigLoader.values self' !! entry.1 = Some v) done
    /\ (forall k, k ∉ done.*1 ->
          ConfigLoader.values self' !! k = ConfigLoader.values self !! k)
    /\ match outcome with
       | Returns _ => rest = []
       | Raises e =>
           exists name _type rest',
             rest = (name, _type) :: rest'
             /\ ConfigLoader._get_with_type config_parser name _type = Raises e
       end.
Proof.
  unfold ConfigLoader._load. intros Hload.
  destruct (ConfigLoader.load_names config_parser ConfigLoader.NAME_TYPES
              (ConfigLoader.values self)) as [stored outcome'] eqn:Hnames.
  injection Hload as <- <-.
  assert (Hnodup : NoDup ConfigLoader.NAME_TYPES.*1).
  { apply (bool_decide_unpack _). vm_compute. exact I. }
  destruct (load_names_stops config_parser _ Hnodup _ _ _ Hnames)
    as (done & rest & Hsplit & Hok & Hraise & Hkeep & Hdone).
  exists done, rest. cbn [ConfigLoader.values ConfigLoader.user_config_file].
  split; [exact Hsplit |]. split; [reflexivity |]. split; [exact Hdone |].
  split; [exact Hkeep |].
  destruct outcome' as [[] | e]; [apply Hok; reflexivity | apply Hraise; reflexivity].
Qed.

Lemma _load_stores_until_a_getter_raises_witness :
  exists done rest,
    ConfigLoader.NAME_TYPES = done ++ rest
    /\ @None string = None
    /\ Forall (fun entry =>
                 exists v,
                   ConfigLoader._get_with_type sample_partial entry.1 entry.2 = Returns v
                   /\ (<["comma-position" := SStr "end"]>
                         (<["max-line-length" := SInt 100]> ∅) : gmap string setting)
                      !! entry.1 = Some v) done
    /\ (forall k, k ∉ done.*1 ->
          (<["comma-position" := SStr "end"]>
             (<["max-line-length" := SInt 100]> ∅) : gmap string setting) !! k
          = (∅ : gmap string setting) !! k)
    /\ exists name _type rest',
         rest = (name, _type) :: rest'
         /\ ConfigLoader._get_with_type sample_partial name _type
            = Raises (NoOptionError "keyword-style" "sqlint").
Proof.
  exact (_load_stores_until_a_getter_raises
           {| ConfigLoader.values := ∅; ConfigLoader.user_config_file := None |}
           {| ConfigLoader.values :=
                <["comma-position" := SStr "end"]> (<["max-line-length" := SInt 100]> ∅);
              ConfigLoader.user_config_file := None |}
           sample_partial (Raises (NoOptionError "keyword-style" "sqlint")) eq_refl).
Defined.

Lemma _load_returns (self self' : ConfigLoader.t) (config_parser : ConfigParser.t) (u : unit) :
  ConfigLoader._load self config_parser = (self', Returns u) ->
  exists a b c d,
    provides config_parser a b c d
    /\ self' = {| ConfigLoader.values := with_settings a b c d (ConfigLoader.values self);
                  ConfigLoader.user_config_file := ConfigLoader.user_config_file self |}.
Proof.
  unfold ConfigLoader._load, ConfigLoader.NAME_TYPES, provides, with_settings.
  cbn [ConfigLoader.load_names ConfigLoader._get_with_type].
  destruct (ConfigParser.getint config_parser ConfigLoader.SECTION "max-line-length")
    as [a | e1]; cbn [returning]; [| intros H; discriminate H].
  destruct (ConfigParser.get config_parser ConfigLoader.SECTION "comma-position")
    as [b | e2]; cbn [returning]; [| intros H; discriminate H].
  destruct (ConfigParser.get config_parser ConfigLoader.SECTION "keyword-style")
    as [c | e3]; cbn [returning]; [| intros H; discriminate H].
  destruct (ConfigParser.getint config_parser ConfigLoader.SECTION "indent-steps")
    as [d | e4]; cbn [returning]; [| intros H; discriminate H].
  intros H. injection H as <-. exists a, b, c, d. repeat split; reflexivity.
Qed.

Lemma with_settings_lookup (a : Z) (b c : string) (d : Z) (values : gmap string setting) :
  with_settings a b c d values !! "max-line-length" = Some (SInt a)
  /\ with_settings a b c d values !! "comma-position" = Some (SStr b)
  /\ with_settings a b c d values !! "keyword-style" = Some (SStr c)
  /\ with_settings a b c d values !! "indent-steps" = Some (SInt d).
Proof.
  unfold with_settings.
  repeat split;
    repeat (first [ apply lookup_insert_eq
                  | rewrite lookup_insert_ne by discriminate ]).
Qed.

Lemma with_settings_overwrites (a a' : Z) (b b' c c' : string) (d d' : Z)
    (values : gmap string setting) :
  with_settings a b c d (with_settings a' b' c' d' values) = with_settings a b c d values.
Proof.
  unfold with_settings. apply map_eq. intros k.
  destruct (decide (k = "indent-steps")) as [-> | H4];
    [rewrite !lookup_insert_eq; reflexivity |].
  rewrite !(lookup_insert_ne _ "indent-steps" k) by congruence.
  destruct (decide (k = "keyword-style")) as [-> | H3];
    [rewrite !lookup_insert_eq; reflexivity |].
  rewrite !(lookup_insert_ne _ "keyword-style" k) by congruence.
  destruct (decide (k = "comma-position")) as [-> | H2];
    [rewrite !lookup_insert_eq; reflexivity |].
  rewrite !(lookup_insert_ne _ "comma-position" k) by congruence.
  destruct (decide (k = "max-line-length")) as [-> | H1];
    [rewrite !lookup_insert_eq; reflexivity |].
  rewrite !(lookup_insert_ne _ "max-line-length" k) by congruence.
  rewrite !(lookup_insert_ne _ "indent-steps" k) by congruence.
  rewrite !(lookup_insert_ne _ "keyword-style" k) by congruence.
  rewrite !(lookup_insert_ne _ "comma-position" k) by congruence.
  rewrite !(lookup_insert_ne _ "max-line-length" k) by congruence.
  reflexivity.
Qed.

(** ** Configuration: the constructor *)

(** Every way the constructor returns. *)
Lemma ConfigLoader_init_returns (DEFAULT_INI : string) (exists_ : string -> bool)
    (read : string -> attempt ConfigParser.t) (config_file : option string)
    (self : ConfigLoader.t) (log : list string) :
  ConfigLoader.__init__ DEFAULT_INI exists_ read config_file = Returns (self, log) ->
  exists default_config a b c d,
    exists_ DEFAULT_INI = true
    /\ read DEFAULT_INI = Returns default_config
    /\ provides default_config a b c d
    /\ match config_file with
       | Some path =>
           if String.eqb path DEFAULT_INI
           then self = {| ConfigLoader.values := with_settings a b c d ∅;
                          ConfigLoader.user_config_file := None |}
                /\ log = []
           else if exists_ path
           then exists user_config a' b' c' d',
                  read path = Returns user_config
                  /\ provides user_config a' b' c' d'
                  /\ self = {| ConfigLoader.values := with_settings a' b' c' d' ∅;
                               ConfigLoader.user_config_file := Some path |}
                  /\ log = []
           else self = {| ConfigLoader.values := with_settings a b c d ∅;
                          ConfigLoader.user_config_file := Some path |}
                /\ log = ["[Warning] config file is not found: " +:+ path]
       | None =>
           self = {| ConfigLoader.values := with_settings a b c d ∅;
                     ConfigLoader.user_config_file := None |}
           /\ log = []
       end.
Proof.
  unfold ConfigLoader.__init__.
  destruct (exists_ DEFAULT_INI) eqn:Hdefault; cbn [negb]; [| intros H; discriminate H].
  destruct (read DEFAULT_INI) as [default_config | e] eqn:Hread; [| intros H; discriminate H].
  destruct (ConfigLoader._load _ default_config) as [self1 [u |e]] eqn:Hload;
    [| intros H; discriminate H].
  apply _load_returns in Hload as (a & b & c & d & Hprovides & ->).
  cbn [ConfigLoader.values ConfigLoader.user_config_file].
  intros Hinit. exists default_config, a, b, c, d.
  split; [reflexivity |]. split; [reflexivity |]. split; [exact Hprovides |].
  destruct config_file as [path |].
  - destruct (String.eqb path DEFAULT_INI) eqn:Hsame; cbn [negb] in Hinit.
    + injection Hinit as <- <-. split; reflexivity.
    + destruct (exists_ path) eqn:Hpath; cbn [negb] in Hinit.
      * destruct (read path) as [user_config | e] eqn:Huser; [| discriminate Hinit].
        destruct (ConfigLoader._load _ user_config) as [self2 [u' | e]] eqn:Hload2;
          [| discriminate Hinit].
        apply _load_returns in Hload2 as (a' & b' & c' & d' & Hprovides' & ->).
        cbn [ConfigLoader.values ConfigLoader.user_config_file] in Hinit.
        injection Hinit as <- <-.
        exists user_config, a', b', c', d'.
        split; [reflexivity |]. split; [exact Hprovides' |].
        rewrite with_settings_overwrites. split; reflexivity.
      * injection Hinit as <- <-. split; reflexivity.
  - rewrite String.eqb_refl in Hinit. cbn [negb] in Hinit.
    injection Hinit as <- <-. split; reflexivity.
Qed.

(** X20: a [ConfigLoader] built for a user's file other than the default one
    holds either the user's four settings or the four defaults, never a mix.
    When the user's file exists, all four settings are the ones its parser
    returned (so a file the constructor accepts has every option) and
    nothing is logged; when it does not exist, the constructor still
    returns, with the defaults and one logged warning.  In both cases
    [user_config_file] is the given path. *)
Theorem user_file_replaces_every_default (DEFAULT_INI : string)
    (exists_ : string -> bool) (read : string -> attempt ConfigParser.t)
    (path : string) (self : ConfigLoader.t) (log : list string) :
  path <> DEFAULT_INI ->
  ConfigLoader.__init__ DEFAULT_INI exists_ read (Some path) = Returns (self, log) ->
  ConfigLoader.user_config_file self = Some path
  /\ exists config a b c d,
       provides config a b c d
       /\ ConfigLoader.values self = with_settings a b c d ∅
       /\ if exists_ path
          then read path = Returns config /\ log = []
          else read DEFAULT_INI = Returns config
               /\ log = ["[Warning] config file is not found: " +:+ path].
Proof.
  intros Hpath Hinit.
  destruct (ConfigLoader_init_returns _ _ _ _ _ _ Hinit)
    as (default_config & a & b & c & d & _ & Hread & Hprovides & Hcases).
  cbn in Hcases. apply String.eqb_neq in Hpath. rewrite Hpath in Hcases.
  destruct (exists_ path).
  - destruct Hcases as (user_config & a' & b' & c' & d' & Huser & Hprovides' & -> & ->).
    split; [reflexivity |].
    exists user_config, a', b', c', d'.
    split; [exact Hprovides' |]. split; [reflexivity |]. split; [exact Huser | reflexivity].
  - destruct Hcases as [-> ->]. split; [reflexivity |].
    exists default_config, a, b, c, d.
    split; [exact Hprovides |]. split; [reflexivity |]. split; [exact Hread | reflexivity].
Qed.

Lemma user_file_replaces_every_default_witness :
  "user.ini" <> "default.ini"
  /\ Some "user.ini" = Some "user.ini"
  /\ exists config a b c d,
       provides config a b c d
       /\ with_settings 20 "tail" "upper-all" 2 ∅ = with_settings a b c d ∅
       /\ if sample_exists "user.ini"
          then sample_read "user.ini" = Returns config /\ @nil string = []
          else sample_read "default.ini" = Returns config
               /\ @nil string = ["[Warning] config file is not found: " +:+ "user.ini"].
Proof.
  split; [discriminate |].
  exact (user_file_replaces_every_default "default.ini" sample_exists sample_read
           "user.ini"
           {| ConfigLoader.values := with_settings 20 "tail" "upper-all" 2 ∅;
              ConfigLoader.user_config_file := Some "user.ini" |}
           [] ltac:(discriminate) ltac:(vm_compute; reflexivity)).
Defined.

(** ** Configuration: the settings *)

Lemma max_line_length_stored (self : Config.t) (z : Z) :
  ConfigLoader.values (Config.loader self) !! "max-line-length" = Some (SInt z) ->
  Config.max_line_length self
  = if z <? 32
    then (["max-line-length value must be more 32, but " +:+ pretty z
           +:+ " So defualt value(128) was used."], Ok (Some (SInt 128)))
    else ([], Ok (Some (SInt z))).
Proof.
  intros Hz. unfold Config.max_line_length, ConfigLoader.get. rewrite Hz.
  cbn [Config.less_than]. destruct (z <? 32); reflexivity.
Qed.

Lemma indent_steps_stored (self : Config.t) (z : Z) :
  ConfigLoader.values (Config.loader self) !! "indent-steps" = Some (SInt z) ->
  Config.indent_steps self
  = if z <? 0
    then (["indent-steps value must be more 0, but " +:+ pretty z
           +:+ " So defualt value(4) was used."], Ok (Some (SInt 4)))
    else ([], Ok (Some (SInt z))).
Proof.
  intros Hz. unfold Config.indent_steps, ConfigLoader.get. rewrite Hz.
  cbn [Config.less_than]. destruct (z <? 0); reflexivity.
Qed.

Lemma comma_position_stored (self : Config.t) (s : string) :
  ConfigLoader.values (Config.loader self) !! "comma-position" = Some (SStr s) ->
  exists w s',
    Config.comma_position self = (w, Ok (Some (SStr s')))
    /\ s' ∈ ["head"; "end"]
    /\ (w = [] /\ s' = s \/ length w = 1%nat /\ s' = "head" /\ s ∉ ["head"; "end"]).
Proof.
  intros Hs. unfold Config.comma_position, ConfigLoader.get. rewrite Hs.
  cbn [Config.among]. case_bool_decide as Hin; cbn [negb].
  - exists [], s. split; [reflexivity |]. split; [exact Hin |]. left. split; reflexivity.
  - eexists _, "head". split; [reflexivity |].
    split; [apply elem_of_cons; left; reflexivity |].
    right. split; [reflexivity |]. split; [reflexivity | exact Hin].
Qed.

Lemma keyword_style_stored (self : Config.t) (s : string) :
  ConfigLoader.values (Config.loader self) !! "keyword-style" = Some (SStr s) ->
  exists w s',
    Config.keyword_style self = (w, Ok (Some (SStr s')))
    /\ s' ∈ ["upper-all"; "lower"; "upper-head"]
    /\ (w = [] /\ s' = s
        \/ length w = 1%nat /\ s' = "lower" /\ s ∉ ["upper-all"; "lower"; "upper-head"]).
Proof.
  intros Hs. unfold Config.keyword_style, ConfigLoader.get. rewrite Hs.
  cbn [Config.among]. case_bool_decide as Hin; cbn [negb].
  - exists [], s. split; [reflexivity |]. split; [exact Hin |]. left. split; reflexivity.
  - eexists _, "lower". split; [reflexivity |].
    split; [apply elem_of_cons; right; apply elem_of_cons; left; reflexivity |].
    right. split; [reflexivity |]. split; [reflexivity | exact Hin].
Qed.

(** X21: the four properties of a [Config] that its constructor returned
    never raise, and each gives a value of its range: [max_line_length] an
    integer of at least 32, [indent_steps] an integer of at least 0,
    [comma_position] one of head and end, [keyword_style] one of upper-all,
    lower and upper-head. *)
Theorem constructed_Config_settings_in_range (DEFAULT_INI : string)
    (exists_ : string -> bool) (read : string -> attempt ConfigParser.t)
    (config_file : option string) (config : Config.t) (log : list string) :
  Config.__init__ DEFAULT_INI exists_ read config_file = Returns (config, log) ->
  (exists w z, Config.max_line_length config = (w, Ok (Some (SInt z))) /\ 32 <= z)
  /\ (exists w s, Config.comma_position config = (w, Ok (Some (SStr s)))
                  /\ s ∈ ["head"; "end"])
  /\ (exists w s, Config.keyword_style config = (w, Ok (Some (SStr s)))
                  /\ s ∈ ["upper-all"; "lower"; "upper-head"])
  /\ (exists w z, Config.indent_steps config = (w, Ok (Some (SInt z))) /\ 0 <= z).
Proof.
  unfold Config.__init__. intros Hinit.
  destruct (ConfigLoader.__init__ DEFAULT_INI exists_ read _) as [[loader log'] | e] eqn:Hloader;
    [| discriminate Hinit].
  injection Hinit as <- <-.
  assert (Hvalues : exists a b c d, ConfigLoader.values loader = with_settings a b c d ∅).
  { destruct (ConfigLoader_init_returns _ _ _ _ _ _ Hloader)
      as (default_config & a & b & c & d & _ & _ & _ & Hcases).
    cbn beta iota in Hcases.
    destruct (String.eqb _ DEFAULT_INI).
    - destruct Hcases as [-> _]. exists a, b, c, d. reflexivity.
    - destruct (exists_ _).
      + destruct Hcases as (_ & a' & b' & c' & d' & _ & _ & -> & _).
        exists a', b', c', d'. reflexivity.
      + destruct Hcases as [-> _]. exists a, b, c, d. reflexivity. }
  destruct Hvalues as (a & b & c & d & Hvalues).
  destruct (with_settings_lookup a b c d ∅) as (Ha & Hb & Hc & Hd).
  rewrite <- Hvalues in Ha, Hb, Hc, Hd.
  split; [| split; [| split]].
  - rewrite (max_line_length_stored {| Config.loader := loader |} a Ha).
    destruct (a <? 32) eqn:Hlt.
    + eexists _, 128. split; [reflexivity | lia].
    + exists [], a. split; [reflexivity | lia].
  - destruct (comma_position_stored {| Config.loader := loader |} b Hb)
      as (w & s & Heq & Hin & _).
    exists w, s. split; assumption.
  - destruct (keyword_style_stored {| Config.loader := loader |} c Hc)
      as (w & s & Heq & Hin & _).
    exists w, s. split; assumption.
  - rewrite (indent_steps_stored {| Config.loader := loader |} d Hd).
    destruct (d <? 0) eqn:Hlt.
    + eexists _, 4. split; [reflexivity | lia].
    + exists [], d. split; [reflexivity | lia].
Qed.

Lemma constructed_Config_settings_in_range_witness :
  (exists w z, Config.max_line_length sample_settings = (w, Ok (Some (SInt z))) /\ 32 <= z)
  /\ (exists w s, Config.comma_position sample_settings = (w, Ok (Some (SStr s)))
                  /\ s ∈ ["head"; "end"])
  /\ (exists w s, Config.keyword_style sample_settings = (w, Ok (Some (SStr s)))
                  /\ s ∈ ["upper-all"; "lower"; "upper-head"])
  /\ (exists w z, Config.indent_steps sample_settings = (w, Ok (Some (SInt z))) /\ 0 <= z).
Proof.
  apply (constructed_Config_settings_in_range "default.ini" sample_exists sample_read
           (Some "user.ini") sample_settings []).
  vm_compute. reflexivity.
Defined.

Lemma max_line_length_float (self : Config.t) (x : PrimFloat.float) :
  ConfigLoader.values (Config.loader self) !! "max-line-length" = Some (SFloat x) ->
  Config.max_line_length self
  = if PrimFloat.ltb x (Config.float_of_Z 32) then ([], Fault Unmodelled)
    else ([], Ok (Some (SFloat x))).
Proof.
  intros Hx. unfold Config.max_line_length, ConfigLoader.get. rewrite Hx.
  cbn [Config.less_than]. destruct (PrimFloat.ltb x (Config.float_of_Z 32)); reflexivity.
Qed.

Lemma indent_steps_float (self : Config.t) (x : PrimFloat.float) :
  ConfigLoader.values (Config.loader self) !! "indent-steps" = Some (SFloat x) ->
  Config.indent_steps self
  = if PrimFloat.ltb x (Config.float_of_Z 0) then ([], Fault Unmodelled)
    else ([], Ok (Some (SFloat x))).
Proof.
  intros Hx. unfold Config.indent_steps, ConfigLoader.get. rewrite Hx.
  cbn [Config.less_than]. destruct (PrimFloat.ltb x (Config.float_of_Z 0)); reflexivity.
Qed.

(** X22: whenever [max_line_length] returns, the value is an integer of at
    least 32 or a stored float that is not below 32, which comes back as it
    is; whenever [indent_steps] returns, the value is an integer of at least
    0, the stored boolean, or a stored float that is not below 0.  A stored
    integer of at least the floor comes back unchanged without a warning; a
    smaller one gives the default (128, respectively 4) with one warning
    that prints it.  A stored float below the floor is the one case left out
    of the model: its warning prints the float. *)
Theorem int_settings_have_a_floor (self : Config.t) :
  (forall w v, Config.max_line_length self = (w, Ok v) ->
     (exists z, v = Some (SInt z) /\ 32 <= z)
     \/ (exists x,
           v = Some (SFloat x)
           /\ ConfigLoader.values (Config.loader self) !! "max-line-length"
              = Some (SFloat x)
           /\ PrimFloat.ltb x (Config.float_of_Z 32) = false /\ w = []))
  /\ (forall w v, Config.indent_steps self = (w, Ok v) ->
        (exists z, v = Some (SInt z) /\ 0 <= z)
        \/ (exists b,
              v = Some (SBool b)
              /\ ConfigLoader.values (Config.loader self) !! "indent-steps"
                 = Some (SBool b)
              /\ w = [])
        \/ (exists x,
              v = Some (SFloat x)
              /\ ConfigLoader.values (Config.loader self) !! "indent-steps"
                 = Some (SFloat x)
              /\ PrimFloat.ltb x (Config.float_of_Z 0) = false /\ w = []))
  /\ (forall z, ConfigLoader.values (Config.loader self) !! "max-line-length"
                = Some (SInt z) ->
        (32 <= z -> Config.max_line_length self = ([], Ok (Some (SInt z))))
        /\ (z < 32 ->
            Config.max_line_length self
            = (["max-line-length value must be more 32, but " +:+ pretty z
                +:+ " So defualt value(128) was used."], Ok (Some (SInt 128)))))
  /\ (forall z, ConfigLoader.values (Config.loader self) !! "indent-steps"
                = Some (SInt z) ->
        (0 <= z -> Config.indent_steps self = ([], Ok (Some (SInt z))))
        /\ (z < 0 ->
            Config.indent_steps self
            = (["indent-steps value must be more 0, but " +:+ pretty z
                +:+ " So defualt value(4) was used."], Ok (Some (SInt 4)))))
  /\ (forall x, ConfigLoader.values (Config.loader self) !! "max-line-length"
                = Some (SFloat x) ->
        (PrimFloat.ltb x (Config.float_of_Z 32) = false ->
         Config.max_line_length self = ([], Ok (Some (SFloat x))))
        /\ (PrimFloat.ltb x (Config.float_of_Z 32) = true ->
            Config.max_line_length self = ([], Fault Unmodelled)))
  /\ (forall x, ConfigLoader.values (Config.loader self) !! "indent-steps"
                = Some (SFloat x) ->
        (PrimFloat.ltb x (Config.float_of_Z 0) = false ->
         Config.indent_steps self = ([], Ok (Some (SFloat x))))
        /\ (PrimFloat.ltb x (Config.float_of_Z 0) = true ->
            Config.indent_steps self = ([], Fault Unmodelled))).
Proof.
  split; [| split; [| split; [| split; [| split]]]].
  - intros w v.
    destruct (ConfigLoader.values (Config.loader self) !! "max-line-length")
      as [[z | x | b | s] |] eqn:Hlookup.
    + rewrite (max_line_length_stored self z Hlookup).
      destruct (z <? 32) eqn:Hlt; intros H; injection H as <- <-; left.
      * exists 128. split; [reflexivity | lia].
      * exists z. split; [reflexivity | lia].
    + rewrite (max_line_length_float self x Hlookup).
      destruct (PrimFloat.ltb x (Config.float_of_Z 32)) eqn:Hlt; intros H;
        [discriminate H |].
      injection H as <- <-. right. exists x.
      split; [reflexivity |]. split; [reflexivity |]. split; [exact Hlt | reflexivity].
    + unfold Config.max_line_length, ConfigLoader.get. rewrite Hlookup.
      destruct b; cbn; intros H; injection H as <- <-; left;
        (exists 128; split; [reflexivity | lia]).
    + unfold Config.max_line_length, ConfigLoader.get. rewrite Hlookup.
      intros H; discriminate H.
    + unfold Config.max_line_length, ConfigLoader.get. rewrite Hlookup.
      intros H; discriminate H.
  - intros w v.
    destruct (ConfigLoader.values (Config.loader self) !! "indent-steps")
      as [[z | x | b | s] |] eqn:Hlookup.
    + rewrite (indent_steps_stored self z Hlookup).
      destruct (z <? 0) eqn:Hlt; intros H; injection H as <- <-; left.
      * exists 4. split; [reflexivity | lia].
      * exists z. split; [reflexivity | lia].
    + rewrite (indent_steps_float self x Hlookup).
      destruct (PrimFloat.ltb x (Config.float_of_Z 0)) eqn:Hlt; intros H;
        [discriminate H |].
      injection H as <- <-. right. right. exists x.
      split; [reflexivity |]. split; [reflexivity |]. split; [exact Hlt | reflexivity].
    + unfold Config.indent_steps, ConfigLoader.get. rewrite Hlookup.
      destruct b; cbn; intros H; injection H as <- <-; right; left;
        eexists; (split; [reflexivity |]); split; reflexivity.
    + unfold Config.indent_steps, ConfigLoader.get. rewrite Hlookup.
      intros H; discriminate H.
    + unfold Config.indent_steps, ConfigLoader.get. rewrite Hlookup.
      intros H; discriminate H.
  - intros z Hz. rewrite (max_line_length_stored self z Hz).
    split; intros Hcmp.
    + destruct (z <? 32) eqn:Hlt; [lia | reflexivity].
    + destruct (z <? 32) eqn:Hlt; [reflexivity | lia].
  - intros z Hz. rewrite (indent_steps_stored self z Hz).
    split; intros Hcmp.
    + destruct (z <? 0) eqn:Hlt; [lia | reflexivity].
    + destruct (z <? 0) eqn:Hlt; [reflexivity | lia].
  - intros x Hx. rewrite (max_line_length_float self x Hx).
    split; intros ->; reflexivity.
  - intros x Hx. rewrite (indent_steps_float self x Hx).
    split; intros ->; reflexivity.
Qed.

(** A line length of 50.5, stored by hand, comes back as it is; 20.5 is
    below the floor. *)
Example max_line_length_float_sample :
  let half := PrimFloat.div (PrimFloat.of_uint63 (Uint63.of_Z 1))
                            (PrimFloat.of_uint63 (Uint63.of_Z 2)) in
  let stored (x : PrimFloat.float) : Config.t :=
    {| Config.loader :=
         {| ConfigLoader.values := <["max-line-length" := SFloat x]> ∅;
            ConfigLoader.user_config_file := None |} |} in
  Config.max_line_length (stored (PrimFloat.add (Config.float_of_Z 50) half))
  = ([], Ok (Some (SFloat (PrimFloat.add (Config.float_of_Z 50) half))))
  /\ Config.less_than (Some (SFloat (PrimFloat.add (Config.float_of_Z 20) half))) 32
     = Ok true.
Proof. split; vm_compute; reflexivity. Qed.

(** X23: [comma_position] and [keyword_style] never raise, and what they
    return is always a string of their list (head or end; upper-all, lower
    or upper-head), whatever the dictionary holds under their key; a stored
    string of the list comes back unchanged without a warning.  (A stored
    float is the one case left out of the model.) *)
Theorem str_settings_stay_in_their_domain (self : Config.t) :
  (forall w r, Config.comma_position self = (w, r) ->
     (exists s, r = Ok (Some (SStr s)) /\ s ∈ ["head"; "end"])
     \/ (exists x, ConfigLoader.values (Config.loader self) !! "comma-position"
                   = Some (SFloat x)))
  /\ (forall w r, Config.keyword_style self = (w, r) ->
        (exists s, r = Ok (Some (SStr s)) /\ s ∈ ["upper-all"; "lower"; "upper-head"])
        \/ (exists x, ConfigLoader.values (Config.loader self) !! "keyword-style"
                      = Some (SFloat x)))
  /\ (forall s, s ∈ ["head"; "end"] ->
        ConfigLoader.values (Config.loader self) !! "comma-position" = Some (SStr s) ->
        Config.comma_position self = ([], Ok (Some (SStr s))))
  /\ (forall s, s ∈ ["upper-all"; "lower"; "upper-head"] ->
        ConfigLoader.values (Config.loader self) !! "keyword-style" = Some (SStr s) ->
        Config.keyword_style self = ([], Ok (Some (SStr s)))).
Proof.
  split; [| split; [| split]].
  - intros w r.
    destruct (ConfigLoader.values (Config.loader self) !! "comma-position")
      as [[z | x | b | s] |] eqn:Hlookup.
    + unfold Config.comma_position, ConfigLoader.get. rewrite Hlookup. cbn.
      intros H. injection H as <- <-. left. eexists. split; [reflexivity |].
      apply elem_of_cons. left. reflexivity.
    + intros _. right. exists x. reflexivity.
    + unfold Config.comma_position, ConfigLoader.get. rewrite Hlookup. cbn.
      intros H. injection H as <- <-. left. eexists. split; [reflexivity |].
      apply elem_of_cons. left. reflexivity.
    + destruct (comma_position_stored self s Hlookup) as (w' & s' & Heq & Hin & _).
      rewrite Heq. intros H. injection H as <- <-. left. exists s'. split; [reflexivity | exact Hin].
    + unfold Config.comma_position, ConfigLoader.get. rewrite Hlookup. cbn.
      intros H. injection H as <- <-. left. eexists. split; [reflexivity |].
      apply elem_of_cons. left. reflexivity.
  - intros w r.
    destruct (ConfigLoader.values (Config.loader self) !! "keyword-style")
      as [[z | x | b | s] |] eqn:Hlookup.
    + unfold Config.keyword_style, ConfigLoader.get. rewrite Hlookup. cbn.
      intros H. injection H as <- <-. left. eexists. split; [reflexivity |].
      apply elem_of_cons. right. apply elem_of_cons. left. reflexivity.
    + intros _. right. exists x. reflexivity.
    + unfold Config.keyword_style, ConfigLoader.get. rewrite Hlookup. cbn.
      intros H. injection H as <- <-. left. eexists. split; [reflexivity |].
      apply elem_of_cons. right. apply elem_of_cons. left. reflexivity.
    + destruct (keyword_style_stored self s Hlookup) as (w' & s' & Heq & Hin & _).
      rewrite Heq. intros H. injection H as <- <-. left. exists s'. split; [reflexivity | exact Hin].
    + unfold Config.keyword_style, ConfigLoader.get. rewrite Hlookup. cbn.
      intros H. injection H as <- <-. left. eexists. split; [reflexivity |].
      apply elem_of_cons. right. apply elem_of_cons. left. reflexivity.
  - intros s Hin Hlookup.
    unfold Config.comma_position, ConfigLoader.get. rewrite Hlookup.
    cbn [Config.among]. rewrite (bool_decide_eq_true_2 _ Hin). reflexivity.
  - intros s Hin Hlookup.
    unfold Config.keyword_style, ConfigLoader.get. rewrite Hlookup.
    cbn [Config.among]. rewrite (bool_decide_eq_true_2 _ Hin). reflexivity.
Qed.

(** X24: a setting that is missing from the dictionary is not handled the
    same way by the four properties: [max_line_length] and [indent_steps]
    raise [TypeError] (they compare [None] with a number) and issue no
    warning, while [comma_position] and [keyword_style] return their default
    with a warning that prints [None]. *)
Theorem missing_setting_raises_or_defaults (self : Config.t) :
  (ConfigLoader.values (Config.loader self) !! "max-line-length" = None ->
   Config.max_line_length self = ([], Raise TypeError))
  /\ (ConfigLoader.values (Config.loader self) !! "indent-steps" = None ->
      Config.indent_steps self = ([], Raise TypeError))
  /\ (ConfigLoader.values (Config.loader self) !! "comma-position" = None ->
      Config.comma_position self
      = (["comma-position value must be " +:+ double_quote +:+ "head" +:+ double_quote
          +:+ " or " +:+ double_quote +:+ "end" +:+ double_quote
          +:+ ", but None So defualt value(before) was used."],
         Ok (Some (SStr "head"))))
  /\ (ConfigLoader.values (Config.loader self) !! "keyword-style" = None ->
      Config.keyword_style self
      = (["keyword-style value must be " +:+ double_quote +:+ "upper-all"
          +:+ double_quote +:+ ", " +:+ double_quote +:+ "lower" +:+ double_quote
          +:+ " or " +:+ double_quote +:+ "upper-head" +:+ double_quote
          +:+ ", but None. So default value(lower) was used."],
         Ok (Some (SStr "lower")))).
Proof.
  split; [| split; [| split]]; intros Hmissing.
  - unfold Config.max_line_length, ConfigLoader.get. rewrite Hmissing. reflexivity.
  - unfold Config.indent_steps, ConfigLoader.get. rewrite Hmissing. reflexivity.
  - unfold Config.comma_position, ConfigLoader.get. rewrite Hmissing. reflexivity.
  - unfold Config.keyword_style, ConfigLoader.get. rewrite Hmissing. reflexivity.
Qed.
